(** * Salted DES block engine of passlib ([src/des.c])

    A shallow embedding of the table generator, the block codec, the salt
    modulator, the key scheduler, the round engine and the public entry
    point of [des.c], followed by the properties established about them.

    Conventions of the embedding:
    - a [uint32_t] or [uint8_t] is a [Z]; operations that can leave the
      width are wrapped explicitly ([wrap32], [wrap8]);
    - a C array is a [list], or a [table] for the two-dimensional arrays
      that the generator fills; a read or write outside its bounds,
      undefined in C, is [None] in the embedding, and so is everything that
      follows;
    - the file-scope derived tables and the one-time flag form the record
      [des_globals], passed in and out of the functions that touch them. *)

From Stdlib Require Import ZArith List Bool Lia FMapPositive.
Import ListNotations.
Local Open Scope Z_scope.

(** ** Failure and loops *)

Definition bind {A B : Type} (m : option A) (k : A -> option B) : option B :=
  match m with
  | Some a => k a
  | None => None
  end.

Declare Scope cmd_scope.
Delimit Scope cmd_scope with cmd.
Notation "x <- m ;; k" := (bind m (fun x => k))
  (at level 61, m at next level, right associativity) : cmd_scope.
Notation "' p <- m ;; k" := (bind m (fun p => k))
  (at level 61, p pattern, m at next level, right associativity) : cmd_scope.
Local Open Scope cmd_scope.

(** [for (i = lo; i < lo + n; i++) body]: the body sees the loop variable
    and the state, and may fail. *)
Fixpoint for_loop {St : Type} (n : nat) (i : Z) (body : Z -> St -> option St)
    (s : St) : option St :=
  match n with
  | O => Some s
  | S n' => s' <- body i s ;; for_loop n' (i + 1) body s'
  end.

(** ** Machine integers and arrays *)

Definition wrap32 (x : Z) : Z := x mod 2 ^ 32.
Definition wrap8 (x : Z) : Z := x mod 2 ^ 8.

(** [x << n] on a [uint32_t]. *)
Definition shl32 (x n : Z) : Z := wrap32 (Z.shiftl x n).

(** C truth value of an integer. *)
Definition nonzero (x : Z) : bool := negb (x =? 0).

Fixpoint upd {A : Type} (l : list A) (n : nat) (v : A) : option (list A) :=
  match l, n with
  | [], _ => None
  | _ :: t, O => Some (v :: t)
  | h :: t, S n' =>
      match upd t n' v with
      | Some t' => Some (h :: t')
      | None => None
      end
  end.

(** [a[i]] as an rvalue. *)
Definition rd {A : Type} (a : list A) (i : Z) : option A :=
  if i <? 0 then None else nth_error a (Z.to_nat i).

(** [a[i] = v]. *)
Definition wr {A : Type} (a : list A) (i : Z) (v : A) : option (list A) :=
  if i <? 0 then None else upd a (Z.to_nat i) v.

(** [t[k][i]] as an rvalue, for an array given by its initialiser. *)
Definition rd2 (t : list (list Z)) (k i : Z) : option Z :=
  row <- rd t k ;; rd row i.

(** A two-dimensional array in static storage: its declared dimensions and
    the cells written so far, keyed by their row-major position; a cell
    never written holds the 0 that static storage starts with. *)
Record table : Type := mk_table {
  rows : Z;
  cols : Z;
  cells : PositiveMap.t Z
}.

Definition table_zero (r c : Z) : table := mk_table r c (PositiveMap.empty Z).

Definition in_table (t : table) (k i : Z) : bool :=
  (0 <=? k) && (k <? rows t) && (0 <=? i) && (i <? cols t).

Definition cell_key (t : table) (k i : Z) : positive :=
  Z.to_pos (k * cols t + i + 1).

Definition cell (t : table) (k i : Z) : Z :=
  match PositiveMap.find (cell_key t k i) (cells t) with
  | Some v => v
  | None => 0
  end.

(** [t[k][i]] as an rvalue. *)
Definition tab_rd (t : table) (k i : Z) : option Z :=
  if in_table t k i then Some (cell t k i) else None.

(** [t[k][i] = v]. *)
Definition tab_wr (t : table) (k i v : Z) : option table :=
  if in_table t k i
  then Some (mk_table (rows t) (cols t)
               (PositiveMap.add (cell_key t k i) v (cells t)))
  else None.

(** [t[k][i] |= v]. *)
Definition tab_or (t : table) (k i v : Z) : option table :=
  old <- tab_rd t k i ;; tab_wr t k i (Z.lor old v).

(** ** Static tables (lines 94-195) *)

Definition IP : list Z :=
  [58; 50; 42; 34; 26; 18; 10;  2; 60; 52; 44; 36; 28; 20; 12;  4;
   62; 54; 46; 38; 30; 22; 14;  6; 64; 56; 48; 40; 32; 24; 16;  8;
   57; 49; 41; 33; 25; 17;  9;  1; 59; 51; 43; 35; 27; 19; 11;  3;
   61; 53; 45; 37; 29; 21; 13;  5; 63; 55; 47; 39; 31; 23; 15;  7].

Definition key_perm : list Z :=
  [57; 49; 41; 33; 25; 17;  9;  1; 58; 50; 42; 34; 26; 18;
   10;  2; 59; 51; 43; 35; 27; 19; 11;  3; 60; 52; 44; 36;
   63; 55; 47; 39; 31; 23; 15;  7; 62; 54; 46; 38; 30; 22;
   14;  6; 61; 53; 45; 37; 29; 21; 13;  5; 28; 20; 12;  4].

Definition key_shifts : list Z :=
  [1; 1; 2; 2; 2; 2; 2; 2; 1; 2; 2; 2; 2; 2; 2; 1].

Definition comp_perm : list Z :=
  [14; 17; 11; 24;  1;  5;  3; 28; 15;  6; 21; 10;
   23; 19; 12;  4; 26;  8; 16;  7; 27; 20; 13;  2;
   41; 52; 31; 37; 47; 55; 30; 40; 51; 45; 33; 48;
   44; 49; 39; 56; 34; 53; 46; 42; 50; 36; 29; 32].

Definition sbox : list (list Z) :=
  [ [14;  4; 13;  1;  2; 15; 11;  8;  3; 10;  6; 12;  5;  9;  0;  7;
      0; 15;  7;  4; 14;  2; 13;  1; 10;  6; 12; 11;  9;  5;  3;  8;
      4;  1; 14;  8; 13;  6;  2; 11; 15; 12;  9;  7;  3; 10;  5;  0;
     15; 12;  8;  2;  4;  9;  1;  7;  5; 11;  3; 14; 10;  0;  6; 13];
    [15;  1;  8; 14;  6; 11;  3;  4;  9;  7;  2; 13; 12;  0;  5; 10;
      3; 13;  4;  7; 15;  2;  8; 14; 12;  0;  1; 10;  6;  9; 11;  5;
      0; 14;  7; 11; 10;  4; 13;  1;  5;  8; 12;  6;  9;  3;  2; 15;
     13;  8; 10;  1;  3; 15;  4;  2; 11;  6;  7; 12;  0;  5; 14;  9];
    [10;  0;  9; 14;  6;  3; 15;  5;  1; 13; 12;  7; 11;  4;  2;  8;
     13;  7;  0;  9;  3;  4;  6; 10;  2;  8;  5; 14; 12; 11; 15;  1;
     13;  6;  4;  9;  8; 15;  3;  0; 11;  1;  2; 12;  5; 10; 14;  7;
      1; 10; 13;  0;  6;  9;  8;  7;  4; 15; 14;  3; 11;  5;  2; 12];
    [ 7; 13; 14;  3;  0;  6;  9; 10;  1;  2;  8;  5; 11; 12;  4; 15;
     13;  8; 11;  5;  6; 15;  0;  3;  4;  7;  2; 12;  1; 10; 14;  9;
     10;  6;  9;  0; 12; 11;  7; 13; 15;  1;  3; 14;  5;  2;  8;  4;
      3; 15;  0;  6; 10;  1; 13;  8;  9;  4;  5; 11; 12;  7;  2; 14];
    [ 2; 12;  4;  1;  7; 10; 11;  6;  8;  5;  3; 15; 13;  0; 14;  9;
     14; 11;  2; 12;  4;  7; 13;  1;  5;  0; 15; 10;  3;  9;  8;  6;
      4;  2;  1; 11; 10; 13;  7;  8; 15;  9; 12;  5;  6;  3;  0; 14;
     11;  8; 12;  7;  1; 14;  2; 13;  6; 15;  0;  9; 10;  4;  5;  3];
    [12;  1; 10; 15;  9;  2;  6;  8;  0; 13;  3;  4; 14;  7;  5; 11;
     10; 15;  4;  2;  7; 12;  9;  5;  6;  1; 13; 14;  0; 11;  3;  8;
      9; 14; 15;  5;  2;  8; 12;  3;  7;  0;  4; 10;  1; 13; 11;  6;
      4;  3;  2; 12;  9;  5; 15; 10; 11; 14;  1;  7;  6;  0;  8; 13];
    [ 4; 11;  2; 14; 15;  0;  8; 13;  3; 12;  9;  7;  5; 10;  6;  1;
     13;  0; 11;  7;  4;  9;  1; 10; 14;  3;  5; 12;  2; 15;  8;  6;
      1;  4; 11; 13; 12;  3;  7; 14; 10; 15;  6;  8;  0;  5;  9;  2;
      6; 11; 13;  8;  1;  4; 10;  7;  9;  5;  0; 15; 14;  2;  3; 12];
    [13;  2;  8;  4;  6; 15; 11;  1; 10;  9;  3; 14;  5;  0; 12;  7;
      1; 15; 13;  8; 10;  3;  7;  4; 12;  5;  6; 11;  0; 14;  9;  2;
      7; 11;  4;  1;  9; 12; 14;  2;  0;  6; 10; 13; 15;  3;  5;  8;
      2;  1; 14;  7;  4; 10;  8; 13; 15; 12;  9;  0;  3;  5;  6; 11] ].

Definition pbox : list Z :=
  [16;  7; 20; 21; 29; 12; 28; 17;  1; 15; 23; 26;  5; 18; 31; 10;
    2;  8; 24; 14; 32; 27;  3;  9; 19; 13; 30;  6; 22; 11;  4; 25].

Definition bits32 : list Z :=
  [0x80000000; 0x40000000; 0x20000000; 0x10000000;
   0x08000000; 0x04000000; 0x02000000; 0x01000000;
   0x00800000; 0x00400000; 0x00200000; 0x00100000;
   0x00080000; 0x00040000; 0x00020000; 0x00010000;
   0x00008000; 0x00004000; 0x00002000; 0x00001000;
   0x00000800; 0x00000400; 0x00000200; 0x00000100;
   0x00000080; 0x00000040; 0x00000020; 0x00000010;
   0x00000008; 0x00000004; 0x00000002; 0x00000001].

Definition bits8 : list Z := [0x80; 0x40; 0x20; 0x10; 0x08; 0x04; 0x02; 0x01].

(** ** Derived tables (lines 101, 113, 125, 177, 201-209)

    [bits28] and [bits24] are pointers into [bits32]; they are kept as the
    offset of their target, [None] standing for the null pointer they hold
    before the generator has run. *)

Record des_globals : Type := mk_globals {
  des_initialised : Z;
  bits28 : option Z;
  bits24 : option Z;
  inv_key_perm : list Z;
  inv_comp_perm : list Z;
  u_sbox : table;
  un_pbox : list Z;
  init_perm : list Z;
  final_perm : list Z;
  m_sbox : table;
  psbox : table;
  ip_maskl : table;
  ip_maskr : table;
  fp_maskl : table;
  fp_maskr : table;
  key_perm_maskl : table;
  key_perm_maskr : table;
  comp_maskl : table;
  comp_maskr : table
}.

Definition set_des_initialised (v : Z) (g : des_globals) : des_globals :=
  mk_globals v (bits28 g) (bits24 g) (inv_key_perm g) (inv_comp_perm g)
    (u_sbox g) (un_pbox g) (init_perm g) (final_perm g) (m_sbox g) (psbox g)
    (ip_maskl g) (ip_maskr g) (fp_maskl g) (fp_maskr g) (key_perm_maskl g)
    (key_perm_maskr g) (comp_maskl g) (comp_maskr g).

Definition set_bits28 (v : option Z) (g : des_globals) : des_globals :=
  mk_globals (des_initialised g) v (bits24 g) (inv_key_perm g)
    (inv_comp_perm g) (u_sbox g) (un_pbox g) (init_perm g) (final_perm g)
    (m_sbox g) (psbox g) (ip_maskl g) (ip_maskr g) (fp_maskl g) (fp_maskr g)
    (key_perm_maskl g) (key_perm_maskr g) (comp_maskl g) (comp_maskr g).

Definition set_bits24 (v : option Z) (g : des_globals) : des_globals :=
  mk_globals (des_initialised g) (bits28 g) v (inv_key_perm g)
    (inv_comp_perm g) (u_sbox g) (un_pbox g) (init_perm g) (final_perm g)
    (m_sbox g) (psbox g) (ip_maskl g) (ip_maskr g) (fp_maskl g) (fp_maskr g)
    (key_perm_maskl g) (key_perm_maskr g) (comp_maskl g) (comp_maskr g).

Definition set_inv_key_perm (v : list Z) (g : des_globals) : des_globals :=
  mk_globals (des_initialised g) (bits28 g) (bits24 g) v (inv_comp_perm g)
    (u_sbox g) (un_pbox g) (init_perm g) (final_perm g) (m_sbox g) (psbox g)
    (ip_maskl g) (ip_maskr g) (fp_maskl g) (fp_maskr g) (key_perm_maskl g)
    (key_perm_maskr g) (comp_maskl g) (comp_maskr g).

Definition set_inv_comp_perm (v : list Z) (g : des_globals) : des_globals :=
  mk_globals (des_initialised g) (bits28 g) (bits24 g) (inv_key_perm g) v
    (u_sbox g) (un_pbox g) (init_perm g) (final_perm g) (m_sbox g) (psbox g)
    (ip_maskl g) (ip_maskr g) (fp_maskl g) (fp_maskr g) (key_perm_maskl g)
    (key_perm_maskr g) (comp_maskl g) (comp_maskr g).

Definition set_u_sbox (v : table) (g : des_globals) : des_globals :=
  mk_globals (des_initialised g) (bits28 g) (bits24 g) (inv_key_perm g)
    (inv_comp_perm g) v (un_pbox g) (init_perm g) (final_perm g) (m_sbox g)
    (psbox g) (ip_maskl g) (ip_maskr g) (fp_maskl g) (fp_maskr g)
    (key_perm_maskl g) (key_perm_maskr g) (comp_maskl g) (comp_maskr g).

Definition set_un_pbox (v : list Z) (g : des_globals) : des_globals :=
  mk_globals (des_initialised g) (bits28 g) (bits24 g) (inv_key_perm g)
    (inv_comp_perm g) (u_sbox g) v (init_perm g) (final_perm g) (m_sbox g)
    (psbox g) (ip_maskl g) (ip_maskr g) (fp_maskl g) (fp_maskr g)
    (key_perm_maskl g) (key_perm_maskr g) (comp_maskl g) (comp_maskr g).

Definition set_init_perm (v : list Z) (g : des_globals) : des_globals :=
  mk_globals (des_initialised g) (bits28 g) (bits24 g) (inv_key_perm g)
    (inv_comp_perm g) (u_sbox g) (un_pbox g) v (final_perm g) (m_sbox g)
    (psbox g) (ip_maskl g) (ip_maskr g) (fp_maskl g) (fp_maskr g)
    (key_perm_maskl g) (key_perm_maskr g) (comp_maskl g) (comp_maskr g).

Definition set_final_perm (v : list Z) (g : des_globals) : des_globals :=
  mk_globals (des_initialised g) (bits28 g) (bits24 g) (inv_key_perm g)
    (inv_comp_perm g) (u_sbox g) (un_pbox g) (init_perm g) v (m_sbox g)
    (psbox g) (ip_maskl g) (ip_maskr g) (fp_maskl g) (fp_maskr g)
    (key_perm_maskl g) (key_perm_maskr g) (comp_maskl g) (comp_maskr g).

Definition set_m_sbox (v : table) (g : des_globals) : des_globals :=
  mk_globals (des_initialised g) (bits28 g) (bits24 g) (inv_key_perm g)
    (inv_comp_perm g) (u_sbox g) (un_pbox g) (init_perm g) (final_perm g) v
    (psbox g) (ip_maskl g) (ip_maskr g) (fp_maskl g) (fp_maskr g)
    (key_perm_maskl g) (key_perm_maskr g) (comp_maskl g) (comp_maskr g).

Definition set_psbox (v : table) (g : des_globals) : des_globals :=
  mk_globals (des_initialised g) (bits28 g) (bits24 g) (inv_key_perm g)
    (inv_comp_perm g) (u_sbox g) (un_pbox g) (init_perm g) (final_perm g)
    (m_sbox g) v (ip_maskl g) (ip_maskr g) (fp_maskl g) (fp_maskr g)
    (key_perm_maskl g) (key_perm_maskr g) (comp_maskl g) (comp_maskr g).

Definition set_ip_maskl (v : table) (g : des_globals) : des_globals :=
  mk_globals (des_initialised g) (bits28 g) (bits24 g) (inv_key_perm g)
    (inv_comp_perm g) (u_sbox g) (un_pbox g) (init_perm g) (final_perm g)
    (m_sbox g) (psbox g) v (ip_maskr g) (fp_maskl g) (fp_maskr g)
    (key_perm_maskl g) (key_perm_maskr g) (comp_maskl g) (comp_maskr g).

Definition set_ip_maskr (v : table) (g : des_globals) : des_globals :=
  mk_globals (des_initialised g) (bits28 g) (bits24 g) (inv_key_perm g)
    (inv_comp_perm g) (u_sbox g) (un_pbox g) (init_perm g) (final_perm g)
    (m_sbox g) (psbox g) (ip_maskl g) v (fp_maskl g) (fp_maskr g)
    (key_perm_maskl g) (key_perm_maskr g) (comp_maskl g) (comp_maskr g).

Definition set_fp_maskl (v : table) (g : des_globals) : des_globals :=
  mk_globals (des_initialised g) (bits28 g) (bits24 g) (inv_key_perm g)
    (inv_comp_perm g) (u_sbox g) (un_pbox g) (init_perm g) (final_perm g)
    (m_sbox g) (psbox g) (ip_maskl g) (ip_maskr g) v (fp_maskr g)
    (key_perm_maskl g) (key_perm_maskr g) (comp_maskl g) (comp_maskr g).

Definition set_fp_maskr (v : table) (g : des_globals) : des_globals :=
  mk_globals (des_initialised g) (bits28 g) (bits24 g) (inv_key_perm g)
    (inv_comp_perm g) (u_sbox g) (un_pbox g) (init_perm g) (final_perm g)
    (m_sbox g) (psbox g) (ip_maskl g) (ip_maskr g) (fp_maskl g) v
    (key_perm_maskl g) (key_perm_maskr g) (comp_maskl g) (comp_maskr g).

Definition set_key_perm_maskl (v : table) (g : des_globals) : des_globals :=
  mk_globals (des_initialised g) (bits28 g) (bits24 g) (inv_key_perm g)
    (inv_comp_perm g) (u_sbox g) (un_pbox g) (init_perm g) (final_perm g)
    (m_sbox g) (psbox g) (ip_maskl g) (ip_maskr g) (fp_maskl g) (fp_maskr g) v
    (key_perm_maskr g) (comp_maskl g) (comp_maskr g).

Definition set_key_perm_maskr (v : table) (g : des_globals) : des_globals :=
  mk_globals (des_initialised g) (bits28 g) (bits24 g) (inv_key_perm g)
    (inv_comp_perm g) (u_sbox g) (un_pbox g) (init_perm g) (final_perm g)
    (m_sbox g) (psbox g) (ip_maskl g) (ip_maskr g) (fp_maskl g) (fp_maskr g)
    (key_perm_maskl g) v (comp_maskl g) (comp_maskr g).

Definition set_comp_maskl (v : table) (g : des_globals) : des_globals :=
  mk_globals (des_initialised g) (bits28 g) (bits24 g) (inv_key_perm g)
    (inv_comp_perm g) (u_sbox g) (un_pbox g) (init_perm g) (final_perm g)
    (m_sbox g) (psbox g) (ip_maskl g) (ip_maskr g) (fp_maskl g) (fp_maskr g)
    (key_perm_maskl g) (key_perm_maskr g) v (comp_maskr g).

Definition set_comp_maskr (v : table) (g : des_globals) : des_globals :=
  mk_globals (des_initialised g) (bits28 g) (bits24 g) (inv_key_perm g)
    (inv_comp_perm g) (u_sbox g) (un_pbox g) (init_perm g) (final_perm g)
    (m_sbox g) (psbox g) (ip_maskl g) (ip_maskr g) (fp_maskl g) (fp_maskr g)
    (key_perm_maskl g) (key_perm_maskr g) (comp_maskl g) v.

(** Static storage starts zeroed: the flag is clear, the pointers are null
    and every derived array is filled with zeros. *)
Definition zeros (n : nat) : list Z := repeat 0 n.

Definition initial_globals : des_globals :=
  mk_globals 0 None None (zeros 64) (zeros 56) (table_zero 8 64)
    (zeros 32) (zeros 64) (zeros 64)
    (table_zero 4 4096) (table_zero 4 256)
    (table_zero 8 256) (table_zero 8 256)
    (table_zero 8 256) (table_zero 8 256)
    (table_zero 8 128) (table_zero 8 128)
    (table_zero 8 128) (table_zero 8 128).

(** [p[i]] for a pointer [p] into [bits32]. *)
Definition rd_bits (p : option Z) (i : Z) : option Z :=
  off <- p ;; rd bits32 (off + i).

(** ** Table generator: [des_init_tables] (lines 216-343) *)

(** Lines 230-234. *)
Definition invert_sboxes (g : des_globals) : option des_globals :=
  for_loop 8 0 (fun i g =>
    for_loop 64 0 (fun j g =>
      let b := Z.lor (Z.lor (Z.land j 0x20) (Z.shiftl (Z.land j 1) 4))
                     (Z.land (Z.shiftr j 1) 0xf) in
      v <- rd2 sbox i b ;;
      t <- tab_wr (u_sbox g) i j v ;;
      Some (set_u_sbox t g)) g) g.

(** Lines 240-245. *)
Definition merge_sboxes (g : des_globals) : option des_globals :=
  for_loop 4 0 (fun b g =>
    for_loop 64 0 (fun i g =>
      for_loop 64 0 (fun j g =>
        hi <- tab_rd (u_sbox g) (Z.shiftl b 1) i ;;
        lo <- tab_rd (u_sbox g) (Z.shiftl b 1 + 1) j ;;
        t <- tab_wr (m_sbox g) b (Z.lor (Z.shiftl i 6) j)
                 (wrap8 (Z.lor (Z.shiftl hi 4) lo)) ;;
        Some (set_m_sbox t g)) g) g) g.

(** Lines 251-254: [init_perm[final_perm[i] = IP[i] - 1] = i] and
    [inv_key_perm[i] = 255]. *)
Definition setup_init_final_perm (g : des_globals) : option des_globals :=
  for_loop 64 0 (fun i g =>
    e <- rd IP i ;;
    let o := wrap8 (e - 1) in
    fp <- wr (final_perm g) i o ;;
    let g := set_final_perm fp g in
    ip <- wr (init_perm g) o (wrap8 i) ;;
    let g := set_init_perm ip g in
    ikp <- wr (inv_key_perm g) i 255 ;;
    Some (set_inv_key_perm ikp g)) g.

(** Lines 260-263. *)
Definition invert_key_perm (g : des_globals) : option des_globals :=
  for_loop 56 0 (fun i g =>
    e <- rd key_perm i ;;
    ikp <- wr (inv_key_perm g) (e - 1) (wrap8 i) ;;
    let g := set_inv_key_perm ikp g in
    icp <- wr (inv_comp_perm g) i 255 ;;
    Some (set_inv_comp_perm icp g)) g.

(** Lines 268-270. *)
Definition invert_comp_perm (g : des_globals) : option des_globals :=
  for_loop 48 0 (fun i g =>
    e <- rd comp_perm i ;;
    icp <- wr (inv_comp_perm g) (e - 1) (wrap8 i) ;;
    Some (set_inv_comp_perm icp g)) g.

(** Lines 278-295, for one [k] and one [i]: [il], [ir], [fl], [fr] point at
    [ip_maskl[k][i]], [ip_maskr[k][i]], [fp_maskl[k][i]], [fp_maskr[k][i]]. *)
Definition ip_fp_mask_entry (k i : Z) (g : des_globals) : option des_globals :=
  t <- tab_wr (ip_maskl g) k i 0 ;; let g := set_ip_maskl t g in
  t <- tab_wr (ip_maskr g) k i 0 ;; let g := set_ip_maskr t g in
  t <- tab_wr (fp_maskl g) k i 0 ;; let g := set_fp_maskl t g in
  t <- tab_wr (fp_maskr g) k i 0 ;; let g := set_fp_maskr t g in
  for_loop 8 0 (fun j g =>
    let inbit := 8 * k + j in
    m <- rd bits8 j ;;
    if nonzero (Z.land i m) then
      obit <- rd (init_perm g) inbit ;;
      g <- (if obit <? 32
            then b <- rd bits32 obit ;;
                 t <- tab_or (ip_maskl g) k i b ;; Some (set_ip_maskl t g)
            else b <- rd bits32 (obit - 32) ;;
                 t <- tab_or (ip_maskr g) k i b ;; Some (set_ip_maskr t g)) ;;
      obit <- rd (final_perm g) inbit ;;
      if obit <? 32
      then b <- rd bits32 obit ;;
           t <- tab_or (fp_maskl g) k i b ;; Some (set_fp_maskl t g)
      else b <- rd bits32 (obit - 32) ;;
           t <- tab_or (fp_maskr g) k i b ;; Some (set_fp_maskr t g)
    else Some g) g.

(** Lines 297-309: [il], [ir] point at [key_perm_maskl[k][i]] and
    [key_perm_maskr[k][i]]; a sentinel 255 skips the bit ([continue]). *)
Definition key_perm_mask_entry (k i : Z) (g : des_globals)
    : option des_globals :=
  t <- tab_wr (key_perm_maskl g) k i 0 ;; let g := set_key_perm_maskl t g in
  t <- tab_wr (key_perm_maskr g) k i 0 ;; let g := set_key_perm_maskr t g in
  for_loop 7 0 (fun j g =>
    let inbit := 8 * k + j in
    m <- rd bits8 (j + 1) ;;
    if nonzero (Z.land i m) then
      obit <- rd (inv_key_perm g) inbit ;;
      if obit =? 255 then Some g
      else if obit <? 28
      then b <- rd_bits (bits28 g) obit ;;
           t <- tab_or (key_perm_maskl g) k i b ;; Some (set_key_perm_maskl t g)
      else b <- rd_bits (bits28 g) (obit - 28) ;;
           t <- tab_or (key_perm_maskr g) k i b ;; Some (set_key_perm_maskr t g)
    else Some g) g.

(** Lines 310-322: [il], [ir] point at [comp_maskl[k][i]] and
    [comp_maskr[k][i]]. *)
Definition comp_mask_entry (k i : Z) (g : des_globals) : option des_globals :=
  t <- tab_wr (comp_maskl g) k i 0 ;; let g := set_comp_maskl t g in
  t <- tab_wr (comp_maskr g) k i 0 ;; let g := set_comp_maskr t g in
  for_loop 7 0 (fun j g =>
    let inbit := 7 * k + j in
    m <- rd bits8 (j + 1) ;;
    if nonzero (Z.land i m) then
      obit <- rd (inv_comp_perm g) inbit ;;
      if obit =? 255 then Some g
      else if obit <? 24
      then b <- rd_bits (bits24 g) obit ;;
           t <- tab_or (comp_maskl g) k i b ;; Some (set_comp_maskl t g)
      else b <- rd_bits (bits24 g) (obit - 24) ;;
           t <- tab_or (comp_maskr g) k i b ;; Some (set_comp_maskr t g)
    else Some g) g.

(** Lines 276-324. *)
Definition setup_or_masks (g : des_globals) : option des_globals :=
  for_loop 8 0 (fun k g =>
    g <- for_loop 256 0 (fun i g => ip_fp_mask_entry k i g) g ;;
    for_loop 128 0 (fun i g =>
      g <- key_perm_mask_entry k i g ;; comp_mask_entry k i g) g) g.

(** Lines 330-331. *)
Definition invert_pbox (g : des_globals) : option des_globals :=
  for_loop 32 0 (fun i g =>
    e <- rd pbox i ;;
    t <- wr (un_pbox g) (e - 1) (wrap8 i) ;;
    Some (set_un_pbox t g)) g.

(** Lines 333-340: [p] points at [psbox[b][i]]. *)
Definition setup_psbox (g : des_globals) : option des_globals :=
  for_loop 4 0 (fun b g =>
    for_loop 256 0 (fun i g =>
      t <- tab_wr (psbox g) b i 0 ;; let g := set_psbox t g in
      for_loop 8 0 (fun j g =>
        m <- rd bits8 j ;;
        if nonzero (Z.land i m) then
          u <- rd (un_pbox g) (8 * b + j) ;;
          v <- rd bits32 u ;;
          t <- tab_or (psbox g) b i v ;; Some (set_psbox t g)
        else Some g) g) g) g.

(** The work done on the first call, after the guard. *)
Definition des_init_tables_body (g : des_globals) : option des_globals :=
  let g := set_bits24 (Some 8) (set_bits28 (Some 4) g) in
  g <- invert_sboxes g ;;
  g <- merge_sboxes g ;;
  g <- setup_init_final_perm g ;;
  g <- invert_key_perm g ;;
  g <- invert_comp_perm g ;;
  g <- setup_or_masks g ;;
  g <- invert_pbox g ;;
  g <- setup_psbox g ;;
  Some (set_des_initialised 1 g).

Definition des_init_tables (g : des_globals) : option des_globals :=
  if nonzero (des_initialised g) then Some g else des_init_tables_body g.

(** ** Block codec: [unpack_block], [pack_block] (lines 346-378)

    The bytes are promoted to [int] before the shifts and the ORed value is
    stored in a [uint32_t]: on the two's-complement targets the file is
    written for, that is the 32-bit pattern of the shifted bytes. *)
Definition be32 (b0 b1 b2 b3 : Z) : Z :=
  wrap32 (Z.lor (Z.lor (Z.lor (Z.shiftl b0 24) (Z.shiftl b1 16))
                       (Z.shiftl b2 8)) b3).

Definition unpack_block (block : list Z) : option (Z * Z) :=
  b0 <- rd block 0 ;; b1 <- rd block 1 ;;
  b2 <- rd block 2 ;; b3 <- rd block 3 ;;
  b4 <- rd block 4 ;; b5 <- rd block 5 ;;
  b6 <- rd block 6 ;; b7 <- rd block 7 ;;
  Some (be32 b0 b1 b2 b3, be32 b4 b5 b6 b7).

Definition pack_block (block : list Z) (left right : Z) : option (list Z) :=
  block <- wr block 0 (wrap8 (Z.shiftr left 24)) ;;
  block <- wr block 1 (wrap8 (Z.land (Z.shiftr left 16) 0xff)) ;;
  block <- wr block 2 (wrap8 (Z.land (Z.shiftr left 8) 0xff)) ;;
  block <- wr block 3 (wrap8 (Z.land left 0xff)) ;;
  block <- wr block 4 (wrap8 (Z.shiftr right 24)) ;;
  block <- wr block 5 (wrap8 (Z.land (Z.shiftr right 16) 0xff)) ;;
  block <- wr block 6 (wrap8 (Z.land (Z.shiftr right 8) 0xff)) ;;
  wr block 7 (wrap8 (Z.land right 0xff)).

(** ** Cipher context: [des_ctx_t] (lines 82-88) *)

Record des_ctx_t : Type := mk_ctx {
  saltbits : Z;
  en_keysl : list Z;
  en_keysr : list Z
}.

(** ** Salt modulator: [des_set_salt] (lines 381-393) *)

(** One iteration of the loop over [(obit, saltbit, saltbits)]. *)
Definition salt_step (salt : Z) (s : Z * Z * Z) : Z * Z * Z :=
  let '(obit, saltbit, sbits) := s in
  let sbits := if nonzero (Z.land salt saltbit) then Z.lor sbits obit
               else sbits in
  (Z.shiftr obit 1, shl32 saltbit 1, sbits).

Definition salt_mask (salt : Z) : Z :=
  let '(_, _, sbits) := Nat.iter 24 (salt_step salt) (0x800000, 1, 0) in
  sbits.

Definition des_set_salt (ctx : des_ctx_t) (salt : Z) : des_ctx_t :=
  mk_ctx (salt_mask salt) (en_keysl ctx) (en_keysr ctx).

(** ** Key scheduler: [des_set_key] (lines 396-459) *)

(** [t[0][i0] | t[1][i1] | ... | t[7][i7]], the shape of every permutation
    by OR-mask tables in the file. *)
Definition or8 (t : table) (i0 i1 i2 i3 i4 i5 i6 i7 : Z) : option Z :=
  a0 <- tab_rd t 0 i0 ;; a1 <- tab_rd t 1 i1 ;;
  a2 <- tab_rd t 2 i2 ;; a3 <- tab_rd t 3 i3 ;;
  a4 <- tab_rd t 4 i4 ;; a5 <- tab_rd t 5 i5 ;;
  a6 <- tab_rd t 6 i6 ;; a7 <- tab_rd t 7 i7 ;;
  Some (Z.lor (Z.lor (Z.lor (Z.lor (Z.lor (Z.lor (Z.lor
          a0 a1) a2) a3) a4) a5) a6) a7).

(** Lines 410-425, once for each of the two tables. *)
Definition key_perm_lookup (t : table) (rawkey0 rawkey1 : Z)
    : option Z :=
  or8 t (Z.shiftr rawkey0 25)
        (Z.land (Z.shiftr rawkey0 17) 0x7f)
        (Z.land (Z.shiftr rawkey0 9) 0x7f)
        (Z.land (Z.shiftr rawkey0 1) 0x7f)
        (Z.shiftr rawkey1 25)
        (Z.land (Z.shiftr rawkey1 17) 0x7f)
        (Z.land (Z.shiftr rawkey1 9) 0x7f)
        (Z.land (Z.shiftr rawkey1 1) 0x7f).

(** Lines 439-456, once for each of the two tables. *)
Definition comp_lookup (t : table) (t0 t1 : Z) : option Z :=
  or8 t (Z.land (Z.shiftr t0 21) 0x7f)
        (Z.land (Z.shiftr t0 14) 0x7f)
        (Z.land (Z.shiftr t0 7) 0x7f)
        (Z.land t0 0x7f)
        (Z.land (Z.shiftr t1 21) 0x7f)
        (Z.land (Z.shiftr t1 14) 0x7f)
        (Z.land (Z.shiftr t1 7) 0x7f)
        (Z.land t1 0x7f).

(** Body of the loop at lines 430-457, over [(shifts, ctx)]. *)
Definition key_round (g : des_globals) (k0 k1 : Z) (round : Z)
    (s : Z * des_ctx_t) : option (Z * des_ctx_t) :=
  let '(shifts, ctx) := s in
  ks <- rd key_shifts round ;;
  let shifts := shifts + ks in
  let t0 := Z.lor (shl32 k0 shifts) (Z.shiftr k0 (28 - shifts)) in
  let t1 := Z.lor (shl32 k1 shifts) (Z.shiftr k1 (28 - shifts)) in
  kl <- comp_lookup (comp_maskl g) t0 t1 ;;
  el <- wr (en_keysl ctx) round kl ;;
  let ctx := mk_ctx (saltbits ctx) el (en_keysr ctx) in
  kr <- comp_lookup (comp_maskr g) t0 t1 ;;
  er <- wr (en_keysr ctx) round kr ;;
  Some (shifts, mk_ctx (saltbits ctx) (en_keysl ctx) er).

(** Returns the globals (the generator may have run), the context and the
    C return value. *)
Definition des_set_key (g : des_globals) (ctx : des_ctx_t) (key : list Z)
    : option (des_globals * des_ctx_t * Z) :=
  g <- des_init_tables g ;;
  '(rawkey0, rawkey1) <- unpack_block key ;;
  k0 <- key_perm_lookup (key_perm_maskl g) rawkey0 rawkey1 ;;
  k1 <- key_perm_lookup (key_perm_maskr g) rawkey0 rawkey1 ;;
  '(_, ctx) <- for_loop 16 0 (key_round g k0 k1) (0, ctx) ;;
  Some (g, ctx, 0).

(** ** Round engine: [do_des] (lines 462-582) *)

(** Lines 497-512 and 564-579: a 64-bit permutation by byte-indexed
    lookups, once for each of the two tables. *)
Definition perm_lookup (t : table) (w0 w1 : Z) : option Z :=
  or8 t (Z.shiftr w0 24)
        (Z.land (Z.shiftr w0 16) 0xff)
        (Z.land (Z.shiftr w0 8) 0xff)
        (Z.land w0 0xff)
        (Z.shiftr w1 24)
        (Z.land (Z.shiftr w1 16) 0xff)
        (Z.land (Z.shiftr w1 8) 0xff)
        (Z.land w1 0xff).

(** Lines 525-529. *)
Definition expand_l (r : Z) : Z :=
  Z.lor (Z.lor (Z.lor (Z.lor
    (shl32 (Z.land r 0x00000001) 23)
    (Z.shiftr (Z.land r 0xf8000000) 9))
    (Z.shiftr (Z.land r 0x1f800000) 11))
    (Z.shiftr (Z.land r 0x01f80000) 13))
    (Z.shiftr (Z.land r 0x001f8000) 15).

(** Lines 531-535. *)
Definition expand_r (r : Z) : Z :=
  Z.lor (Z.lor (Z.lor (Z.lor
    (shl32 (Z.land r 0x0001f800) 7)
    (shl32 (Z.land r 0x00001f80) 5))
    (shl32 (Z.land r 0x000001f8) 3))
    (shl32 (Z.land r 0x0000001f) 1))
    (Z.shiftr (Z.land r 0x80000000) 31).

(** Body of the inner loop (lines 522-556) over [(l, r, f)]; [k] is the
    distance of [kl] from [kl1] (and of [kr] from [kr1]) on entry. *)
Definition des_round (g : des_globals) (ctx : des_ctx_t) (k : Z)
    (s : Z * Z * Z) : option (Z * Z * Z) :=
  let '(l, r, _) := s in
  let r48l := expand_l r in
  let r48r := expand_r r in
  let f := Z.land (Z.lxor r48l r48r) (saltbits ctx) in
  kl <- rd (en_keysl ctx) k ;;
  let r48l := Z.lxor r48l (Z.lxor f kl) in
  kr <- rd (en_keysr ctx) k ;;
  let r48r := Z.lxor r48r (Z.lxor f kr) in
  m0 <- tab_rd (m_sbox g) 0 (Z.shiftr r48l 12) ;;
  p0 <- tab_rd (psbox g) 0 m0 ;;
  m1 <- tab_rd (m_sbox g) 1 (Z.land r48l 0xfff) ;;
  p1 <- tab_rd (psbox g) 1 m1 ;;
  m2 <- tab_rd (m_sbox g) 2 (Z.shiftr r48r 12) ;;
  p2 <- tab_rd (psbox g) 2 m2 ;;
  m3 <- tab_rd (m_sbox g) 3 (Z.land r48r 0xfff) ;;
  p3 <- tab_rd (psbox g) 3 m3 ;;
  let f := Z.lor (Z.lor (Z.lor p0 p1) p2) p3 in
  let f := Z.lxor f l in
  Some (r, f, f).

(** One pass of the outer loop body (lines 518-559): sixteen rounds, then
    [r = l; l = f]. *)
Definition des_pass (g : des_globals) (ctx : des_ctx_t) (s : Z * Z * Z)
    : option (Z * Z * Z) :=
  '(l, r, f) <- for_loop 16 0 (des_round g ctx) s ;;
  Some (f, l, f).

(** [while (count--)] entered with [count = n > 0]: the body runs [n]
    times. *)
Fixpoint des_passes (g : des_globals) (ctx : des_ctx_t) (n : nat)
    (s : Z * Z * Z) : option (Z * Z * Z) :=
  match n with
  | O => Some s
  | S n' => s' <- des_pass g ctx s ;; des_passes g ctx n' s'
  end.

(** [f] is declared without an initialiser; the first round assigns it
    before anything reads it, so its initial content, taken as 0 here, is
    never observed (see [des_pass_f_dead]). Returns the C return value and
    the output buffer. *)
Definition do_des (g : des_globals) (ctx : des_ctx_t) (input output : list Z)
    (count : Z) : option (Z * list Z) :=
  if count =? 0 then Some (1, output)
  else if count >? 0 then
    '(lt, rt) <- unpack_block input ;;
    l <- perm_lookup (ip_maskl g) lt rt ;;
    r <- perm_lookup (ip_maskr g) lt rt ;;
    '(l, r, _) <- des_passes g ctx (Z.to_nat count) (l, r, 0) ;;
    lt <- perm_lookup (fp_maskl g) l r ;;
    rt <- perm_lookup (fp_maskr g) l r ;;
    output <- pack_block output lt rt ;;
    Some (0, output)
  else Some (1, output).

(** ** Public entry point: [des_cipher_block] (lines 585-597) *)

(** The automatic variable [ctx] before anything is stored in it. Its
    content is indeterminate in C; it is taken as zeros here, and never
    observed: [des_set_key] writes all subkeys and reads none (see
    [des_set_key_ctx_unread]), and [des_set_salt] overwrites [saltbits]. *)
Definition ctx_uninit : des_ctx_t := mk_ctx 0 (zeros 16) (zeros 16).

(** [memset(&ctx, 0, sizeof(ctx))]. *)
Definition memset_ctx (ctx : des_ctx_t) : des_ctx_t :=
  mk_ctx 0 (map (fun _ => 0) (en_keysl ctx)) (map (fun _ => 0) (en_keysr ctx)).

(** What a call leaves behind for its caller: the return value, the
    output buffer and the globals. The automatic [ctx] is not among them:
    it dies when the function returns, and no caller can name it. *)
Record des_outcome : Type := mk_outcome {
  rc : Z;
  out : list Z;
  globals_end : des_globals
}.

(** Line 595 stores zeros into [ctx] and line 596 returns [rc]. Nothing
    reads [ctx] after that store, so the value it binds here is used by
    nothing: the result of the call is fixed by line 594. *)
Definition des_cipher_block (g : des_globals) (key input output : list Z)
    (salt count : Z) : option des_outcome :=
  g <- (if nonzero (des_initialised g) then Some g else des_init_tables g) ;;
  '(g, ctx, _) <- des_set_key g ctx_uninit key ;;
  let ctx := des_set_salt ctx (wrap32 salt) in
  '(rc, output) <- do_des g ctx input output count ;;
  let ctx := memset_ctx ctx in
  Some (mk_outcome rc output g).

(** Eight zero bytes. *)
Definition zero_block : list Z := [0; 0; 0; 0; 0; 0; 0; 0].

(** What the caller sees of a call: the return value and the output
    buffer. *)
Definition out_of (o : option des_outcome) : option (Z * list Z) :=
  match o with Some r => Some (rc r, out r) | None => None end.


(** ** Vocabulary of the statements *)

(** [x] is representable in [n] bits. *)
Definition fits (n x : Z) : Prop := 0 <= x < 2 ^ n.

Definition byteb (b : Z) : bool := (0 <=? b) && (b <? 256).

(** An 8-byte buffer holding [uint8_t] values. *)
Definition is_block (b : list Z) : Prop :=
  (length b =? 8)%nat && forallb byteb b = true.

(** The eight bytes that [pack_block] stores. *)
Definition block_of_words (left right : Z) : list Z :=
  [ wrap8 (Z.shiftr left 24);
    wrap8 (Z.land (Z.shiftr left 16) 0xff);
    wrap8 (Z.land (Z.shiftr left 8) 0xff);
    wrap8 (Z.land left 0xff);
    wrap8 (Z.shiftr right 24);
    wrap8 (Z.land (Z.shiftr right 16) 0xff);
    wrap8 (Z.land (Z.shiftr right 8) 0xff);
    wrap8 (Z.land right 0xff) ].

(** The derived tables as the generator leaves them when it runs on the
    globals a process starts with (see [des_init_tables_initial]). *)
Definition des_tables : des_globals :=
  Eval vm_compute in
    match des_init_tables initial_globals with
    | Some g => g
    | None => initial_globals
    end.

(** The globals that a call can find: those the process starts with, and
    whatever the generator, the only writer, makes of them. *)
Inductive reachable : des_globals -> Prop :=
  | reach_start : reachable initial_globals
  | reach_init (g g' : des_globals) :
      reachable g -> des_init_tables g = Some g' -> reachable g'.

(** [i; i + 1; ...; i + n - 1]. *)
Fixpoint count_up (n : nat) (i : Z) : list Z :=
  match n with
  | O => []
  | S n' => i :: count_up n' (i + 1)
  end.

Definition range (n : nat) : list Z := count_up n 0.

(** The table has the given dimensions and every cell is below [bound]. *)
Definition table_bounded (r c bound : Z) (t : table) : bool :=
  (rows t =? r) && (cols t =? c) &&
  forallb (fun k =>
    forallb (fun i => let v := cell t k i in (0 <=? v) && (v <? bound))
            (range (Z.to_nat c)))
    (range (Z.to_nat r)).

(** What the engine relies on once the generator has run. *)
Definition tables_wf (g : des_globals) : bool :=
  nonzero (des_initialised g) &&
  table_bounded 4 4096 (2 ^ 8) (m_sbox g) &&
  table_bounded 4 256 (2 ^ 32) (psbox g) &&
  table_bounded 8 256 (2 ^ 32) (ip_maskl g) &&
  table_bounded 8 256 (2 ^ 32) (ip_maskr g) &&
  table_bounded 8 256 (2 ^ 32) (fp_maskl g) &&
  table_bounded 8 256 (2 ^ 32) (fp_maskr g) &&
  table_bounded 8 128 (2 ^ 28) (key_perm_maskl g) &&
  table_bounded 8 128 (2 ^ 28) (key_perm_maskr g) &&
  table_bounded 8 128 (2 ^ 24) (comp_maskl g) &&
  table_bounded 8 128 (2 ^ 24) (comp_maskr g).

(** A context as [des_set_key] and [des_set_salt] leave it: sixteen subkey
    halves of 24 bits on each side and a 24-bit salt mask. *)
Definition ctx_ready (ctx : des_ctx_t) : Prop :=
  fits 24 (saltbits ctx) /\
  length (en_keysl ctx) = 16%nat /\ length (en_keysr ctx) = 16%nat /\
  Forall (fits 24) (en_keysl ctx) /\ Forall (fits 24) (en_keysr ctx).

(** What holds of the state [(shifts, ctx)] of the loop of [des_set_key]
    on entry to round [round]: the subkeys of the earlier rounds are in
    place, 24 bits wide. *)
Definition key_inv (sb : Z) (round : Z) (s : Z * des_ctx_t) : Prop :=
  let ctx := snd s in
  saltbits ctx = sb /\
  length (en_keysl ctx) = 16%nat /\ length (en_keysr ctx) = 16%nat /\
  (forall j, 0 <= j < round ->
     exists v, rd (en_keysl ctx) j = Some v /\ fits 24 v) /\
  (forall j, 0 <= j < round ->
     exists v, rd (en_keysr ctx) j = Some v /\ fits 24 v).

(** What holds of [(l, r, f)] when [j] rounds of a pass are done. *)
Definition round_inv (j : Z) (s : Z * Z * Z) : Prop :=
  let '(l, r, f) := s in fits 32 l /\ fits 32 r /\ (0 < j -> f = r).

(** Two runs fail together, or succeed with related results. *)
Definition both {A : Type} (R : A -> A -> Prop) (o1 o2 : option A) : Prop :=
  match o1, o2 with
  | Some a, Some b => R a b
  | None, None => True
  | _, _ => False
  end.

(** How two states of the loop of [des_set_key] that started from
    different contents of [ctx] are related on entry to round [round]. *)
Definition key_rel (round : Z) (s1 s2 : Z * des_ctx_t) : Prop :=
  fst s1 = fst s2 /\
  length (en_keysl (snd s1)) = 16%nat /\ length (en_keysr (snd s1)) = 16%nat /\
  length (en_keysl (snd s2)) = 16%nat /\ length (en_keysr (snd s2)) = 16%nat /\
  (forall j, 0 <= j < round ->
     rd (en_keysl (snd s1)) j = rd (en_keysl (snd s2)) j) /\
  (forall j, 0 <= j < round ->
     rd (en_keysr (snd s1)) j = rd (en_keysr (snd s2)) j).

(** Two keys that agree on the seven high bits of every byte. *)
Definition same_key_bits (key key' : list Z) : Prop :=
  Forall2 (fun a b => Z.shiftr a 1 = Z.shiftr b 1) key key'.

(** ** The loops of [do_des] as they are written

    [des_passes] above states the loops of lines 514-560 by recursion on
    the number of passes. [Machine] states them over the C variables
    themselves: [count] and [round] are tested and decremented as in
    [while (count--)] and [while (round--)], and [kl] advances with
    [*kl++]. Its loops take fuel, which bounds how often each loop
    condition is evaluated, and two counters record how often each body is
    entered. *)
Module Machine.

Inductive result (A : Type) : Type :=
  | Done (a : A)
  | Fault
  | OutOfFuel.
Arguments Done {A} a.
Arguments Fault {A}.
Arguments OutOfFuel {A}.

(** The variables of the loops: [kl] is the distance of the pointers [kl]
    and [kr] from [kl1] and [kr1]; [passes] and [rounds] count the entries
    into the outer and the inner loop body. *)
Record regs : Type := mk_regs {
  count : Z;
  round : Z;
  l : Z;
  r : Z;
  f : Z;
  kl : Z;
  passes : Z;
  rounds : Z
}.

(** [while (round--) { ... }], lines 521-557. *)
Fixpoint inner_loop (fuel : nat) (g : des_globals) (ctx : des_ctx_t)
    (s : regs) : result regs :=
  match fuel with
  | O => OutOfFuel
  | S fuel' =>
      if nonzero (round s) then
        match des_round g ctx (kl s) (l s, r s, f s) with
        | Some (l', r', f') =>
            inner_loop fuel' g ctx
              (mk_regs (count s) (round s - 1) l' r' f' (kl s + 1)
                 (passes s) (rounds s + 1))
        | None => Fault
        end
      else
        Done (mk_regs (count s) (round s - 1) (l s) (r s) (f s) (kl s)
                (passes s) (rounds s))
  end.

(** [while (count--) { kl = kl1; kr = kr1; round = 16; ...; r = l; l = f; }],
    lines 514-560. *)
Fixpoint outer_loop (fuel : nat) (g : des_globals) (ctx : des_ctx_t)
    (s : regs) : result regs :=
  match fuel with
  | O => OutOfFuel
  | S fuel' =>
      if nonzero (count s) then
        match inner_loop fuel' g ctx
                (mk_regs (count s - 1) 16 (l s) (r s) (f s) 0
                   (passes s + 1) (rounds s)) with
        | Done s' =>
            outer_loop fuel' g ctx
              (mk_regs (count s') (round s') (f s') (l s') (f s') (kl s')
                 (passes s') (rounds s'))
        | Fault => Fault
        | OutOfFuel => OutOfFuel
        end
      else
        Done (mk_regs (count s - 1) (round s) (l s) (r s) (f s) (kl s)
                (passes s) (rounds s))
  end.

(** [do_des] with these loops; the result carries the return value, the
    output buffer and the two counters. *)
Definition do_des (fuel : nat) (g : des_globals) (ctx : des_ctx_t)
    (input output : list Z) (count : Z) : result (Z * list Z * Z * Z) :=
  if count =? 0 then Done (1, output, 0, 0)
  else if count >? 0 then
    match ('(lt, rt) <- unpack_block input ;;
           l <- perm_lookup (ip_maskl g) lt rt ;;
           r <- perm_lookup (ip_maskr g) lt rt ;;
           Some (l, r)) with
    | None => Fault
    | Some (l, r) =>
        match outer_loop fuel g ctx (mk_regs count 0 l r 0 0 0 0) with
        | Done s =>
            match (lt <- perm_lookup (fp_maskl g) (Machine.l s) (Machine.r s) ;;
                   rt <- perm_lookup (fp_maskr g) (Machine.l s) (Machine.r s) ;;
                   pack_block output lt rt) with
            | Some output => Done (0, output, passes s, rounds s)
            | None => Fault
            end
        | Fault => Fault
        | OutOfFuel => OutOfFuel
        end
    end
  else Done (1, output, 0, 0).

End Machine.

(** ** The permutations behind the OR-mask tables *)

(** Bit [b] of the block [(w0, w1)], counting from the most significant
    bit of [w0], the numbering of the input bits in the generator
    ([inbit], lines 283-292). *)
Definition block_bit (w0 w1 b : Z) : bool :=
  if b <? 32 then Z.testbit w0 (31 - b) else Z.testbit w1 (63 - b).

(** The input bit that lands on bit [p] (counting from the least
    significant) of the left ([half = 0]) or right ([half = 1]) output
    word, for the permutation whose inverse is the array [inv]. *)
Definition src_bit (inv : list Z) (half p : Z) : Z :=
  nth (Z.to_nat (32 * half + 31 - p)) inv 0.

(** The number whose bits are listed, least significant first. *)
Fixpoint bits_of_list (l : list bool) : Z :=
  match l with
  | [] => 0
  | b :: t => 2 * bits_of_list t + Z.b2z b
  end.

(** Every cell [t[k][v]] holds exactly the bits of byte [v] at position [k]
    moved to where the permutation sends them. *)
Definition perm_table_ok (t : table) (inv : list Z) (half : Z) : bool :=
  let srcs := map (fun p => src_bit inv half p) (range 32) in
  forallb (fun s => (0 <=? s) && (s <? 64)) srcs &&
  let slots := map (fun s => (s / 8, 7 - s mod 8)) srcs in
  forallb (fun k =>
    forallb (fun v =>
      cell t k v =?
      bits_of_list
        (map (fun '(sk, sj) => (sk =? k) && Z.testbit v sj) slots))
      (range 256))
    (range 8).

(** The final permutation followed by the initial permutation moves every
    bit back to where it was. *)
Definition ip_undoes_fp (g : des_globals) : bool :=
  forallb (fun p =>
    let b := src_bit (final_perm g) 0 p in
    (if b <? 32 then src_bit (init_perm g) 0 (31 - b)
     else src_bit (init_perm g) 1 (63 - b)) =? 31 - p) (range 32) &&
  forallb (fun p =>
    let b := src_bit (final_perm g) 1 p in
    (if b <? 32 then src_bit (init_perm g) 0 (31 - b)
     else src_bit (init_perm g) 1 (63 - b)) =? 63 - p) (range 32).

Definition perms_wf (g : des_globals) : bool :=
  perm_table_ok (ip_maskl g) (final_perm g) 0 &&
  perm_table_ok (ip_maskr g) (final_perm g) 1 &&
  perm_table_ok (fp_maskl g) (init_perm g) 0 &&
  perm_table_ok (fp_maskr g) (init_perm g) 1 &&
  ip_undoes_fp g.

(** ** Count chaining, in the words of the specification

    Count 2 is: the initial permutation once, the 16-round network twice
    in sequence with no permutation in between, the final permutation
    once. *)
Definition initial_permutation (g : des_globals) (w : Z * Z) : option (Z * Z) :=
  l <- perm_lookup (ip_maskl g) (fst w) (snd w) ;;
  r <- perm_lookup (ip_maskr g) (fst w) (snd w) ;;
  Some (l, r).

Definition final_permutation (g : des_globals) (h : Z * Z) : option (Z * Z) :=
  lt <- perm_lookup (fp_maskl g) (fst h) (snd h) ;;
  rt <- perm_lookup (fp_maskr g) (fst h) (snd h) ;;
  Some (lt, rt).

Definition feistel_network (g : des_globals) (ctx : des_ctx_t) (h : Z * Z)
    : option (Z * Z) :=
  '(l, r, _) <- des_pass g ctx (fst h, snd h, 0) ;; Some (l, r).

Definition spec_count_2 (g : des_globals) (ctx : des_ctx_t)
    (input output : list Z) : option (list Z) :=
  w <- unpack_block input ;;
  h <- initial_permutation g w ;;
  h <- feistel_network g ctx h ;;
  h <- feistel_network g ctx h ;;
  w <- final_permutation g h ;;
  pack_block output (fst w) (snd w).

(** Two calls in a row with count 1, the second one encrypting the output
    buffer of the first in place. *)
Definition encrypt_block_twice (g : des_globals) (key input output : list Z)
    (salt : Z) : option des_outcome :=
  o1 <- des_cipher_block g key input output salt 1 ;;
  des_cipher_block (globals_end o1) key (out o1) (out o1) salt 1.

(** ** Vocabulary of the further properties *)

(** The permutation whose inverse array is [outer], applied after the one
    whose inverse array is [inner], moves every bit back to where it
    was. *)
Definition perm_undoes (outer inner : list Z) : bool :=
  forallb (fun p =>
    let b := src_bit outer 0 p in
    (if b <? 32 then src_bit inner 0 (31 - b)
     else src_bit inner 1 (63 - b)) =? 31 - p) (range 32) &&
  forallb (fun p =>
    let b := src_bit outer 1 p in
    (if b <? 32 then src_bit inner 0 (31 - b)
     else src_bit inner 1 (63 - b)) =? 63 - p) (range 32).

(** Bit [o] of the 32-bit word [w], counting from the most significant
    bit, the numbering of the DES tables. *)
Definition word_bit (w o : Z) : bool := Z.testbit w (31 - o).

(** Bit [j] of the six-bit group [i] of the 48-bit expansion held in two
    24-bit halves, groups and bits counted from the most significant
    end: groups 0-3 lie in [r48l], groups 4-7 in [r48r]. *)
Definition group_bit (r48l r48r i j : Z) : bool :=
  if i <? 4 then Z.testbit r48l (23 - (6 * i + j))
  else Z.testbit r48r (23 - (6 * (i - 4) + j)).

(** ** OR-mask tables as bit selections *)

(** Every cell [t[k][v]] holds exactly the bits [p] whose slot, the
    [p]-th of [slots], names row [k] and a bit of [v] that is set. *)
Definition mask_table_ok (t : table) (nrows ncols : nat) (slots : list (Z * Z))
    : bool :=
  forallb (fun k =>
    forallb (fun v =>
      cell t k v =?
      bits_of_list (map (fun '(sk, sj) => (sk =? k) && Z.testbit v sj) slots))
      (range ncols))
    (range nrows).

(** Entry [i] of a static table of bit numbers; the tables count bits from
    1, the result counts them from 0. *)
Definition entry (tbl : list Z) (i : Z) : Z := nth (Z.to_nat i) tbl 0 - 1.

(** Bit [p] (from the least significant) of half [half] of the permuted
    key is key bit [s = key_perm[28 half + 27 - p] - 1], found in the row
    of byte [s / 8] at bit [6 - s mod 8] of the byte without its last
    bit. *)
Definition key_perm_slots (half : Z) : list (Z * Z) :=
  map (fun p => let s := entry key_perm (28 * half + 27 - p) in
                (s / 8, 6 - s mod 8)) (range 28).

(** Bit [p] of half [half] of a subkey is bit
    [c = comp_perm[24 half + 23 - p] - 1] of the 56 rotated key bits,
    found in the row of the seven-bit slice [c / 7] at bit [6 - c mod 7]. *)
Definition comp_perm_slots (half : Z) : list (Z * Z) :=
  map (fun p => let c := entry comp_perm (24 * half + 23 - p) in
                (c / 7, 6 - c mod 7)) (range 24).

(** Bit [p] of the P-box output is bit [s = pbox[31 - p] - 1] of the
    S-box output, found in the row of byte [s / 8] at bit [7 - s mod 8]. *)
Definition pbox_slots : list (Z * Z) :=
  map (fun p => let s := entry pbox (31 - p) in (s / 8, 7 - s mod 8)) (range 32).

Definition key_tables_ok (g : des_globals) : bool :=
  mask_table_ok (key_perm_maskl g) 8 128 (key_perm_slots 0) &&
  mask_table_ok (key_perm_maskr g) 8 128 (key_perm_slots 1) &&
  mask_table_ok (comp_maskl g) 8 128 (comp_perm_slots 0) &&
  mask_table_ok (comp_maskr g) 8 128 (comp_perm_slots 1).

Definition psbox_ok (g : des_globals) : bool :=
  mask_table_ok (psbox g) 4 256 pbox_slots.

(** The key permutation names 56 of the 64 key bits and none of the
    eight that end a byte. *)
Definition key_perm_wf : bool :=
  (length key_perm =? 56)%nat &&
  forallb (fun e => (1 <=? e) && (e <=? 64) && negb (e mod 8 =? 0)) key_perm.

Definition comp_perm_wf : bool :=
  (length comp_perm =? 48)%nat &&
  forallb (fun e => (1 <=? e) && (e <=? 56)) comp_perm.

Definition pbox_wf : bool :=
  (length pbox =? 32)%nat &&
  forallb (fun e => (1 <=? e) && (e <=? 32)) pbox.

(** ** The key schedule, bit by bit *)

(** Bit [b] of a byte buffer, counted from the most significant bit of
    its first byte. *)
Definition buffer_bit (buf : list Z) (b : Z) : bool :=
  Z.testbit (nth (Z.to_nat (b / 8)) buf 0) (7 - b mod 8).

(** The value of [shifts] on entry to round [round] of the loop of
    [des_set_key]: the sum of the entries of [key_shifts] before it. *)
Definition shifts_before (round : Z) : Z :=
  fold_right Z.add 0 (firstn (Z.to_nat round) key_shifts).

(** The value of [t0] (line 434) and of [t1] (line 435). *)
Definition rotated (k shifts : Z) : Z :=
  Z.lor (shl32 k shifts) (Z.shiftr k (28 - shifts)).

(** The key bit that becomes bit [o], counted from the most significant,
    of the 48-bit subkey of round [round]: the compression permutation
    picks one of 56 bits, the rotation by the shifts so far moves within
    its 28-bit half, the key permutation names the key bit. *)
Definition subkey_src (round o : Z) : Z :=
  let c := entry comp_perm o in
  let sh := shifts_before (round + 1) in
  if c <? 28 then entry key_perm ((c + sh) mod 28)
  else entry key_perm (28 + (c - 28 + sh) mod 28).

(** Bit [o] of the 48-bit subkey of round [round] held in [ctx]: the
    first 24 bits are [en_keysl[round]], the last 24 [en_keysr[round]]. *)
Definition subkey_bit (ctx : des_ctx_t) (round o : Z) : bool :=
  if o <? 24 then Z.testbit (nth (Z.to_nat round) (en_keysl ctx) 0) (23 - o)
  else Z.testbit (nth (Z.to_nat round) (en_keysr ctx) 0) (47 - o).

(** What holds of the state [(shifts, ctx)] of the loop of [des_set_key]
    on entry to round [round]: [shifts] is the sum of the shifts of the
    earlier rounds, and each earlier round has stored the compression
    lookups of the two key halves rotated by the shifts up to and
    including its own. *)
Definition key_sched_inv (g : des_globals) (k0 k1 round : Z)
    (s : Z * des_ctx_t) : Prop :=
  fst s = shifts_before round /\
  length (en_keysl (snd s)) = 16%nat /\ length (en_keysr (snd s)) = 16%nat /\
  forall j, 0 <= j < round ->
    let sh := shifts_before (j + 1) in
    rd (en_keysl (snd s)) j
    = comp_lookup (comp_maskl g) (rotated k0 sh) (rotated k1 sh) /\
    rd (en_keysr (snd s)) j
    = comp_lookup (comp_maskr g) (rotated k0 sh) (rotated k1 sh).

(** ** The round function, stage by stage *)

(** The six-bit group [i] of the 48 bits held in two 24-bit halves,
    groups counted from the most significant end. *)
Definition group6 (r48l r48r i : Z) : Z :=
  if i <? 4 then Z.land (Z.shiftr r48l (18 - 6 * i)) 63
  else Z.land (Z.shiftr r48r (18 - 6 * (i - 4))) 63.

(** What S-box [i] of the static array [sbox] gives for the six-bit input
    [x]: each box is laid out in four rows of sixteen columns; the first
    and the last bit of [x] select the row, the four bits between them
    the column. *)
Definition sbox_out (i x : Z) : Z :=
  let row := 2 * (x / 32) + x mod 2 in
  let col := (x / 2) mod 16 in
  nth (Z.to_nat (16 * row + col)) (nth (Z.to_nat i) sbox []) 0.

(** The outputs of S-box [i], each beside its six-bit input. *)
Definition sbox_outs (i : Z) : list (Z * Z) :=
  map (fun x => (x, sbox_out i x)) (range 64).

(** Every cell [m_sbox[b][x]] holds the outputs of S-boxes [2b] and
    [2b + 1] for the two six-bit halves of [x], side by side. *)
Definition m_sbox_ok (g : des_globals) : bool :=
  forallb (fun b =>
    let lows := sbox_outs (2 * b + 1) in
    forallb (fun '(i, hi) =>
      forallb (fun '(j, lo) => cell (m_sbox g) b (64 * i + j) =? 16 * hi + lo)
              lows)
      (sbox_outs (2 * b)))
    (range 4).

(** The 32 bits that the eight S-boxes give for the 48 bits held in two
    24-bit halves: box [i] reads group [i] and gives four bits. *)
Definition sbox_word (r48l r48r : Z) : Z :=
  let s i := sbox_out i (group6 r48l r48r i) in
  be32 (16 * s 0 + s 1) (16 * s 2 + s 3) (16 * s 4 + s 5) (16 * s 6 + s 7).

(** Lines 540-542: the two halves of the expansion of [r] after the salt
    term and the subkey halves [kl] and [kr] are XORed in. *)
Definition sbox_input (sb kl kr r : Z) : Z * Z :=
  let f := Z.land (Z.lxor (expand_l r) (expand_r r)) sb in
  (Z.lxor (expand_l r) (Z.lxor f kl), Z.lxor (expand_r r) (Z.lxor f kr)).

(** ** Complements *)

(** [x] with each of its low [n] bits inverted. *)
Definition cpl (n x : Z) : Z := Z.lxor x (Z.ones n).

(** A buffer with every bit of every byte inverted. *)
Definition complement (buf : list Z) : list Z := map (cpl 8) buf.

(** Two contexts with the same salt mask, the second holding the
    complement of every subkey half of the first. *)
Definition cpl_ctx (ctx ctxc : des_ctx_t) : Prop :=
  saltbits ctxc = saltbits ctx /\
  forall k, 0 <= k < 16 ->
    exists kl kr,
      rd (en_keysl ctx) k = Some kl /\ rd (en_keysr ctx) k = Some kr /\
      fits 24 kl /\ fits 24 kr /\
      rd (en_keysl ctxc) k = Some (cpl 24 kl) /\
      rd (en_keysr ctxc) k = Some (cpl 24 kr).

(** Two states [(l, r, f)] of the rounds, the second the complement of
    the first in [l] and [r], when [j] rounds of a pass are done. *)
Definition cpl_rel (j : Z) (s sc : Z * Z * Z) : Prop :=
  let '(l, r, f) := s in
  let '(lc, rc, fc) := sc in
  fits 32 l /\ fits 32 r /\ lc = cpl 32 l /\ rc = cpl 32 r /\
  (0 < j -> f = r /\ fc = rc).

(** ** Buffers longer than a block *)

(** The outcome [o] of a call, with [rest] following the eight bytes of
    its output buffer. *)
Definition followed_by (rest : list Z) (o : des_outcome) : des_outcome :=
  mk_outcome (rc o) (out o ++ rest) (globals_end o).

(** ** The inverse arrays of the generator *)

(** At each bit number that [tbl] lists, [inv] holds the position at
    which [tbl] lists it. *)
Definition inverse_ok (tbl inv : list Z) : bool :=
  forallb (fun i => match rd inv (entry tbl i) with
                    | Some v => v =? i
                    | None => false
                    end) (range (length tbl)).

(** At each of its first [n] places that [tbl] does not list, [inv]
    holds 255. *)
Definition unset_ok (tbl inv : list Z) (n : nat) : bool :=
  forallb (fun b => existsb (fun i => entry tbl i =? b) (range (length tbl))
                    || match rd inv b with
                       | Some v => v =? 255
                       | None => false
                       end) (range n).

Definition final_perm_ok (g : des_globals) : bool :=
  forallb (fun i => match rd (final_perm g) i with
                    | Some v => v =? entry IP i
                    | None => false
                    end) (range 64).

Definition inverses_ok (g : des_globals) : bool :=
  final_perm_ok g &&
  inverse_ok IP (init_perm g) &&
  inverse_ok key_perm (inv_key_perm g) &&
  unset_ok key_perm (inv_key_perm g) 64 &&
  inverse_ok comp_perm (inv_comp_perm g) &&
  unset_ok comp_perm (inv_comp_perm g) 56 &&
  inverse_ok pbox (un_pbox g).

(** ** The buffers of a call in one memory

    Above, the three buffers of a call are values of their own, so that
    two of them can be equal but not the same. Here they are addresses
    into one byte memory and may coincide or overlap; every access to a
    buffer is written as the source has it, in the order the source has
    it. An access outside the memory gives [None]. *)

Module Mem.

(** Lines 347-362, [block] a pointer into [mem]. *)
Definition unpack_block (mem : list Z) (block : Z) : option (Z * Z) :=
  b0 <- rd mem (block + 0) ;; b1 <- rd mem (block + 1) ;;
  b2 <- rd mem (block + 2) ;; b3 <- rd mem (block + 3) ;;
  b4 <- rd mem (block + 4) ;; b5 <- rd mem (block + 5) ;;
  b6 <- rd mem (block + 6) ;; b7 <- rd mem (block + 7) ;;
  Some (be32 b0 b1 b2 b3, be32 b4 b5 b6 b7).

(** Lines 366-378, [block] a pointer into [mem]. *)
Definition pack_block (mem : list Z) (block left right : Z)
    : option (list Z) :=
  mem <- wr mem (block + 0) (wrap8 (Z.shiftr left 24)) ;;
  mem <- wr mem (block + 1) (wrap8 (Z.land (Z.shiftr left 16) 0xff)) ;;
  mem <- wr mem (block + 2) (wrap8 (Z.land (Z.shiftr left 8) 0xff)) ;;
  mem <- wr mem (block + 3) (wrap8 (Z.land left 0xff)) ;;
  mem <- wr mem (block + 4) (wrap8 (Z.shiftr right 24)) ;;
  mem <- wr mem (block + 5) (wrap8 (Z.land (Z.shiftr right 16) 0xff)) ;;
  mem <- wr mem (block + 6) (wrap8 (Z.land (Z.shiftr right 8) 0xff)) ;;
  wr mem (block + 7) (wrap8 (Z.land right 0xff)).

(** Lines 397-459: the key is read once, at line 405. *)
Definition des_set_key (g : des_globals) (ctx : des_ctx_t) (mem : list Z)
    (key : Z) : option (des_globals * des_ctx_t * Z) :=
  g <- des_init_tables g ;;
  '(rawkey0, rawkey1) <- unpack_block mem key ;;
  k0 <- key_perm_lookup (key_perm_maskl g) rawkey0 rawkey1 ;;
  k1 <- key_perm_lookup (key_perm_maskr g) rawkey0 rawkey1 ;;
  '(_, ctx) <- for_loop 16 0 (key_round g k0 k1) (0, ctx) ;;
  Some (g, ctx, 0).

(** Lines 463-582: the input is read once, at line 492, and the output
    is written once, at line 580. Returns the C return value and the
    memory. *)
Definition do_des (g : des_globals) (ctx : des_ctx_t) (mem : list Z)
    (input output : Z) (count : Z) : option (Z * list Z) :=
  if count =? 0 then Some (1, mem)
  else if count >? 0 then
    '(lt, rt) <- unpack_block mem input ;;
    l <- perm_lookup (ip_maskl g) lt rt ;;
    r <- perm_lookup (ip_maskr g) lt rt ;;
    '(l, r, _) <- des_passes g ctx (Z.to_nat count) (l, r, 0) ;;
    lt <- perm_lookup (fp_maskl g) l r ;;
    rt <- perm_lookup (fp_maskr g) l r ;;
    mem <- pack_block mem output lt rt ;;
    Some (0, mem)
  else Some (1, mem).

(** Lines 586-597. Returns the C return value, the memory and the
    globals. *)
Definition des_cipher_block (g : des_globals) (mem : list Z)
    (key input output : Z) (salt count : Z)
    : option (Z * list Z * des_globals) :=
  g <- (if nonzero (des_initialised g) then Some g else des_init_tables g) ;;
  '(g, ctx, _) <- des_set_key g ctx_uninit mem key ;;
  let ctx := des_set_salt ctx (wrap32 salt) in
  '(rc, mem) <- do_des g ctx mem input output count ;;
  let ctx := memset_ctx ctx in
  Some (rc, mem, g).

End Mem.

(** An eight-byte buffer lies within [mem] at address [p]. *)
Definition in_mem (mem : list Z) (p : Z) : Prop :=
  0 <= p /\ p + 8 <= Z.of_nat (length mem).

(** The eight bytes of [mem] at address [p]. *)
Definition bytes_at (mem : list Z) (p : Z) : list Z :=
  firstn 8 (skipn (Z.to_nat p) mem).

(** [mem] with [bytes] in place of what it holds from address [p] on. *)
Definition stored (mem : list Z) (p : Z) (bytes : list Z) : list Z :=
  firstn (Z.to_nat p) mem ++ bytes
  ++ skipn (Z.to_nat p + length bytes) mem.

(** What the outcome [o] of a call on separate buffers is in a memory
    whose output buffer is at address [output]. *)
Definition in_memory (mem : list Z) (output : Z) (o : des_outcome)
    : Z * list Z * des_globals :=
  (rc o, stored mem output (out o), globals_end o).

(** * Properties *)

(** ** The failure monad and the loop combinator *)

Lemma bind_some {A B : Type} (m : option A) (k : A -> option B) (b : B) :
  bind m k = Some b -> exists a, m = Some a /\ k a = Some b.
Proof. destruct m as [a|]; simpl; intros H; [eauto | discriminate]. Qed.

Lemma for_loop_inv {St : Type} (P : Z -> St -> Prop) (body : Z -> St -> option St) :
  forall (n : nat) (i : Z) (s : St),
    P i s ->
    (forall j t, i <= j < i + Z.of_nat n -> P j t ->
       exists t', body j t = Some t' /\ P (j + 1) t') ->
    exists s', for_loop n i body s = Some s' /\ P (i + Z.of_nat n) s'.
Proof.
  induction n as [|n IH]; intros i s Hs Hbody.
  - exists s. simpl. rewrite Z.add_0_r. auto.
  - destruct (Hbody i s ltac:(lia) Hs) as (t & Ht & HP).
    destruct (IH (i + 1) t HP) as (s' & Hs' & HP').
    + intros j u Hj. apply Hbody. lia.
    + exists s'. cbn [for_loop]. rewrite Ht. cbn [bind]. split; [exact Hs'|].
      replace (i + Z.of_nat (S n)) with (i + 1 + Z.of_nat n) by lia. exact HP'.
Qed.

(** ** Bit-level facts about [Z] *)

Lemma fits_high (n x i : Z) : fits n x -> n <= i -> Z.testbit x i = false.
Proof.
  intros [H0 H1] Hi.
  destruct (Z.eq_dec x 0) as [->|Hx]; [apply Z.bits_0|].
  destruct (Z_lt_le_dec n 0) as [Hn|Hn].
  - rewrite Z.pow_neg_r in H1 by assumption. lia.
  - apply Z.bits_above_log2; [assumption|].
    apply Z.lt_le_trans with n; [|assumption].
    apply Z.log2_lt_pow2; lia.
Qed.

Lemma fits_of_bits (n x : Z) :
  0 <= n -> (forall i, 0 <= i -> n <= i -> Z.testbit x i = false) ->
  0 <= x -> fits n x.
Proof.
  intros Hn Hb Hx. split; [assumption|].
  rewrite <- (Z.mod_small x (2 ^ n)) at 1.
  - apply Z.mod_pos_bound. apply Z.pow_pos_nonneg; lia.
  - split; [assumption|].
    destruct (Z_lt_le_dec x (2 ^ n)) as [Hlt|Hge]; [assumption|exfalso].
    assert (Hpos : 0 < x) by (pose proof (Z.pow_pos_nonneg 2 n); lia).
    pose proof (Z.bit_log2 x Hpos) as Hl.
    rewrite Hb in Hl; [discriminate|apply Z.log2_nonneg|].
    apply Z.log2_le_pow2; assumption.
Qed.

Lemma fits_mono (n m x : Z) : n <= m -> fits n x -> fits m x.
Proof.
  intros Hnm [H0 H1]. split; [assumption|].
  destruct (Z_lt_le_dec n 0) as [Hn|Hn].
  - rewrite Z.pow_neg_r in H1 by assumption. lia.
  - apply Z.lt_le_trans with (2 ^ n); [assumption|].
    apply Z.pow_le_mono_r; lia.
Qed.

Lemma fits_lor (n a b : Z) : 0 <= n -> fits n a -> fits n b -> fits n (Z.lor a b).
Proof.
  intros Hn Ha Hb. apply fits_of_bits; [assumption| |].
  - intros i Hi Hni. rewrite Z.lor_spec, (fits_high n a), (fits_high n b); auto.
  - apply Z.lor_nonneg. split; [apply Ha|apply Hb].
Qed.

Lemma fits_lxor (n a b : Z) : 0 <= n -> fits n a -> fits n b -> fits n (Z.lxor a b).
Proof.
  intros Hn Ha Hb. apply fits_of_bits; [assumption| |].
  - intros i Hi Hni. rewrite Z.lxor_spec, (fits_high n a), (fits_high n b); auto.
  - apply Z.lxor_nonneg. split; intros _; [apply Hb|apply Ha].
Qed.

Lemma fits_land_r (n a b : Z) : 0 <= n -> fits n b -> fits n (Z.land a b).
Proof.
  intros Hn Hb. apply fits_of_bits; [assumption| |].
  - intros i Hi Hni. rewrite Z.land_spec, (fits_high n b); auto using andb_false_r.
  - apply Z.land_nonneg. right. apply Hb.
Qed.

Lemma fits_land_l (n a b : Z) : 0 <= n -> fits n a -> fits n (Z.land a b).
Proof. intros Hn Ha. rewrite Z.land_comm. apply fits_land_r; assumption. Qed.

Lemma fits_shiftr (n k a : Z) :
  0 <= k -> 0 <= n -> fits (n + k) a -> fits n (Z.shiftr a k).
Proof.
  intros Hk Hn Ha. apply fits_of_bits; [assumption| |].
  - intros i Hi Hni. rewrite Z.shiftr_spec by assumption.
    apply (fits_high (n + k)); [assumption|lia].
  - apply Z.shiftr_nonneg. apply Ha.
Qed.

Lemma fits_shiftl (n k a : Z) :
  0 <= k -> 0 <= n -> fits n a -> fits (n + k) (Z.shiftl a k).
Proof.
  intros Hk Hn Ha. apply fits_of_bits; [lia| |].
  - intros i Hi Hni. rewrite Z.shiftl_spec by assumption.
    apply (fits_high n); [assumption|lia].
  - apply Z.shiftl_nonneg. apply Ha.
Qed.

Lemma fits_wrap32 (x : Z) : fits 32 (wrap32 x).
Proof. unfold fits, wrap32. apply Z.mod_pos_bound. reflexivity. Qed.

Lemma fits_wrap8 (x : Z) : fits 8 (wrap8 x).
Proof. unfold fits, wrap8. apply Z.mod_pos_bound. reflexivity. Qed.

Lemma wrap32_small (x : Z) : fits 32 x -> wrap32 x = x.
Proof. intros H. apply Z.mod_small. exact H. Qed.

Lemma land_mask (x k : Z) : 0 <= k -> Z.land x (2 ^ k - 1) = x mod 2 ^ k.
Proof.
  intros Hk. rewrite <- Z.land_ones by assumption.
  rewrite Z.ones_equiv, Z.sub_1_r. reflexivity.
Qed.

Lemma lor_disjoint_add (a y n : Z) :
  0 <= n -> fits n y -> Z.lor (a * 2 ^ n) y = a * 2 ^ n + y.
Proof.
  intros Hn Hy. rewrite <- Z.add_lor_land.
  replace (Z.land (a * 2 ^ n) y) with 0; [lia|].
  symmetry. apply Z.bits_inj'. intros i Hi.
  rewrite Z.bits_0, Z.land_spec, <- Z.shiftl_mul_pow2 by assumption.
  destruct (Z_lt_le_dec i n) as [Hlt|Hge].
  - rewrite Z.shiftl_spec_low by assumption. reflexivity.
  - rewrite (fits_high n y) by assumption. apply andb_false_r.
Qed.

(** ** Block codec *)

Lemma be32_value (b0 b1 b2 b3 : Z) :
  fits 8 b0 -> fits 8 b1 -> fits 8 b2 -> fits 8 b3 ->
  be32 b0 b1 b2 b3 = b0 * 2 ^ 24 + b1 * 2 ^ 16 + b2 * 2 ^ 8 + b3.
Proof.
  unfold fits. intros H0 H1 H2 H3. unfold be32.
  rewrite !Z.shiftl_mul_pow2 by lia.
  rewrite (lor_disjoint_add b0 (b1 * 2 ^ 16) 24) by (unfold fits; lia).
  replace (b0 * 2 ^ 24 + b1 * 2 ^ 16) with ((b0 * 2 ^ 8 + b1) * 2 ^ 16) by lia.
  rewrite (lor_disjoint_add _ (b2 * 2 ^ 8) 16) by (unfold fits; lia).
  replace ((b0 * 2 ^ 8 + b1) * 2 ^ 16 + b2 * 2 ^ 8)
    with ((b0 * 2 ^ 16 + b1 * 2 ^ 8 + b2) * 2 ^ 8) by lia.
  rewrite (lor_disjoint_add _ b3 8) by (unfold fits; lia).
  apply wrap32_small. unfold fits. lia.
Qed.

Lemma length8_inv {A : Type} (l : list A) :
  length l = 8%nat ->
  exists a0 a1 a2 a3 a4 a5 a6 a7, l = [a0; a1; a2; a3; a4; a5; a6; a7].
Proof.
  intros H.
  do 8 (destruct l as [|? l]; [discriminate H|]).
  destruct l; [|discriminate H].
  do 8 eexists. reflexivity.
Qed.

Lemma byteb_fits (b : Z) : byteb b = true -> fits 8 b.
Proof.
  unfold byteb, fits. intros H. apply andb_prop in H. destruct H as [H0 H1].
  apply Z.leb_le in H0. apply Z.ltb_lt in H1. change (2 ^ 8) with 256. lia.
Qed.

Lemma is_block_inv (b : list Z) :
  is_block b ->
  exists b0 b1 b2 b3 b4 b5 b6 b7,
    b = [b0; b1; b2; b3; b4; b5; b6; b7] /\
    fits 8 b0 /\ fits 8 b1 /\ fits 8 b2 /\ fits 8 b3 /\
    fits 8 b4 /\ fits 8 b5 /\ fits 8 b6 /\ fits 8 b7.
Proof.
  unfold is_block. intros H. apply andb_prop in H. destruct H as [Hl Hb].
  apply Nat.eqb_eq in Hl.
  destruct (length8_inv b Hl) as (b0 & b1 & b2 & b3 & b4 & b5 & b6 & b7 & ->).
  exists b0, b1, b2, b3, b4, b5, b6, b7. split; [reflexivity|].
  cbn [forallb] in Hb.
  repeat (apply andb_prop in Hb; destruct Hb as [?H Hb]).
  repeat split; apply byteb_fits; assumption.
Qed.

Lemma is_block_length (b : list Z) : is_block b -> length b = 8%nat.
Proof.
  unfold is_block. intros H. apply andb_prop in H. apply Nat.eqb_eq, H.
Qed.

Lemma unpack_block_bytes (b0 b1 b2 b3 b4 b5 b6 b7 : Z) :
  unpack_block [b0; b1; b2; b3; b4; b5; b6; b7]
  = Some (be32 b0 b1 b2 b3, be32 b4 b5 b6 b7).
Proof. reflexivity. Qed.

Lemma pack_block_length8 (block : list Z) (left right : Z) :
  length block = 8%nat ->
  pack_block block left right = Some (block_of_words left right).
Proof.
  intros H.
  destruct (length8_inv block H) as (a0 & a1 & a2 & a3 & a4 & a5 & a6 & a7 & ->).
  reflexivity.
Qed.

(** The four bytes stored for a word, read back most significant first. *)
Lemma be32_of_bytes_of_word (w : Z) :
  fits 32 w ->
  be32 (wrap8 (Z.shiftr w 24)) (wrap8 (Z.land (Z.shiftr w 16) 0xff))
       (wrap8 (Z.land (Z.shiftr w 8) 0xff)) (wrap8 (Z.land w 0xff)) = w.
Proof.
  intros Hw. rewrite be32_value by apply fits_wrap8.
  unfold wrap8. change 0xff with (2 ^ 8 - 1).
  rewrite !land_mask, !Z.shiftr_div_pow2 by lia.
  unfold fits in Hw.
  change (2 ^ 32) with 4294967296 in Hw.
  change (2 ^ 24) with 16777216. change (2 ^ 16) with 65536.
  change (2 ^ 8) with 256.
  Z.div_mod_to_equations. lia.
Qed.

(** The bytes stored for the word that four bytes decode to. *)
Lemma bytes_of_be32 (b0 b1 b2 b3 : Z) :
  fits 8 b0 -> fits 8 b1 -> fits 8 b2 -> fits 8 b3 ->
  let w := be32 b0 b1 b2 b3 in
  wrap8 (Z.shiftr w 24) = b0 /\
  wrap8 (Z.land (Z.shiftr w 16) 0xff) = b1 /\
  wrap8 (Z.land (Z.shiftr w 8) 0xff) = b2 /\
  wrap8 (Z.land w 0xff) = b3.
Proof.
  intros H0 H1 H2 H3 w. subst w. rewrite be32_value by assumption.
  unfold wrap8. change 0xff with (2 ^ 8 - 1).
  rewrite !land_mask, !Z.shiftr_div_pow2 by lia.
  unfold fits in *.
  change (2 ^ 24) with 16777216. change (2 ^ 16) with 65536.
  change (2 ^ 8) with 256 in *.
  repeat split; Z.div_mod_to_equations; lia.
Qed.

Lemma unpack_pack (w0 w1 : Z) :
  fits 32 w0 -> fits 32 w1 ->
  unpack_block (block_of_words w0 w1) = Some (w0, w1).
Proof.
  intros H0 H1. unfold block_of_words. rewrite unpack_block_bytes.
  rewrite !be32_of_bytes_of_word by assumption. reflexivity.
Qed.

(** C9: [unpack_block] reads the buffer big-endian, word 0 from bytes 0-3
    and word 1 from bytes 4-7; packing what was unpacked from an 8-byte
    buffer restores the buffer, and unpacking what was packed from two
    32-bit words restores the words. *)
Theorem block_codec_inverse (buffer out : list Z) (w0 w1 : Z) :
  is_block buffer -> length out = 8%nat -> fits 32 w0 -> fits 32 w1 ->
  (exists b0 b1 b2 b3 b4 b5 b6 b7,
     buffer = [b0; b1; b2; b3; b4; b5; b6; b7] /\
     unpack_block buffer
     = Some (b0 * 2 ^ 24 + b1 * 2 ^ 16 + b2 * 2 ^ 8 + b3,
             b4 * 2 ^ 24 + b5 * 2 ^ 16 + b6 * 2 ^ 8 + b7)) /\
  ('(d0, d1) <- unpack_block buffer ;; pack_block out d0 d1) = Some buffer /\
  (b <- pack_block out w0 w1 ;; unpack_block b) = Some (w0, w1).
Proof.
  intros Hb Ho H0 H1.
  destruct (is_block_inv buffer Hb)
    as (b0 & b1 & b2 & b3 & b4 & b5 & b6 & b7 & -> & F0 & F1 & F2 & F3 & F4 & F5 & F6 & F7).
  split; [|split].
  - exists b0, b1, b2, b3, b4, b5, b6, b7. split; [reflexivity|].
    rewrite unpack_block_bytes, !be32_value by assumption. reflexivity.
  - rewrite unpack_block_bytes. cbn [bind].
    rewrite pack_block_length8 by assumption. unfold block_of_words.
    destruct (bytes_of_be32 b0 b1 b2 b3 F0 F1 F2 F3) as (-> & -> & -> & ->).
    destruct (bytes_of_be32 b4 b5 b6 b7 F4 F5 F6 F7) as (-> & -> & -> & ->).
    reflexivity.
  - rewrite pack_block_length8 by assumption. cbn [bind].
    apply unpack_pack; assumption.
Qed.

Lemma block_codec_inverse_witness :
  (exists b0 b1 b2 b3 b4 b5 b6 b7,
     [1; 35; 69; 103; 137; 171; 205; 239] = [b0; b1; b2; b3; b4; b5; b6; b7] /\
     unpack_block [1; 35; 69; 103; 137; 171; 205; 239]
     = Some (b0 * 2 ^ 24 + b1 * 2 ^ 16 + b2 * 2 ^ 8 + b3,
             b4 * 2 ^ 24 + b5 * 2 ^ 16 + b6 * 2 ^ 8 + b7)) /\
  ('(d0, d1) <- unpack_block [1; 35; 69; 103; 137; 171; 205; 239] ;;
   pack_block zero_block d0 d1) = Some [1; 35; 69; 103; 137; 171; 205; 239] /\
  (b <- pack_block zero_block 0x01234567 0x89abcdef ;; unpack_block b)
  = Some (0x01234567, 0x89abcdef).
Proof.
  apply (block_codec_inverse [1; 35; 69; 103; 137; 171; 205; 239] zero_block
           0x01234567 0x89abcdef).
  - reflexivity.
  - reflexivity.
  - unfold fits. lia.
  - unfold fits. lia.
Defined.

(** ** Salt modulator *)

Lemma nonzero_land_pow2 (x k : Z) :
  0 <= k -> nonzero (Z.land x (2 ^ k)) = Z.testbit x k.
Proof.
  intros Hk. unfold nonzero.
  assert (E : Z.land x (2 ^ k) = if Z.testbit x k then 2 ^ k else 0).
  { apply Z.bits_inj'. intros i Hi. rewrite Z.land_spec, Z.pow2_bits_eqb by assumption.
    destruct (Z.eqb_spec k i) as [->|Hne].
    - destruct (Z.testbit x i); [|rewrite Z.bits_0; reflexivity].
      rewrite Z.pow2_bits_true by assumption. reflexivity.
    - rewrite andb_false_r. destruct (Z.testbit x k); [|rewrite Z.bits_0; reflexivity].
      rewrite Z.pow2_bits_false by assumption. reflexivity. }
  rewrite E. destruct (Z.testbit x k); [|reflexivity].
  pose proof (Z.pow_pos_nonneg 2 k ltac:(lia) Hk) as Hp.
  destruct (Z.eqb_spec (2 ^ k) 0); [lia|reflexivity].
Qed.

(** State of the loop of [des_set_salt] after [k] iterations. *)
Lemma salt_loop_state (salt : Z) (k : nat) :
  (k <= 24)%nat ->
  exists sb,
    Nat.iter k (salt_step salt) (0x800000, 1, 0)
    = (Z.shiftr 0x800000 (Z.of_nat k), 2 ^ Z.of_nat k, sb) /\
    0 <= sb /\
    forall j, 0 <= j ->
      Z.testbit sb j
      = (23 - Z.of_nat k <? j) && (j <=? 23) && Z.testbit salt (23 - j).
Proof.
  induction k as [|k IH]; intros Hk.
  - exists 0. split; [reflexivity|]. split; [lia|].
    intros j Hj. rewrite Z.bits_0. change (Z.of_nat 0) with 0.
    destruct (Z.ltb_spec (23 - 0) j), (Z.leb_spec j 23); try reflexivity; lia.
  - destruct (IH ltac:(lia)) as (sb & E & Hsb & Hbits).
    rewrite Nat.iter_succ, E. unfold salt_step.
    rewrite nonzero_land_pow2 by lia.
    eexists. split; [|split].
    + f_equal. f_equal.
      * rewrite Z.shiftr_shiftr by lia. f_equal. lia.
      * unfold shl32. rewrite Z.shiftl_mul_pow2 by lia.
        rewrite <- Z.pow_add_r by lia.
        replace (Z.of_nat k + 1) with (Z.of_nat (S k)) by lia.
        apply wrap32_small. unfold fits. split.
        -- apply Z.pow_nonneg. lia.
        -- apply Z.pow_lt_mono_r; lia.
    + destruct (Z.testbit salt (Z.of_nat k)); [|assumption].
      apply Z.lor_nonneg. split; [assumption|].
      apply Z.shiftr_nonneg. lia.
    + intros j Hj.
      assert (Hob : Z.testbit (Z.shiftr 0x800000 (Z.of_nat k)) j = (23 =? j + Z.of_nat k)).
      { rewrite Z.shiftr_spec by assumption. change 0x800000 with (2 ^ 23).
        apply Z.pow2_bits_eqb. lia. }
      destruct (Z.testbit salt (Z.of_nat k)) eqn:Ek.
      * rewrite Z.lor_spec, Hbits, Hob by assumption.
        destruct (Z.eqb_spec 23 (j + Z.of_nat k)) as [Ej|Ej].
        -- replace (23 - j) with (Z.of_nat k) by lia. rewrite Ek.
           destruct (Z.ltb_spec (23 - Z.of_nat k) j),
                    (Z.ltb_spec (23 - Z.of_nat (S k)) j),
                    (Z.leb_spec j 23); try reflexivity; lia.
        -- rewrite orb_false_r.
           destruct (Z.ltb_spec (23 - Z.of_nat k) j),
                    (Z.ltb_spec (23 - Z.of_nat (S k)) j);
             try reflexivity; lia.
      * rewrite Hbits by assumption.
        destruct (Z.ltb_spec (23 - Z.of_nat k) j),
                 (Z.ltb_spec (23 - Z.of_nat (S k)) j); try reflexivity; try lia.
        replace (23 - j) with (Z.of_nat k) by lia. rewrite Ek.
        rewrite !andb_false_r. reflexivity.
Qed.

Lemma salt_mask_bits (salt : Z) :
  0 <= salt_mask salt /\
  forall j, 0 <= j ->
    Z.testbit (salt_mask salt) j = (j <=? 23) && Z.testbit salt (23 - j).
Proof.
  destruct (salt_loop_state salt 24 (le_n _)) as (sb & E & Hsb & Hbits).
  unfold salt_mask. rewrite E. split; [assumption|].
  intros j Hj. rewrite Hbits by assumption.
  destruct (Z.ltb_spec (23 - Z.of_nat 24) j); [reflexivity|lia].
Qed.

Lemma fits_salt_mask (salt : Z) : fits 24 (salt_mask salt).
Proof.
  destruct (salt_mask_bits salt) as [H0 Hb].
  apply fits_of_bits; [lia| |assumption].
  intros i Hi Hge. rewrite Hb by assumption.
  destruct (Z.leb_spec i 23); [lia|reflexivity].
Qed.

(** C4: the mask stored by [des_set_salt] is the bit-reversal of the low 24
    bits of the salt: input bit [i], for [0 <= i < 24], is output bit
    [23 - i]; the mask has no bit at position 24 or above; and bits of the
    salt at position 24 and above do not matter, the mask of [salt] being
    the mask of [salt & 0xFFFFFF], also after the conversion of the [long]
    argument of the entry point to [uint32_t]. *)
Theorem des_set_salt_bit_reversal (ctx : des_ctx_t) (salt i : Z) :
  0 <= i < 24 ->
  Z.testbit (saltbits (des_set_salt ctx salt)) (23 - i) = Z.testbit salt i /\
  fits 24 (saltbits (des_set_salt ctx salt)) /\
  saltbits (des_set_salt ctx salt)
  = saltbits (des_set_salt ctx (Z.land salt 0xFFFFFF)) /\
  saltbits (des_set_salt ctx (wrap32 salt))
  = saltbits (des_set_salt ctx (Z.land salt 0xFFFFFF)).
Proof.
  intros Hi. cbn [des_set_salt saltbits].
  destruct (salt_mask_bits salt) as [H0 Hb].
  destruct (salt_mask_bits (Z.land salt 0xFFFFFF)) as [H0' Hb'].
  split; [|split; [|split]].
  - rewrite Hb by lia. replace (23 - (23 - i)) with i by lia.
    destruct (Z.leb_spec (23 - i) 23); [reflexivity|lia].
  - apply fits_salt_mask.
  - apply Z.bits_inj'. intros j Hj. rewrite Hb, Hb' by assumption.
    destruct (Z.leb_spec j 23); [|reflexivity]. cbn [andb].
    rewrite Z.land_spec. change 0xFFFFFF with (Z.ones 24).
    rewrite (Z.ones_spec_low 24 (23 - j)) by lia. rewrite andb_true_r.
    reflexivity.
  - destruct (salt_mask_bits (wrap32 salt)) as [H0w Hbw].
    apply Z.bits_inj'. intros j Hj. rewrite Hbw, Hb' by assumption.
    destruct (Z.leb_spec j 23); [|reflexivity]. cbn [andb].
    rewrite Z.land_spec. change 0xFFFFFF with (Z.ones 24).
    rewrite (Z.ones_spec_low 24 (23 - j)) by lia. rewrite andb_true_r.
    unfold wrap32. apply Z.mod_pow2_bits_low. lia.
Qed.

Lemma des_set_salt_bit_reversal_witness :
  Z.testbit (saltbits (des_set_salt ctx_uninit 0x1000005)) (23 - 2)
  = Z.testbit 0x1000005 2 /\
  fits 24 (saltbits (des_set_salt ctx_uninit 0x1000005)) /\
  saltbits (des_set_salt ctx_uninit 0x1000005)
  = saltbits (des_set_salt ctx_uninit (Z.land 0x1000005 0xFFFFFF)) /\
  saltbits (des_set_salt ctx_uninit (wrap32 0x1000005))
  = saltbits (des_set_salt ctx_uninit (Z.land 0x1000005 0xFFFFFF)).
Proof. apply (des_set_salt_bit_reversal ctx_uninit 0x1000005 2). lia. Defined.

(** ** Arrays and tables *)

Lemma rd_some {A : Type} (a : list A) (i : Z) :
  0 <= i < Z.of_nat (length a) -> exists v, rd a i = Some v /\ In v a.
Proof.
  intros Hi. unfold rd. destruct (Z.ltb_spec i 0); [lia|].
  destruct (nth_error a (Z.to_nat i)) as [v|] eqn:E.
  - exists v. split; [reflexivity|]. eapply nth_error_In, E.
  - apply nth_error_None in E. lia.
Qed.

Lemma rd_forall {A : Type} (P : A -> Prop) (a : list A) (i : Z) :
  Forall P a -> 0 <= i < Z.of_nat (length a) ->
  exists v, rd a i = Some v /\ P v.
Proof.
  intros HP Hi. destruct (rd_some a i Hi) as (v & E & Hin).
  exists v. split; [assumption|]. rewrite Forall_forall in HP. auto.
Qed.

Lemma in_count_up (n : nat) :
  forall i k, i <= k < i + Z.of_nat n -> In k (count_up n i).
Proof.
  induction n as [|n IH]; intros i k Hk; [lia|].
  cbn [count_up]. destruct (Z.eq_dec i k) as [->|Hne]; [left; reflexivity|].
  right. apply IH. lia.
Qed.

Lemma in_range (n : nat) (k : Z) : 0 <= k < Z.of_nat n -> In k (range n).
Proof. intros Hk. apply in_count_up. lia. Qed.

Lemma table_bounded_spec (r c bound : Z) (t : table) (k i : Z) :
  table_bounded r c bound t = true ->
  0 <= k < r -> 0 <= i < c ->
  tab_rd t k i = Some (cell t k i) /\ 0 <= cell t k i < bound.
Proof.
  unfold table_bounded. intros H Hk Hi.
  apply andb_prop in H. destruct H as [H Hall].
  apply andb_prop in H. destruct H as [Hr Hc].
  apply Z.eqb_eq in Hr. apply Z.eqb_eq in Hc.
  split.
  - unfold tab_rd, in_table. rewrite Hr, Hc.
    destruct (Z.leb_spec 0 k), (Z.ltb_spec k r), (Z.leb_spec 0 i),
             (Z.ltb_spec i c); try lia. reflexivity.
  - rewrite forallb_forall in Hall.
    specialize (Hall k (in_range (Z.to_nat r) k ltac:(lia))).
    rewrite forallb_forall in Hall.
    specialize (Hall i (in_range (Z.to_nat c) i ltac:(lia))).
    apply andb_prop in Hall. destruct Hall as [H0 H1].
    apply Z.leb_le in H0. apply Z.ltb_lt in H1. lia.
Qed.

Lemma tab_rd_fits (r c n : Z) (t : table) (k i : Z) :
  table_bounded r c (2 ^ n) t = true ->
  0 <= k < r -> 0 <= i < c ->
  exists v, tab_rd t k i = Some v /\ fits n v.
Proof.
  intros H Hk Hi. destruct (table_bounded_spec _ _ _ _ k i H Hk Hi) as [E B].
  exists (cell t k i). split; assumption.
Qed.

(** Eight in-range lookups combined by OR. *)
Lemma or8_fits (c n : Z) (t : table) (i0 i1 i2 i3 i4 i5 i6 i7 : Z) :
  0 <= n -> table_bounded 8 c (2 ^ n) t = true ->
  0 <= i0 < c -> 0 <= i1 < c -> 0 <= i2 < c -> 0 <= i3 < c ->
  0 <= i4 < c -> 0 <= i5 < c -> 0 <= i6 < c -> 0 <= i7 < c ->
  exists v, or8 t i0 i1 i2 i3 i4 i5 i6 i7 = Some v /\ fits n v /\
    v = Z.lor (Z.lor (Z.lor (Z.lor (Z.lor (Z.lor (Z.lor
          (cell t 0 i0) (cell t 1 i1)) (cell t 2 i2)) (cell t 3 i3))
          (cell t 4 i4)) (cell t 5 i5)) (cell t 6 i6)) (cell t 7 i7).
Proof.
  intros Hn Ht H0 H1 H2 H3 H4 H5 H6 H7. unfold or8.
  destruct (table_bounded_spec _ _ _ _ 0 i0 Ht ltac:(lia) H0) as [-> B0].
  destruct (table_bounded_spec _ _ _ _ 1 i1 Ht ltac:(lia) H1) as [-> B1].
  destruct (table_bounded_spec _ _ _ _ 2 i2 Ht ltac:(lia) H2) as [-> B2].
  destruct (table_bounded_spec _ _ _ _ 3 i3 Ht ltac:(lia) H3) as [-> B3].
  destruct (table_bounded_spec _ _ _ _ 4 i4 Ht ltac:(lia) H4) as [-> B4].
  destruct (table_bounded_spec _ _ _ _ 5 i5 Ht ltac:(lia) H5) as [-> B5].
  destruct (table_bounded_spec _ _ _ _ 6 i6 Ht ltac:(lia) H6) as [-> B6].
  destruct (table_bounded_spec _ _ _ _ 7 i7 Ht ltac:(lia) H7) as [-> B7].
  cbn [bind]. eexists. split; [reflexivity|]. split; [|reflexivity].
  repeat apply fits_lor; assumption.
Qed.

(** Index ranges of the slices used by the lookups. *)
Lemma slice_top (w n k : Z) :
  0 <= k -> 0 <= n -> fits (n + k) w -> 0 <= Z.shiftr w k < 2 ^ n.
Proof. intros Hk Hn Hw. apply fits_shiftr; assumption. Qed.

Lemma slice_mask (x n : Z) : 0 <= n -> 0 <= Z.land x (2 ^ n - 1) < 2 ^ n.
Proof.
  intros Hn. rewrite land_mask by assumption.
  apply Z.mod_pos_bound. apply Z.pow_pos_nonneg; lia.
Qed.

Lemma upd_spec {A : Type} (v : A) :
  forall (a : list A) (n : nat),
    (n < length a)%nat ->
    exists a', upd a n v = Some a' /\ length a' = length a /\
               nth_error a' n = Some v /\
               forall m, m <> n -> nth_error a' m = nth_error a m.
Proof.
  induction a as [|h t IH]; intros n Hn; [simpl in Hn; lia|].
  destruct n as [|n].
  - exists (v :: t). repeat split. intros [|m] Hm; [congruence|reflexivity].
  - destruct (IH n) as (t' & E & L & Hv & Ho); [simpl in Hn; lia|].
    exists (h :: t'). cbn [upd]. rewrite E. repeat split.
    + simpl. congruence.
    + exact Hv.
    + intros [|m] Hm; [reflexivity|]. simpl. apply Ho. congruence.
Qed.

Lemma wr_spec {A : Type} (a : list A) (i : Z) (v : A) :
  0 <= i < Z.of_nat (length a) ->
  exists a', wr a i v = Some a' /\ length a' = length a /\
             rd a' i = Some v /\
             forall j, 0 <= j -> j <> i -> rd a' j = rd a j.
Proof.
  intros Hi. unfold wr, rd. destruct (Z.ltb_spec i 0); [lia|].
  destruct (upd_spec v a (Z.to_nat i)) as (a' & E & L & Hv & Ho); [lia|].
  exists a'. repeat split; try assumption.
  intros j Hj Hne. destruct (Z.ltb_spec j 0); [lia|]. apply Ho. lia.
Qed.

Lemma rd_all_Forall {A : Type} (P : A -> Prop) (a : list A) :
  (forall j, 0 <= j < Z.of_nat (length a) -> exists v, rd a j = Some v /\ P v) ->
  Forall P a.
Proof.
  intros H. apply Forall_forall. intros x Hx.
  destruct (In_nth_error a x Hx) as (n & En).
  assert (Hn : (n < length a)%nat) by (apply nth_error_Some; congruence).
  destruct (H (Z.of_nat n) ltac:(lia)) as (v & Ev & Pv).
  unfold rd in Ev. destruct (Z.ltb_spec (Z.of_nat n) 0); [lia|].
  rewrite Nat2Z.id in Ev. congruence.
Qed.

(** ** Widths inside a round *)

Lemma fits_shl32 (n k m a : Z) :
  0 <= k -> 0 <= n -> fits n a -> n + k <= m -> m <= 32 -> fits m (shl32 a k).
Proof.
  intros Hk Hn Ha Hm H32.
  assert (F : fits (n + k) (Z.shiftl a k)) by (apply fits_shiftl; assumption).
  unfold shl32. rewrite wrap32_small.
  - apply (fits_mono (n + k)); assumption.
  - apply (fits_mono (n + k)); [lia|assumption].
Qed.

Lemma fits_shr (n k m a : Z) :
  0 <= k -> 0 <= m -> fits n a -> n <= m + k -> fits m (Z.shiftr a k).
Proof.
  intros Hk Hm Ha Hn. apply fits_shiftr; [assumption..|].
  apply (fits_mono n); assumption.
Qed.

Lemma fits_mask (n a mask : Z) : 0 <= n -> 0 <= mask < 2 ^ n -> fits n (Z.land a mask).
Proof. intros Hn Hm. apply fits_land_r; assumption. Qed.

Lemma fits_expand_l (r : Z) : fits 24 (expand_l r).
Proof.
  unfold expand_l. repeat apply fits_lor; try lia.
  - apply (fits_shl32 1 23); try lia. apply fits_mask; lia.
  - apply (fits_shr 32 9); try lia. apply fits_mask; lia.
  - apply (fits_shr 29 11); try lia. apply fits_mask; lia.
  - apply (fits_shr 25 13); try lia. apply fits_mask; lia.
  - apply (fits_shr 21 15); try lia. apply fits_mask; lia.
Qed.

Lemma fits_expand_r (r : Z) : fits 24 (expand_r r).
Proof.
  unfold expand_r. repeat apply fits_lor; try lia.
  - apply (fits_shl32 17 7); try lia. apply fits_mask; lia.
  - apply (fits_shl32 13 5); try lia. apply fits_mask; lia.
  - apply (fits_shl32 9 3); try lia. apply fits_mask; lia.
  - apply (fits_shl32 5 1); try lia. apply fits_mask; lia.
  - apply (fits_shr 32 31); try lia. apply fits_mask; lia.
Qed.

(** The 24-bit halves stay 24 bits wide through the salting and the XOR
    with the subkey, so both 12-bit slices index [m_sbox] in range. *)
Lemma fits_salted_half (h other sb key : Z) :
  fits 24 h -> fits 24 other -> fits 24 key ->
  let f := Z.land (Z.lxor h other) sb in
  let h' := Z.lxor h (Z.lxor f key) in
  fits 24 h' /\ 0 <= Z.shiftr h' 12 < 4096 /\ 0 <= Z.land h' 0xfff < 4096.
Proof.
  intros Hh Ho Hk f h'.
  assert (Ff : fits 24 f).
  { subst f. apply fits_land_l; [lia|]. apply fits_lxor; [lia|assumption..]. }
  assert (Fh : fits 24 h').
  { subst h'. apply fits_lxor; [lia|assumption|]. apply fits_lxor; [lia|assumption..]. }
  split; [assumption|]. split.
  - apply (fits_shr 24 12 12); [lia..|assumption|lia].
  - apply (slice_mask h' 12). lia.
Qed.

(** ** Index ranges of the table lookups *)

Lemma idx_hi8 (w : Z) : fits 32 w -> 0 <= Z.shiftr w 24 < 256.
Proof. intros H. apply (slice_top w 8 24); [lia..|exact H]. Qed.

Lemma idx_lo8 (x : Z) : 0 <= Z.land x 0xff < 256.
Proof. apply (slice_mask x 8). lia. Qed.

Lemma idx_hi7 (w : Z) : fits 32 w -> 0 <= Z.shiftr w 25 < 128.
Proof. intros H. apply (slice_top w 7 25); [lia..|exact H]. Qed.

Lemma idx_lo7 (x : Z) : 0 <= Z.land x 0x7f < 128.
Proof. apply (slice_mask x 7). lia. Qed.

Lemma perm_lookup_ok (t : table) (w0 w1 : Z) :
  table_bounded 8 256 (2 ^ 32) t = true -> fits 32 w0 -> fits 32 w1 ->
  exists v, perm_lookup t w0 w1 = Some v /\ fits 32 v.
Proof.
  intros Ht H0 H1. unfold perm_lookup.
  destruct (or8_fits 256 32 t
              (Z.shiftr w0 24) (Z.land (Z.shiftr w0 16) 0xff)
              (Z.land (Z.shiftr w0 8) 0xff) (Z.land w0 0xff)
              (Z.shiftr w1 24) (Z.land (Z.shiftr w1 16) 0xff)
              (Z.land (Z.shiftr w1 8) 0xff) (Z.land w1 0xff))
    as (v & E & F & _);
    try assumption; try lia; try apply idx_lo8; try (apply idx_hi8; assumption).
  exists v. split; assumption.
Qed.

Lemma key_perm_lookup_ok (t : table) (rawkey0 rawkey1 : Z) :
  table_bounded 8 128 (2 ^ 28) t = true -> fits 32 rawkey0 -> fits 32 rawkey1 ->
  exists v, key_perm_lookup t rawkey0 rawkey1 = Some v /\ fits 28 v.
Proof.
  intros Ht H0 H1. unfold key_perm_lookup.
  destruct (or8_fits 128 28 t
              (Z.shiftr rawkey0 25) (Z.land (Z.shiftr rawkey0 17) 0x7f)
              (Z.land (Z.shiftr rawkey0 9) 0x7f) (Z.land (Z.shiftr rawkey0 1) 0x7f)
              (Z.shiftr rawkey1 25) (Z.land (Z.shiftr rawkey1 17) 0x7f)
              (Z.land (Z.shiftr rawkey1 9) 0x7f) (Z.land (Z.shiftr rawkey1 1) 0x7f))
    as (v & E & F & _);
    try assumption; try lia; try apply idx_lo7; try (apply idx_hi7; assumption).
  exists v. split; assumption.
Qed.

Lemma comp_lookup_ok (t : table) (t0 t1 : Z) :
  table_bounded 8 128 (2 ^ 24) t = true ->
  exists v, comp_lookup t t0 t1 = Some v /\ fits 24 v.
Proof.
  intros Ht. unfold comp_lookup.
  destruct (or8_fits 128 24 t
              (Z.land (Z.shiftr t0 21) 0x7f) (Z.land (Z.shiftr t0 14) 0x7f)
              (Z.land (Z.shiftr t0 7) 0x7f) (Z.land t0 0x7f)
              (Z.land (Z.shiftr t1 21) 0x7f) (Z.land (Z.shiftr t1 14) 0x7f)
              (Z.land (Z.shiftr t1 7) 0x7f) (Z.land t1 0x7f))
    as (v & E & F & _);
    try assumption; try lia; try apply idx_lo7.
  exists v. split; assumption.
Qed.

Lemma unpack_block_ok (b : list Z) :
  is_block b ->
  exists w0 w1, unpack_block b = Some (w0, w1) /\ fits 32 w0 /\ fits 32 w1.
Proof.
  intros Hb.
  destruct (is_block_inv b Hb)
    as (b0 & b1 & b2 & b3 & b4 & b5 & b6 & b7 & -> & _).
  rewrite unpack_block_bytes. do 2 eexists. split; [reflexivity|].
  split; apply fits_wrap32.
Qed.

(** ** The context before [des_set_key]

    [ctx] is an automatic variable without initialiser. Whatever it holds
    when [des_set_key] is entered, the sixteen subkey pairs it holds
    afterwards are the same: every cell is written, none is read. *)

Lemma for_loop_both {St : Type} (R : Z -> St -> St -> Prop)
    (body : Z -> St -> option St) :
  forall (n : nat) (i : Z) (s1 s2 : St),
    R i s1 s2 ->
    (forall j t1 t2, i <= j < i + Z.of_nat n -> R j t1 t2 ->
       both (R (j + 1)) (body j t1) (body j t2)) ->
    both (R (i + Z.of_nat n)) (for_loop n i body s1) (for_loop n i body s2).
Proof.
  induction n as [|n IH]; intros i s1 s2 H0 Hstep.
  - cbn [for_loop both]. rewrite Z.add_0_r. exact H0.
  - cbn [for_loop]. pose proof (Hstep i s1 s2 ltac:(lia) H0) as Hb.
    destruct (body i s1) as [t1|], (body i s2) as [t2|]; cbn [bind both] in *;
      try contradiction; [|exact I].
    replace (i + Z.of_nat (S n)) with (i + 1 + Z.of_nat n) by lia.
    apply IH; [exact Hb|]. intros j u1 u2 Hj. apply Hstep. lia.
Qed.

Lemma rd_ext {A : Type} (a b : list A) :
  length a = length b ->
  (forall j, 0 <= j < Z.of_nat (length a) -> rd a j = rd b j) -> a = b.
Proof.
  intros L H. apply nth_error_ext. intros n.
  destruct (Nat.lt_ge_cases n (length a)) as [Hn|Hn].
  - specialize (H (Z.of_nat n) ltac:(lia)). unfold rd in H.
    destruct (Z.ltb_spec (Z.of_nat n) 0); [lia|].
    rewrite Nat2Z.id in H. exact H.
  - rewrite (proj2 (nth_error_None a n)) by lia.
    rewrite (proj2 (nth_error_None b n)) by lia. reflexivity.
Qed.

Lemma key_round_rel (g : des_globals) (k0 k1 round : Z) (s1 s2 : Z * des_ctx_t) :
  0 <= round < 16 -> key_rel round s1 s2 ->
  both (key_rel (round + 1)) (key_round g k0 k1 round s1)
       (key_round g k0 k1 round s2).
Proof.
  intros Hr. destruct s1 as [sh1 c1], s2 as [sh2 c2].
  intros (Hsh & L1l & L1r & L2l & L2r & Hl & Hrr). cbn [fst snd] in *. subst sh2.
  unfold key_round.
  destruct (rd key_shifts round) as [ks|]; [|exact I]. cbn [bind].
  set (t0 := Z.lor (shl32 k0 (sh1 + ks)) (Z.shiftr k0 (28 - (sh1 + ks)))).
  set (t1 := Z.lor (shl32 k1 (sh1 + ks)) (Z.shiftr k1 (28 - (sh1 + ks)))).
  destruct (comp_lookup (comp_maskl g) t0 t1) as [kl|]; [|exact I]. cbn [bind].
  destruct (wr_spec (en_keysl c1) round kl) as (e1 & -> & Le1 & Re1 & Oe1); [lia|].
  destruct (wr_spec (en_keysl c2) round kl) as (e2 & -> & Le2 & Re2 & Oe2); [lia|].
  cbn [bind saltbits en_keysl en_keysr].
  destruct (comp_lookup (comp_maskr g) t0 t1) as [kr|]; [|exact I]. cbn [bind].
  destruct (wr_spec (en_keysr c1) round kr) as (f1 & -> & Lf1 & Rf1 & Of1); [lia|].
  destruct (wr_spec (en_keysr c2) round kr) as (f2 & -> & Lf2 & Rf2 & Of2); [lia|].
  cbn [bind both]. unfold key_rel. cbn [fst snd en_keysl en_keysr].
  split; [reflexivity|]. repeat (split; [congruence|]). split.
  - intros j Hj. destruct (Z.eq_dec j round) as [->|Hne]; [congruence|].
    rewrite Oe1, Oe2 by lia. apply Hl. lia.
  - intros j Hj. destruct (Z.eq_dec j round) as [->|Hne]; [congruence|].
    rewrite Of1, Of2 by lia. apply Hrr. lia.
Qed.

Lemma key_rel_start (c1 c2 : des_ctx_t) :
  length (en_keysl c1) = 16%nat -> length (en_keysr c1) = 16%nat ->
  length (en_keysl c2) = 16%nat -> length (en_keysr c2) = 16%nat ->
  key_rel 0 (0, c1) (0, c2).
Proof.
  intros L1l L1r L2l L2r. unfold key_rel. cbn [fst snd].
  split; [reflexivity|]. repeat (split; [assumption|]).
  split; intros j Hj; exfalso; lia.
Qed.

Lemma des_set_key_ctx_unread (g : des_globals) (c1 c2 : des_ctx_t) (key : list Z) :
  length (en_keysl c1) = 16%nat -> length (en_keysr c1) = 16%nat ->
  length (en_keysl c2) = 16%nat -> length (en_keysr c2) = 16%nat ->
  both (fun r1 r2 =>
          fst (fst r1) = fst (fst r2) /\ snd r1 = snd r2 /\
          en_keysl (snd (fst r1)) = en_keysl (snd (fst r2)) /\
          en_keysr (snd (fst r1)) = en_keysr (snd (fst r2)))
       (des_set_key g c1 key) (des_set_key g c2 key).
Proof.
  intros L1l L1r L2l L2r. unfold des_set_key.
  destruct (des_init_tables g) as [g1|]; [|exact I]. cbn [bind].
  destruct (unpack_block key) as [[r0 r1]|]; [|exact I]. cbn [bind].
  destruct (key_perm_lookup (key_perm_maskl g1) r0 r1) as [k0|]; [|exact I].
  cbn [bind].
  destruct (key_perm_lookup (key_perm_maskr g1) r0 r1) as [k1|]; [|exact I].
  cbn [bind].
  pose proof (for_loop_both key_rel (key_round g1 k0 k1) 16 0 (0, c1) (0, c2)) as H.
  destruct (for_loop 16 0 (key_round g1 k0 k1) (0, c1)) as [[sh1 d1]|],
           (for_loop 16 0 (key_round g1 k0 k1) (0, c2)) as [[sh2 d2]|];
    cbn [bind both fst snd] in *.
  - destruct H as (_ & M1l & M1r & M2l & M2r & Hl & Hr).
    + apply key_rel_start; assumption.
    + intros j t1 t2 Hj. apply key_round_rel. lia.
    + cbn [fst snd] in *. repeat (split; [reflexivity|]). split.
      * apply rd_ext; [congruence|]. intros j Hj. apply Hl. rewrite M1l in Hj.
        simpl in Hj |- *. lia.
      * apply rd_ext; [congruence|]. intros j Hj. apply Hr. rewrite M1r in Hj.
        simpl in Hj |- *. lia.
  - apply H.
    + apply key_rel_start; assumption.
    + intros j t1 t2 Hj. apply key_round_rel. lia.
  - apply H.
    + apply key_rel_start; assumption.
    + intros j t1 t2 Hj. apply key_round_rel. lia.
  - exact I.
Qed.

(** ** The engine over well-formed tables *)

Section Engine.

Variable g : des_globals.
Hypothesis Hwf : tables_wf g = true.

Lemma wf_parts :
  nonzero (des_initialised g) = true /\
  table_bounded 4 4096 (2 ^ 8) (m_sbox g) = true /\
  table_bounded 4 256 (2 ^ 32) (psbox g) = true /\
  table_bounded 8 256 (2 ^ 32) (ip_maskl g) = true /\
  table_bounded 8 256 (2 ^ 32) (ip_maskr g) = true /\
  table_bounded 8 256 (2 ^ 32) (fp_maskl g) = true /\
  table_bounded 8 256 (2 ^ 32) (fp_maskr g) = true /\
  table_bounded 8 128 (2 ^ 28) (key_perm_maskl g) = true /\
  table_bounded 8 128 (2 ^ 28) (key_perm_maskr g) = true /\
  table_bounded 8 128 (2 ^ 24) (comp_maskl g) = true /\
  table_bounded 8 128 (2 ^ 24) (comp_maskr g) = true.
Proof.
  pose proof Hwf as H. unfold tables_wf in H.
  repeat (apply andb_prop in H; destruct H as [H ?]).
  repeat split; assumption.
Qed.

Lemma des_init_tables_again : des_init_tables g = Some g.
Proof.
  unfold des_init_tables. destruct wf_parts as (-> & _). reflexivity.
Qed.

(** *** Key scheduler *)

Lemma key_round_ok (k0 k1 sb round : Z) (s : Z * des_ctx_t) :
  0 <= round < 16 -> key_inv sb round s ->
  exists s', key_round g k0 k1 round s = Some s' /\ key_inv sb (round + 1) s'.
Proof.
  intros Hr Hs. destruct s as [shifts ctx].
  destruct Hs as (Hsb & Ll & Lr & Kl & Kr). cbn [snd] in *.
  destruct wf_parts as (_ & _ & _ & _ & _ & _ & _ & _ & _ & Hcl & Hcr).
  unfold key_round.
  destruct (rd_some key_shifts round) as (ks & -> & _); [simpl; lia|].
  cbn [bind].
  set (t0 := Z.lor (shl32 k0 (shifts + ks)) (Z.shiftr k0 (28 - (shifts + ks)))).
  set (t1 := Z.lor (shl32 k1 (shifts + ks)) (Z.shiftr k1 (28 - (shifts + ks)))).
  destruct (comp_lookup_ok _ t0 t1 Hcl) as (kl & -> & Fl).
  destruct (comp_lookup_ok _ t0 t1 Hcr) as (kr & -> & Fr).
  cbn [bind].
  destruct (wr_spec (en_keysl ctx) round kl) as (el & -> & Lel & Rel & Oel); [lia|].
  cbn [bind en_keysr saltbits en_keysl].
  destruct (wr_spec (en_keysr ctx) round kr) as (er & -> & Ler & Rer & Oer); [lia|].
  cbn [bind]. eexists. split; [reflexivity|].
  unfold key_inv. cbn [snd saltbits en_keysl en_keysr].
  repeat split; try congruence.
  - intros j Hj. destruct (Z.eq_dec j round) as [->|Hne].
    + exists kl. split; assumption.
    + rewrite Oel by lia. apply Kl. lia.
  - intros j Hj. destruct (Z.eq_dec j round) as [->|Hne].
    + exists kr. split; assumption.
    + rewrite Oer by lia. apply Kr. lia.
Qed.

Lemma des_set_key_ok (ctx : des_ctx_t) (key : list Z) :
  is_block key ->
  length (en_keysl ctx) = 16%nat -> length (en_keysr ctx) = 16%nat ->
  exists ctx',
    des_set_key g ctx key = Some (g, ctx', 0) /\
    saltbits ctx' = saltbits ctx /\
    length (en_keysl ctx') = 16%nat /\ length (en_keysr ctx') = 16%nat /\
    Forall (fits 24) (en_keysl ctx') /\ Forall (fits 24) (en_keysr ctx').
Proof.
  intros Hk Ll Lr. unfold des_set_key.
  rewrite des_init_tables_again. cbn [bind].
  destruct (unpack_block_ok key Hk) as (r0 & r1 & -> & F0 & F1). cbn [bind].
  destruct wf_parts as (_ & _ & _ & _ & _ & _ & _ & Hkl & Hkr & _).
  destruct (key_perm_lookup_ok _ r0 r1 Hkl F0 F1) as (k0 & -> & _).
  destruct (key_perm_lookup_ok _ r0 r1 Hkr F0 F1) as (k1 & -> & _).
  cbn [bind].
  destruct (for_loop_inv (key_inv (saltbits ctx)) (key_round g k0 k1) 16 0 (0, ctx))
    as ([sh ctx'] & -> & (Hsb & Ll' & Lr' & Kl & Kr)).
  - unfold key_inv. cbn [snd]. repeat split; try assumption; intros; lia.
  - intros j t Hj Ht. apply key_round_ok; [lia|assumption].
  - cbn [bind snd] in *. exists ctx'. split; [reflexivity|].
    repeat split; try assumption.
    + apply rd_all_Forall. rewrite Ll'. intros j Hj. apply Kl. simpl in Hj |- *. lia.
    + apply rd_all_Forall. rewrite Lr'. intros j Hj. apply Kr. simpl in Hj |- *. lia.
Qed.

(** *** Round engine *)

Lemma des_round_ok (ctx : des_ctx_t) (k l r f : Z) :
  ctx_ready ctx -> 0 <= k < 16 -> fits 32 l -> fits 32 r ->
  exists f', des_round g ctx k (l, r, f) = Some (r, f', f') /\ fits 32 f'.
Proof.
  intros (Hsb & Ll & Lr & Kl & Kr) Hk Fl Fr.
  destruct wf_parts as (_ & Hm & Hp & _).
  unfold des_round.
  destruct (rd_forall _ _ k Kl) as (kl & -> & Fkl); [lia|].
  destruct (rd_forall _ _ k Kr) as (kr & -> & Fkr); [lia|].
  cbn [bind].
  destruct (fits_salted_half (expand_l r) (expand_r r) (saltbits ctx) kl
              (fits_expand_l r) (fits_expand_r r) Fkl) as (_ & Il1 & Il2).
  destruct (fits_salted_half (expand_r r) (expand_l r) (saltbits ctx) kr
              (fits_expand_r r) (fits_expand_l r) Fkr) as (_ & Ir1 & Ir2).
  rewrite (Z.lxor_comm (expand_r r) (expand_l r)) in Ir1, Ir2.
  destruct (tab_rd_fits _ _ _ _ 0 _ Hm ltac:(lia) Il1) as (m0 & -> & [? ?]).
  cbn [bind].
  destruct (tab_rd_fits _ _ _ _ 0 m0 Hp ltac:(lia) ltac:(lia)) as (p0 & -> & F0).
  cbn [bind].
  destruct (tab_rd_fits _ _ _ _ 1 _ Hm ltac:(lia) Il2) as (m1 & -> & [? ?]).
  cbn [bind].
  destruct (tab_rd_fits _ _ _ _ 1 m1 Hp ltac:(lia) ltac:(lia)) as (p1 & -> & F1).
  cbn [bind].
  destruct (tab_rd_fits _ _ _ _ 2 _ Hm ltac:(lia) Ir1) as (m2 & -> & [? ?]).
  cbn [bind].
  destruct (tab_rd_fits _ _ _ _ 2 m2 Hp ltac:(lia) ltac:(lia)) as (p2 & -> & F2).
  cbn [bind].
  destruct (tab_rd_fits _ _ _ _ 3 _ Hm ltac:(lia) Ir2) as (m3 & -> & [? ?]).
  cbn [bind].
  destruct (tab_rd_fits _ _ _ _ 3 m3 Hp ltac:(lia) ltac:(lia)) as (p3 & -> & F3).
  cbn [bind].
  eexists. split; [reflexivity|].
  apply fits_lxor; [lia| |assumption]. repeat apply fits_lor; try lia; assumption.
Qed.

Lemma des_pass_ok (ctx : des_ctx_t) (l r f : Z) :
  ctx_ready ctx -> fits 32 l -> fits 32 r ->
  exists l' r',
    des_pass g ctx (l, r, f) = Some (l', r', l') /\ fits 32 l' /\ fits 32 r'.
Proof.
  intros Hctx Fl Fr. unfold des_pass.
  destruct (for_loop_inv round_inv (des_round g ctx) 16 0 (l, r, f))
    as ([[l1 r1] f1] & -> & (F1 & F2 & Hf)).
  - cbn. split; [assumption|]. split; [assumption|lia].
  - intros j [[a b] c] Hj (Fa & Fb & _).
    destruct (des_round_ok ctx j a b c Hctx ltac:(lia) Fa Fb) as (f' & -> & Ff).
    eexists. split; [reflexivity|]. cbn. split; [assumption|]. split; [assumption|reflexivity].
  - cbn [bind]. rewrite Hf by lia. exists r1, l1. split; [reflexivity|]. split; assumption.
Qed.

(** The incoming [f] is dead: the first round overwrites it unread. *)
Lemma des_round_f_dead (ctx : des_ctx_t) (k l r f f' : Z) :
  des_round g ctx k (l, r, f) = des_round g ctx k (l, r, f').
Proof. reflexivity. Qed.

Lemma des_pass_f_dead (ctx : des_ctx_t) (l r f f' : Z) :
  des_pass g ctx (l, r, f) = des_pass g ctx (l, r, f').
Proof.
  unfold des_pass. cbn [for_loop]. rewrite (des_round_f_dead ctx 0 l r f f').
  reflexivity.
Qed.

Lemma des_passes_ok (ctx : des_ctx_t) (n : nat) :
  ctx_ready ctx -> forall l r f, fits 32 l -> fits 32 r ->
  exists l' r' f',
    des_passes g ctx n (l, r, f) = Some (l', r', f') /\ fits 32 l' /\ fits 32 r'.
Proof.
  intros Hctx. induction n as [|n IH]; intros l r f Fl Fr.
  - exists l, r, f. split; [reflexivity|]. split; assumption.
  - destruct (des_pass_ok ctx l r f Hctx Fl Fr) as (l1 & r1 & E & F1 & F2).
    cbn [des_passes]. rewrite E. cbn [bind]. apply IH; assumption.
Qed.

Lemma do_des_error (ctx : des_ctx_t) (input output : list Z) (count : Z) :
  count <= 0 -> do_des g ctx input output count = Some (1, output).
Proof.
  intros Hc. unfold do_des.
  destruct (Z.eqb_spec count 0); [reflexivity|].
  destruct (Z.gtb_spec count 0); [lia|reflexivity].
Qed.

Lemma do_des_ok (ctx : des_ctx_t) (input output : list Z) (count : Z) :
  ctx_ready ctx -> is_block input -> length output = 8%nat -> 1 <= count ->
  exists lt rt,
    do_des g ctx input output count = Some (0, block_of_words lt rt) /\
    fits 32 lt /\ fits 32 rt.
Proof.
  intros Hctx Hin Hout Hc. unfold do_des.
  destruct (Z.eqb_spec count 0); [lia|].
  destruct (Z.gtb_spec count 0); [|lia].
  destruct wf_parts as (_ & _ & _ & Hipl & Hipr & Hfpl & Hfpr & _).
  destruct (unpack_block_ok input Hin) as (w0 & w1 & -> & F0 & F1). cbn [bind].
  destruct (perm_lookup_ok _ w0 w1 Hipl F0 F1) as (l & -> & Fl).
  destruct (perm_lookup_ok _ w0 w1 Hipr F0 F1) as (r & -> & Fr).
  cbn [bind].
  destruct (des_passes_ok ctx (Z.to_nat count) Hctx l r 0 Fl Fr)
    as (l' & r' & f' & -> & Fl' & Fr').
  cbn [bind].
  destruct (perm_lookup_ok _ l' r' Hfpl Fl' Fr') as (lt & -> & Flt).
  destruct (perm_lookup_ok _ l' r' Hfpr Fl' Fr') as (rt & -> & Frt).
  cbn [bind]. rewrite pack_block_length8 by assumption. cbn [bind].
  exists lt, rt. split; [reflexivity|]. split; assumption.
Qed.

(** *** Entry point *)

Lemma ctx_ready_after_key_and_salt (key : list Z) (salt : Z) :
  is_block key ->
  exists ctx,
    des_set_key g ctx_uninit key = Some (g, ctx, 0) /\
    ctx_ready (des_set_salt ctx salt).
Proof.
  intros Hk.
  destruct (des_set_key_ok ctx_uninit key Hk eq_refl eq_refl)
    as (ctx & E & _ & Ll & Lr & Kl & Kr).
  exists ctx. split; [assumption|].
  unfold ctx_ready. cbn [des_set_salt saltbits en_keysl en_keysr].
  split; [apply fits_salt_mask|]. repeat (split; [assumption|]). assumption.
Qed.

Lemma des_cipher_block_wf (key input output : list Z) (salt count : Z) :
  is_block key ->
  exists ctx,
    des_set_key g ctx_uninit key = Some (g, ctx, 0) /\
    ctx_ready (des_set_salt ctx (wrap32 salt)) /\
    des_cipher_block g key input output salt count
    = '(rc, output') <-
        do_des g (des_set_salt ctx (wrap32 salt)) input output count ;;
      Some (mk_outcome rc output' g).
Proof.
  intros Hk.
  destruct (ctx_ready_after_key_and_salt key (wrap32 salt) Hk) as (ctx & E & R).
  exists ctx. split; [assumption|]. split; [assumption|].
  unfold des_cipher_block. destruct wf_parts as (-> & _). cbn [bind].
  rewrite E. cbn [bind]. reflexivity.
Qed.

End Engine.

(** ** The tables the generator builds *)

Lemma des_init_tables_initial : des_init_tables initial_globals = Some des_tables.
Proof. vm_compute. reflexivity. Qed.

(** The generator writes every cell of every derived array: run again
    without its guard, over the tables it has built, it builds the same
    tables. *)
Lemma des_init_tables_body_rebuilds :
  des_init_tables_body des_tables = Some des_tables.
Proof. vm_compute. reflexivity. Qed.

Lemma des_tables_wf : tables_wf des_tables = true.
Proof. vm_compute. reflexivity. Qed.

Lemma reachable_inv (g : des_globals) :
  reachable g -> g = initial_globals \/ g = des_tables.
Proof.
  induction 1 as [|g g' _ IH E]; [left; reflexivity|right].
  destruct IH as [-> | ->].
  - rewrite des_init_tables_initial in E. congruence.
  - rewrite (des_init_tables_again des_tables des_tables_wf) in E. congruence.
Qed.

Lemma reachable_tables : reachable des_tables.
Proof. exact (reach_init _ _ reach_start des_init_tables_initial). Qed.

(** The guarded call at lines 590-591 leaves the generated tables. *)
Lemma entry_tables (g : des_globals) :
  reachable g ->
  (if nonzero (des_initialised g) then Some g else des_init_tables g)
  = Some des_tables.
Proof.
  intros H. destruct (reachable_inv g H) as [-> | ->].
  - replace (nonzero (des_initialised initial_globals)) with false by reflexivity.
    exact des_init_tables_initial.
  - destruct (wf_parts des_tables des_tables_wf) as (-> & _). reflexivity.
Qed.

Lemma des_cipher_block_reachable (g : des_globals) (key input output : list Z)
    (salt count : Z) :
  reachable g ->
  des_cipher_block g key input output salt count
  = des_cipher_block des_tables key input output salt count.
Proof.
  intros H. unfold des_cipher_block.
  rewrite (entry_tables g H), (entry_tables des_tables reachable_tables).
  reflexivity.
Qed.

(** What a call returns, for any count. *)
Lemma des_cipher_block_cases (g : des_globals) (key input output : list Z)
    (salt count : Z) :
  reachable g -> is_block key -> is_block input -> length output = 8%nat ->
  exists ctx,
    des_set_key des_tables ctx_uninit key = Some (des_tables, ctx, 0) /\
    ctx_ready (des_set_salt ctx (wrap32 salt)) /\
    ((count <= 0 /\
      des_cipher_block g key input output salt count
      = Some (mk_outcome 1 output des_tables))
     \/
     (1 <= count /\ exists lt rt,
      fits 32 lt /\ fits 32 rt /\
      do_des des_tables (des_set_salt ctx (wrap32 salt)) input output count
      = Some (0, block_of_words lt rt) /\
      des_cipher_block g key input output salt count
      = Some (mk_outcome 0 (block_of_words lt rt) des_tables))).
Proof.
  intros Hg Hk Hin Hout. rewrite (des_cipher_block_reachable g) by assumption.
  destruct (des_cipher_block_wf des_tables des_tables_wf key input output salt count Hk)
    as (ctx & Ekey & Hctx & ->).
  exists ctx. split; [assumption|]. split; [assumption|].
  destruct (Z_le_gt_dec count 0) as [Hc|Hc].
  - left. split; [assumption|].
    rewrite (do_des_error des_tables _ input output count Hc). reflexivity.
  - right. split; [lia|].
    destruct (do_des_ok des_tables des_tables_wf _ input output count
                Hctx Hin Hout ltac:(lia)) as (lt & rt & E & Flt & Frt).
    exists lt, rt. rewrite E. repeat (split; [assumption|]).
    split; reflexivity.
Qed.

(** C2: a call fails exactly when [count <= 0]. On failure the return
    value is 1 and the output buffer is what it was; on success the return
    value is 0 and all eight bytes of the output buffer have been replaced
    by the big-endian encoding of two 32-bit words. *)
Theorem des_cipher_block_error_iff_count_le_0 (g : des_globals)
    (key input output : list Z) (salt count : Z) :
  reachable g -> is_block key -> is_block input -> length output = 8%nat ->
  exists o,
    des_cipher_block g key input output salt count = Some o /\
    (count <= 0 -> rc o = 1 /\ out o = output) /\
    (1 <= count ->
       rc o = 0 /\
       exists lt rt, fits 32 lt /\ fits 32 rt /\ out o = block_of_words lt rt) /\
    (rc o <> 0 <-> count <= 0) /\
    (rc o <> 0 -> out o = output).
Proof.
  intros Hg Hk Hin Hout.
  destruct (des_cipher_block_cases g key input output salt count Hg Hk Hin Hout)
    as (ctx & _ & _ & [[Hc E] | [Hc (lt & rt & Flt & Frt & _ & E)]]);
    eexists; (split; [exact E|]); cbn [rc out].
  - split; [auto|]. split; [lia|]. split; [split; [auto|discriminate]|auto].
  - split; [lia|]. split; [intros _; split; [reflexivity|]; exists lt, rt; auto|].
    split; [split; [congruence|lia]|congruence].
Qed.

Lemma des_cipher_block_error_iff_count_le_0_witness :
  exists o,
    des_cipher_block initial_globals zero_block zero_block
      [1; 2; 3; 4; 5; 6; 7; 8] 0 (-1) = Some o /\
    (-1 <= 0 -> rc o = 1 /\ out o = [1; 2; 3; 4; 5; 6; 7; 8]) /\
    (1 <= -1 ->
       rc o = 0 /\
       exists lt rt, fits 32 lt /\ fits 32 rt /\ out o = block_of_words lt rt) /\
    (rc o <> 0 <-> -1 <= 0) /\
    (rc o <> 0 -> out o = [1; 2; 3; 4; 5; 6; 7; 8]).
Proof.
  apply (des_cipher_block_error_iff_count_le_0 initial_globals zero_block
           zero_block [1; 2; 3; 4; 5; 6; 7; 8] 0 (-1)).
  - apply reach_start.
  - reflexivity.
  - reflexivity.
  - reflexivity.
Defined.


(** ** The output buffer is written whole *)

Lemma do_des_output_indep (g : des_globals) (ctx : des_ctx_t)
    (input o1 o2 : list Z) (count : Z) :
  length o1 = 8%nat -> length o2 = 8%nat -> 1 <= count ->
  do_des g ctx input o1 count = do_des g ctx input o2 count.
Proof.
  intros L1 L2 Hc. unfold do_des.
  destruct (Z.eqb_spec count 0); [lia|].
  destruct (Z.gtb_spec count 0); [|lia].
  destruct (unpack_block input) as [[lt rt]|]; [|reflexivity]. cbn [bind].
  destruct (perm_lookup (ip_maskl g) lt rt); [|reflexivity]. cbn [bind].
  destruct (perm_lookup (ip_maskr g) lt rt); [|reflexivity]. cbn [bind].
  destruct (des_passes g ctx (Z.to_nat count) _) as [[[l r] f]|]; [|reflexivity].
  cbn [bind].
  destruct (perm_lookup (fp_maskl g) l r); [|reflexivity]. cbn [bind].
  destruct (perm_lookup (fp_maskr g) l r); [|reflexivity]. cbn [bind].
  rewrite !pack_block_length8 by assumption. reflexivity.
Qed.

Lemma des_cipher_block_output_indep (g : des_globals)
    (key input o1 o2 : list Z) (salt count : Z) :
  length o1 = 8%nat -> length o2 = 8%nat -> 1 <= count ->
  des_cipher_block g key input o1 salt count
  = des_cipher_block g key input o2 salt count.
Proof.
  intros L1 L2 Hc. unfold des_cipher_block.
  destruct (if nonzero (des_initialised g) then Some g else des_init_tables g)
    as [g1|]; [|reflexivity]. cbn [bind].
  destruct (des_set_key g1 ctx_uninit key) as [[[g2 ctx] z]|]; [|reflexivity].
  cbn [bind].
  rewrite (do_des_output_indep g2 _ input o1 o2 count L1 L2 Hc). reflexivity.
Qed.

(** ** Known vector *)

Lemma known_vector_run :
  out_of (des_cipher_block des_tables zero_block zero_block zero_block 0 1)
  = Some (0, [0x8C; 0xA6; 0x4D; 0xE9; 0xC1; 0xB1; 0x23; 0xA7]).
Proof. vm_compute. reflexivity. Qed.

(** Two further runs of the embedding against published values: the
    classical vector for key 01 23 45 67 89 AB CD EF, and the 25-fold
    salted encryption of the zero block under the key and salt that
    crypt(3) derives from "password" and "ab", whose encoding is the
    hash "abJnggxhB/yWI". *)
Example des_single_block_vector :
  out_of (des_cipher_block des_tables
            [0x01; 0x23; 0x45; 0x67; 0x89; 0xAB; 0xCD; 0xEF]
            [0x01; 0x23; 0x45; 0x67; 0x89; 0xAB; 0xCD; 0xE7] zero_block 0 1)
  = Some (0, [0xC9; 0x57; 0x44; 0x25; 0x6A; 0x5E; 0xD3; 0x1D]).
Proof. vm_compute. reflexivity. Qed.

Example des_crypt_vector :
  out_of (des_cipher_block des_tables
            [224; 194; 230; 230; 238; 222; 228; 200]
            zero_block zero_block 2534 25)
  = Some (0, [87; 59; 44; 246; 211; 65; 250; 37]).
Proof. vm_compute. reflexivity. Qed.

(** C1: with an all-zero key, an all-zero input block, salt 0 and count 1,
    the call succeeds and the output buffer holds
    8C A6 4D E9 C1 B1 23 A7, whatever it held before and whether or not
    the tables had been generated already. *)
Theorem des_cipher_block_known_vector (g : des_globals) (output : list Z) :
  reachable g -> length output = 8%nat ->
  exists o,
    des_cipher_block g zero_block zero_block output 0 1 = Some o /\
    rc o = 0 /\
    out o = [0x8C; 0xA6; 0x4D; 0xE9; 0xC1; 0xB1; 0x23; 0xA7].
Proof.
  intros Hg Hout.
  rewrite (des_cipher_block_reachable g) by assumption.
  rewrite (des_cipher_block_output_indep des_tables zero_block zero_block
             output zero_block 0 1 Hout eq_refl) by lia.
  pose proof known_vector_run as H.
  destruct (des_cipher_block des_tables zero_block zero_block zero_block 0 1)
    as [o|]; [|discriminate H].
  exists o. cbn [out_of] in H. split; [reflexivity|].
  split; congruence.
Qed.

Lemma des_cipher_block_known_vector_witness :
  exists o,
    des_cipher_block initial_globals zero_block zero_block
      [255; 255; 255; 255; 255; 255; 255; 255] 0 1 = Some o /\
    rc o = 0 /\
    out o = [0x8C; 0xA6; 0x4D; 0xE9; 0xC1; 0xB1; 0x23; 0xA7].
Proof.
  apply (des_cipher_block_known_vector initial_globals
           [255; 255; 255; 255; 255; 255; 255; 255]).
  - apply reach_start.
  - reflexivity.
Defined.

(** ** Parity bits of the key *)

Lemma key_slices_of_be32 (b0 b1 b2 b3 : Z) :
  fits 8 b0 -> fits 8 b1 -> fits 8 b2 -> fits 8 b3 ->
  let w := be32 b0 b1 b2 b3 in
  Z.shiftr w 25 = Z.shiftr b0 1 /\
  Z.land (Z.shiftr w 17) 0x7f = Z.shiftr b1 1 /\
  Z.land (Z.shiftr w 9) 0x7f = Z.shiftr b2 1 /\
  Z.land (Z.shiftr w 1) 0x7f = Z.shiftr b3 1.
Proof.
  intros H0 H1 H2 H3 w. subst w. rewrite be32_value by assumption.
  change 0x7f with (2 ^ 7 - 1).
  rewrite !land_mask, !Z.shiftr_div_pow2 by lia.
  unfold fits in *.
  change (2 ^ 25) with 33554432. change (2 ^ 24) with 16777216.
  change (2 ^ 17) with 131072. change (2 ^ 16) with 65536.
  change (2 ^ 9) with 512. change (2 ^ 8) with 256 in *.
  change (2 ^ 7) with 128. change (2 ^ 1) with 2.
  repeat split; Z.div_mod_to_equations; lia.
Qed.

Lemma key_perm_lookup_parity (t : table) (b0 b1 b2 b3 b4 b5 b6 b7 : Z)
    (c0 c1 c2 c3 c4 c5 c6 c7 : Z) :
  fits 8 b0 -> fits 8 b1 -> fits 8 b2 -> fits 8 b3 ->
  fits 8 b4 -> fits 8 b5 -> fits 8 b6 -> fits 8 b7 ->
  fits 8 c0 -> fits 8 c1 -> fits 8 c2 -> fits 8 c3 ->
  fits 8 c4 -> fits 8 c5 -> fits 8 c6 -> fits 8 c7 ->
  Z.shiftr b0 1 = Z.shiftr c0 1 -> Z.shiftr b1 1 = Z.shiftr c1 1 ->
  Z.shiftr b2 1 = Z.shiftr c2 1 -> Z.shiftr b3 1 = Z.shiftr c3 1 ->
  Z.shiftr b4 1 = Z.shiftr c4 1 -> Z.shiftr b5 1 = Z.shiftr c5 1 ->
  Z.shiftr b6 1 = Z.shiftr c6 1 -> Z.shiftr b7 1 = Z.shiftr c7 1 ->
  key_perm_lookup t (be32 b0 b1 b2 b3) (be32 b4 b5 b6 b7)
  = key_perm_lookup t (be32 c0 c1 c2 c3) (be32 c4 c5 c6 c7).
Proof.
  intros B0 B1 B2 B3 B4 B5 B6 B7 C0 C1 C2 C3 C4 C5 C6 C7 E0 E1 E2 E3 E4 E5 E6 E7.
  unfold key_perm_lookup.
  destruct (key_slices_of_be32 b0 b1 b2 b3 B0 B1 B2 B3) as (-> & -> & -> & ->).
  destruct (key_slices_of_be32 b4 b5 b6 b7 B4 B5 B6 B7) as (-> & -> & -> & ->).
  destruct (key_slices_of_be32 c0 c1 c2 c3 C0 C1 C2 C3) as (-> & -> & -> & ->).
  destruct (key_slices_of_be32 c4 c5 c6 c7 C4 C5 C6 C7) as (-> & -> & -> & ->).
  rewrite E0, E1, E2, E3, E4, E5, E6, E7. reflexivity.
Qed.

Lemma des_set_key_parity (g : des_globals) (ctx : des_ctx_t) (key key' : list Z) :
  is_block key -> is_block key' -> same_key_bits key key' ->
  des_set_key g ctx key = des_set_key g ctx key'.
Proof.
  intros Hk Hk' Hs.
  destruct (is_block_inv key Hk)
    as (b0 & b1 & b2 & b3 & b4 & b5 & b6 & b7 & -> & B0 & B1 & B2 & B3 & B4 & B5 & B6 & B7).
  destruct (is_block_inv key' Hk')
    as (c0 & c1 & c2 & c3 & c4 & c5 & c6 & c7 & -> & C0 & C1 & C2 & C3 & C4 & C5 & C6 & C7).
  unfold same_key_bits in Hs.
  inversion Hs as [|? ? ? ? E0 Hs1]; subst; clear Hs.
  inversion Hs1 as [|? ? ? ? E1 Hs2]; subst; clear Hs1.
  inversion Hs2 as [|? ? ? ? E2 Hs3]; subst; clear Hs2.
  inversion Hs3 as [|? ? ? ? E3 Hs4]; subst; clear Hs3.
  inversion Hs4 as [|? ? ? ? E4 Hs5]; subst; clear Hs4.
  inversion Hs5 as [|? ? ? ? E5 Hs6]; subst; clear Hs5.
  inversion Hs6 as [|? ? ? ? E6 Hs7]; subst; clear Hs6.
  inversion Hs7 as [|? ? ? ? E7 Hs8]; subst; clear Hs7.
  unfold des_set_key.
  destruct (des_init_tables g) as [g1|]; [|reflexivity]. cbn [bind].
  rewrite !unpack_block_bytes. cbn [bind].
  rewrite (key_perm_lookup_parity (key_perm_maskl g1)
             b0 b1 b2 b3 b4 b5 b6 b7 c0 c1 c2 c3 c4 c5 c6 c7) by assumption.
  rewrite (key_perm_lookup_parity (key_perm_maskr g1)
             b0 b1 b2 b3 b4 b5 b6 b7 c0 c1 c2 c3 c4 c5 c6 c7) by assumption.
  reflexivity.
Qed.

(** C5: two keys that differ only in the least significant bit of some of
    their bytes give the same key schedule, and the same result of
    [des_cipher_block] for every input, output buffer, salt and count. *)
Theorem des_key_parity_bits_ignored (g : des_globals) (ctx : des_ctx_t)
    (key key' input output : list Z) (salt count : Z) :
  is_block key -> is_block key' -> same_key_bits key key' ->
  des_set_key g ctx key = des_set_key g ctx key' /\
  des_cipher_block g key input output salt count
  = des_cipher_block g key' input output salt count.
Proof.
  intros Hk Hk' Hs. split.
  - apply des_set_key_parity; assumption.
  - unfold des_cipher_block.
    destruct (if nonzero (des_initialised g) then Some g else des_init_tables g)
      as [g1|]; [|reflexivity]. cbn [bind].
    rewrite (des_set_key_parity g1 ctx_uninit key key' Hk Hk' Hs). reflexivity.
Qed.

Lemma des_key_parity_bits_ignored_witness :
  des_set_key initial_globals ctx_uninit [1; 35; 69; 103; 137; 171; 205; 239]
  = des_set_key initial_globals ctx_uninit [0; 34; 68; 102; 136; 170; 204; 238] /\
  des_cipher_block initial_globals [1; 35; 69; 103; 137; 171; 205; 239]
    zero_block zero_block 5 3
  = des_cipher_block initial_globals [0; 34; 68; 102; 136; 170; 204; 238]
    zero_block zero_block 5 3.
Proof.
  apply (des_key_parity_bits_ignored initial_globals ctx_uninit
           [1; 35; 69; 103; 137; 171; 205; 239]
           [0; 34; 68; 102; 136; 170; 204; 238] zero_block zero_block 5 3).
  - reflexivity.
  - reflexivity.
  - unfold same_key_bits. repeat constructor.
Defined.

(** ** Table generator *)

Lemma des_init_tables_body_flag (g g' : des_globals) :
  des_init_tables_body g = Some g' -> des_initialised g' = 1.
Proof.
  unfold des_init_tables_body. intros H.
  do 8 (apply bind_some in H; destruct H as (? & _ & H)).
  injection H as <-. reflexivity.
Qed.

Lemma des_init_tables_fixed (g g' : des_globals) :
  des_init_tables g = Some g' -> des_init_tables g' = Some g'.
Proof.
  unfold des_init_tables at 1.
  destruct (nonzero (des_initialised g)) eqn:E; intros H.
  - injection H as <-. unfold des_init_tables. rewrite E. reflexivity.
  - apply des_init_tables_body_flag in H.
    unfold des_init_tables. rewrite H. reflexivity.
Qed.

(** C6: once [des_init_tables] has completed, every later call returns at
    the guard and leaves the globals, hence every derived table, exactly
    as the first call left them. *)
Theorem des_init_tables_idempotent (g g' : des_globals) (n : nat) :
  des_init_tables g = Some g' ->
  des_init_tables g' = Some g' /\
  Nat.iter n (fun o => bind o des_init_tables) (Some g') = Some g'.
Proof.
  intros H. pose proof (des_init_tables_fixed g g' H) as F.
  split; [exact F|].
  induction n as [|n IH]; [reflexivity|].
  rewrite Nat.iter_succ, IH. exact F.
Qed.

Lemma des_init_tables_idempotent_witness :
  des_init_tables des_tables = Some des_tables /\
  Nat.iter 3 (fun o => bind o des_init_tables) (Some des_tables)
  = Some des_tables.
Proof.
  apply (des_init_tables_idempotent initial_globals des_tables 3).
  exact des_init_tables_initial.
Defined.

(** ** Table indices *)

(** C7: for every count of 1 or more, key scheduling and the round engine
    complete without any table lookup out of range. The salt mask and all
    subkey halves are below 2^24; the expanded halves stay below 2^24
    through the XOR with the salt term and the subkey, so every [m_sbox]
    index is below 4096; [m_sbox] entries, hence [psbox] indices, are
    below 256, as are the byte slices that index the initial and final
    permutation masks; the slices that index the key and compression masks
    are below 128. *)
Theorem table_lookups_in_range (g : des_globals) (key input output : list Z)
    (salt count : Z) :
  reachable g -> is_block key -> is_block input -> length output = 8%nat ->
  1 <= count ->
  exists ctx,
    des_set_key des_tables ctx_uninit key = Some (des_tables, ctx, 0) /\
    Forall (fits 24) (en_keysl ctx) /\ Forall (fits 24) (en_keysr ctx) /\
    fits 24 (saltbits (des_set_salt ctx (wrap32 salt))) /\
    (forall r kl kr, In kl (en_keysl ctx) -> In kr (en_keysr ctx) ->
       let sb := saltbits (des_set_salt ctx (wrap32 salt)) in
       let f := Z.land (Z.lxor (expand_l r) (expand_r r)) sb in
       let r48l := Z.lxor (expand_l r) (Z.lxor f kl) in
       let r48r := Z.lxor (expand_r r) (Z.lxor f kr) in
       fits 24 (expand_l r) /\ fits 24 (expand_r r) /\
       fits 24 r48l /\ fits 24 r48r /\
       0 <= Z.shiftr r48l 12 < 4096 /\ 0 <= Z.land r48l 0xfff < 4096 /\
       0 <= Z.shiftr r48r 12 < 4096 /\ 0 <= Z.land r48r 0xfff < 4096) /\
    (forall b i, 0 <= b < 4 -> 0 <= i < 4096 ->
       exists m, tab_rd (m_sbox des_tables) b i = Some m /\ 0 <= m < 256) /\
    (forall w, fits 32 w ->
       0 <= Z.shiftr w 24 < 256 /\ 0 <= Z.land (Z.shiftr w 16) 0xff < 256 /\
       0 <= Z.land (Z.shiftr w 8) 0xff < 256 /\ 0 <= Z.land w 0xff < 256) /\
    (forall w, fits 32 w ->
       0 <= Z.shiftr w 25 < 128 /\ 0 <= Z.land (Z.shiftr w 17) 0x7f < 128 /\
       0 <= Z.land (Z.shiftr w 9) 0x7f < 128 /\
       0 <= Z.land (Z.shiftr w 1) 0x7f < 128) /\
    (forall t,
       0 <= Z.land (Z.shiftr t 21) 0x7f < 128 /\
       0 <= Z.land (Z.shiftr t 14) 0x7f < 128 /\
       0 <= Z.land (Z.shiftr t 7) 0x7f < 128 /\ 0 <= Z.land t 0x7f < 128) /\
    exists o, des_cipher_block g key input output salt count = Some o /\ rc o = 0.
Proof.
  intros Hg Hk Hin Hout Hc.
  destruct (des_cipher_block_cases g key input output salt count Hg Hk Hin Hout)
    as (ctx & Ekey & Hctx & [[Hc' _] | [_ (lt & rt & _ & _ & _ & E)]]); [lia|].
  exists ctx. split; [exact Ekey|].
  destruct Hctx as (Fsb & _ & _ & Kl & Kr).
  cbn [des_set_salt en_keysl en_keysr] in Kl, Kr.
  split; [exact Kl|]. split; [exact Kr|]. split; [exact Fsb|].
  split; [|split; [|split; [|split; [|split]]]].
  - intros r kl kr Hkl Hkr sb f r48l r48r.
    rewrite Forall_forall in Kl, Kr.
    destruct (fits_salted_half (expand_l r) (expand_r r) sb kl
                (fits_expand_l r) (fits_expand_r r) (Kl kl Hkl)) as (Fl & Il1 & Il2).
    destruct (fits_salted_half (expand_r r) (expand_l r) sb kr
                (fits_expand_r r) (fits_expand_l r) (Kr kr Hkr)) as (Fr & Ir1 & Ir2).
    rewrite (Z.lxor_comm (expand_r r) (expand_l r)) in Fr, Ir1, Ir2.
    split; [apply fits_expand_l|]. split; [apply fits_expand_r|].
    split; [exact Fl|]. split; [exact Fr|].
    split; [exact Il1|]. split; [exact Il2|]. split; [exact Ir1|exact Ir2].
  - intros b i Hb Hi.
    destruct (wf_parts des_tables des_tables_wf) as (_ & Hm & _).
    destruct (tab_rd_fits _ _ _ _ b i Hm Hb Hi) as (m & Em & Fm).
    exists m. split; [exact Em|exact Fm].
  - intros w Hw. split; [apply idx_hi8; exact Hw|]. repeat split; apply idx_lo8.
  - intros w Hw. split; [apply idx_hi7; exact Hw|]. repeat split; apply idx_lo7.
  - intros t. repeat split; apply idx_lo7.
  - eexists. split; [exact E|reflexivity].
Qed.

Lemma table_lookups_in_range_witness :
  exists ctx,
    des_set_key des_tables ctx_uninit [1; 35; 69; 103; 137; 171; 205; 239]
    = Some (des_tables, ctx, 0) /\
    Forall (fits 24) (en_keysl ctx) /\ Forall (fits 24) (en_keysr ctx) /\
    fits 24 (saltbits (des_set_salt ctx (wrap32 4660))) /\
    (forall r kl kr, In kl (en_keysl ctx) -> In kr (en_keysr ctx) ->
       let sb := saltbits (des_set_salt ctx (wrap32 4660)) in
       let f := Z.land (Z.lxor (expand_l r) (expand_r r)) sb in
       let r48l := Z.lxor (expand_l r) (Z.lxor f kl) in
       let r48r := Z.lxor (expand_r r) (Z.lxor f kr) in
       fits 24 (expand_l r) /\ fits 24 (expand_r r) /\
       fits 24 r48l /\ fits 24 r48r /\
       0 <= Z.shiftr r48l 12 < 4096 /\ 0 <= Z.land r48l 0xfff < 4096 /\
       0 <= Z.shiftr r48r 12 < 4096 /\ 0 <= Z.land r48r 0xfff < 4096) /\
    (forall b i, 0 <= b < 4 -> 0 <= i < 4096 ->
       exists m, tab_rd (m_sbox des_tables) b i = Some m /\ 0 <= m < 256) /\
    (forall w, fits 32 w ->
       0 <= Z.shiftr w 24 < 256 /\ 0 <= Z.land (Z.shiftr w 16) 0xff < 256 /\
       0 <= Z.land (Z.shiftr w 8) 0xff < 256 /\ 0 <= Z.land w 0xff < 256) /\
    (forall w, fits 32 w ->
       0 <= Z.shiftr w 25 < 128 /\ 0 <= Z.land (Z.shiftr w 17) 0x7f < 128 /\
       0 <= Z.land (Z.shiftr w 9) 0x7f < 128 /\
       0 <= Z.land (Z.shiftr w 1) 0x7f < 128) /\
    (forall t,
       0 <= Z.land (Z.shiftr t 21) 0x7f < 128 /\
       0 <= Z.land (Z.shiftr t 14) 0x7f < 128 /\
       0 <= Z.land (Z.shiftr t 7) 0x7f < 128 /\ 0 <= Z.land t 0x7f < 128) /\
    exists o,
      des_cipher_block initial_globals [1; 35; 69; 103; 137; 171; 205; 239]
        zero_block zero_block 4660 25 = Some o /\ rc o = 0.
Proof.
  apply (table_lookups_in_range initial_globals
           [1; 35; 69; 103; 137; 171; 205; 239] zero_block zero_block 4660 25).
  - apply reach_start.
  - reflexivity.
  - reflexivity.
  - reflexivity.
  - lia.
Defined.

(** ** Number of rounds *)

Lemma nonzero_pos (x : Z) : 0 < x -> nonzero x = true.
Proof. intros H. unfold nonzero. destruct (Z.eqb_spec x 0); [lia|reflexivity]. Qed.

(** The inner loop, entered with [round = n >= 0], runs its body [n] times
    and leaves [round = -1]; it computes what [for_loop] computes. *)
Lemma inner_loop_rounds (g : des_globals) (ctx : des_ctx_t) :
  forall (n fuel : nat) (s : Machine.regs) (l' r' f' : Z),
    Machine.round s = Z.of_nat n -> (n < fuel)%nat ->
    for_loop n (Machine.kl s) (des_round g ctx)
      (Machine.l s, Machine.r s, Machine.f s) = Some (l', r', f') ->
    Machine.inner_loop fuel g ctx s
    = Machine.Done
        (Machine.mk_regs (Machine.count s) (-1) l' r' f'
           (Machine.kl s + Z.of_nat n) (Machine.passes s)
           (Machine.rounds s + Z.of_nat n)).
Proof.
  induction n as [|n IH]; intros fuel s l' r' f' Hr Hf E.
  - destruct fuel as [|fuel]; [lia|]. cbn [Machine.inner_loop].
    rewrite Hr. cbn [for_loop] in E. injection E as <- <- <-.
    change (nonzero (Z.of_nat 0)) with false. cbv iota.
    f_equal. f_equal; change (Z.of_nat 0) with 0; lia.
  - destruct fuel as [|fuel]; [lia|]. cbn [Machine.inner_loop].
    rewrite nonzero_pos by lia.
    cbn [for_loop] in E.
    destruct (des_round g ctx (Machine.kl s) (Machine.l s, Machine.r s, Machine.f s))
      as [[[l1 r1] f1]|]; [|discriminate E].
    cbn [bind] in E.
    rewrite (IH fuel _ l' r' f'); cbn [Machine.round Machine.kl Machine.l
      Machine.r Machine.f Machine.count Machine.passes Machine.rounds];
      [|lia|lia|exact E].
    f_equal. f_equal; lia.
Qed.

(** The outer loop, entered with [count = n >= 0], runs its body [n] times,
    sixteen rounds each, and leaves [count = -1]; it computes what
    [des_passes] computes. *)
Lemma outer_loop_passes (g : des_globals) (ctx : des_ctx_t) :
  forall (n fuel : nat) (s : Machine.regs) (l' r' f' : Z),
    Machine.count s = Z.of_nat n -> (n + 17 <= fuel)%nat ->
    des_passes g ctx n (Machine.l s, Machine.r s, Machine.f s)
    = Some (l', r', f') ->
    exists s',
      Machine.outer_loop fuel g ctx s = Machine.Done s' /\
      Machine.count s' = -1 /\
      Machine.l s' = l' /\ Machine.r s' = r' /\ Machine.f s' = f' /\
      Machine.passes s' = Machine.passes s + Z.of_nat n /\
      Machine.rounds s' = Machine.rounds s + 16 * Z.of_nat n.
Proof.
  induction n as [|n IH]; intros fuel s l' r' f' Hc Hf E.
  - destruct fuel as [|fuel]; [lia|]. cbn [Machine.outer_loop].
    rewrite Hc. change (nonzero (Z.of_nat 0)) with false. cbv iota.
    cbn [des_passes] in E. injection E as <- <- <-.
    eexists. split; [reflexivity|].
    cbn [Machine.count Machine.l Machine.r Machine.f Machine.passes Machine.rounds].
    change (Z.of_nat 0) with 0. repeat split; lia.
  - destruct fuel as [|fuel]; [lia|]. cbn [Machine.outer_loop].
    rewrite nonzero_pos by lia.
    cbn [des_passes] in E. unfold des_pass in E.
    destruct (for_loop 16 0 (des_round g ctx)
                (Machine.l s, Machine.r s, Machine.f s))
      as [[[l1 r1] f1]|] eqn:E16; [|discriminate E].
    cbn [bind] in E.
    rewrite (inner_loop_rounds g ctx 16 fuel _ l1 r1 f1);
      cbn [Machine.round Machine.kl Machine.l Machine.r Machine.f
           Machine.count Machine.passes Machine.rounds];
      [|reflexivity|lia|exact E16].
    destruct (IH fuel
                (Machine.mk_regs (Machine.count s - 1) (-1) f1 l1 f1
                   (0 + Z.of_nat 16) (Machine.passes s + 1)
                   (Machine.rounds s + Z.of_nat 16)) l' r' f')
      as (s' & Es & Hcount & Hl & Hr & Hf' & Hp & Hrn);
      cbn [Machine.count Machine.l Machine.r Machine.f Machine.passes
           Machine.rounds]; [lia|lia|exact E|].
    exists s'. split; [exact Es|].
    cbn [Machine.passes Machine.rounds] in Hp, Hrn.
    repeat (split; [assumption|]). split; lia.
Qed.

(** C10: for every count of 1 or more [do_des] returns, with status 0.
    Run with its loops as they are written, on the counters [count] and
    [round], it terminates within [count + 17] units of fuel, enters the
    outer loop body exactly [count] times and the round body exactly
    [16 * count] times, then applies the final permutation, and returns
    what [do_des] returns. *)
Theorem do_des_runs_16_rounds_per_count (g : des_globals) (ctx : des_ctx_t)
    (input output : list Z) (count : Z) (fuel : nat) :
  tables_wf g = true -> ctx_ready ctx -> is_block input ->
  length output = 8%nat -> 1 <= count -> (Z.to_nat count + 17 <= fuel)%nat ->
  exists out',
    do_des g ctx input output count = Some (0, out') /\
    Machine.do_des fuel g ctx input output count
    = Machine.Done (0, out', count, 16 * count).
Proof.
  intros Hwf Hctx Hin Hout Hc Hfuel.
  unfold do_des, Machine.do_des.
  destruct (Z.eqb_spec count 0); [lia|].
  destruct (Z.gtb_spec count 0); [|lia].
  destruct (wf_parts g Hwf) as (_ & _ & _ & Hipl & Hipr & Hfpl & Hfpr & _).
  destruct (unpack_block_ok input Hin) as (w0 & w1 & -> & F0 & F1). cbn [bind].
  destruct (perm_lookup_ok _ w0 w1 Hipl F0 F1) as (l & -> & Fl).
  destruct (perm_lookup_ok _ w0 w1 Hipr F0 F1) as (r & -> & Fr).
  cbn [bind].
  destruct (des_passes_ok g Hwf ctx (Z.to_nat count) Hctx l r 0 Fl Fr)
    as (l' & r' & f' & E & Fl' & Fr').
  destruct (outer_loop_passes g ctx (Z.to_nat count) fuel
              (Machine.mk_regs count 0 l r 0 0 0 0) l' r' f')
    as (s' & -> & _ & Hl & Hr & _ & Hp & Hrn);
    cbn [Machine.count Machine.l Machine.r Machine.f]; [lia|lia|exact E|].
  rewrite E. cbn [bind]. rewrite Hl, Hr.
  destruct (perm_lookup_ok _ l' r' Hfpl Fl' Fr') as (lt & -> & Flt).
  destruct (perm_lookup_ok _ l' r' Hfpr Fl' Fr') as (rt & -> & Frt).
  cbn [bind]. rewrite pack_block_length8 by assumption.
  exists (block_of_words lt rt). split; [reflexivity|].
  cbn [Machine.passes Machine.rounds] in Hp, Hrn.
  rewrite Hp, Hrn. f_equal. f_equal; [f_equal|]; lia.
Qed.

Lemma ctx_uninit_ready : ctx_ready ctx_uninit.
Proof.
  unfold ctx_ready, ctx_uninit, zeros. cbn [saltbits en_keysl en_keysr repeat].
  assert (F : fits 24 0) by (unfold fits; lia).
  split; [exact F|]. split; [reflexivity|]. split; [reflexivity|].
  split; repeat (apply Forall_cons; [exact F|]); apply Forall_nil.
Qed.

Lemma do_des_runs_16_rounds_per_count_witness :
  exists out',
    do_des des_tables ctx_uninit zero_block zero_block 25 = Some (0, out') /\
    Machine.do_des 42 des_tables ctx_uninit zero_block zero_block 25
    = Machine.Done (0, out', 25, 16 * 25).
Proof.
  apply (do_des_runs_16_rounds_per_count des_tables ctx_uninit zero_block
           zero_block 25 42).
  - exact des_tables_wf.
  - exact ctx_uninit_ready.
  - reflexivity.
  - reflexivity.
  - lia.
  - vm_compute. lia.
Defined.

(** ** The permutations behind the OR-mask tables *)

Lemma testbit_bits_of_list (l : list bool) :
  forall p, 0 <= p -> Z.testbit (bits_of_list l) p = nth (Z.to_nat p) l false.
Proof.
  induction l as [|b t IH]; intros p Hp.
  - cbn [bits_of_list]. rewrite Z.bits_0. destruct (Z.to_nat p); reflexivity.
  - cbn [bits_of_list]. destruct (Z.eq_dec p 0) as [->|Hne].
    + rewrite Z.testbit_0_r. reflexivity.
    + replace p with (Z.succ (p - 1)) at 1 by lia.
      rewrite Z.testbit_succ_r by lia. rewrite IH by lia.
      replace (Z.to_nat p) with (S (Z.to_nat (p - 1))) by lia. reflexivity.
Qed.

Lemma nth_count_up (n : nat) :
  forall i m, (m < n)%nat -> nth m (count_up n i) 0 = i + Z.of_nat m.
Proof.
  induction n as [|n IH]; intros i m Hm; [lia|].
  cbn [count_up]. destruct m as [|m]; [cbn [nth]; lia|].
  cbn [nth]. rewrite IH by lia. lia.
Qed.

Lemma length_count_up (n : nat) : forall i, length (count_up n i) = n.
Proof. induction n as [|n IH]; intros i; cbn [count_up length]; auto. Qed.

Lemma nth_map_range {A : Type} (h : Z -> A) (d : A) (n : nat) (p : Z) :
  0 <= p < Z.of_nat n -> nth (Z.to_nat p) (map h (range n)) d = h p.
Proof.
  intros Hp. unfold range.
  rewrite (nth_indep _ d (h 0)) by (rewrite length_map, length_count_up; lia).
  rewrite map_nth, nth_count_up by lia. f_equal. lia.
Qed.

(** What [perm_table_ok] says of one cell and one output bit. *)
Lemma perm_table_cell (t : table) (inv : list Z) (half k v p : Z) :
  perm_table_ok t inv half = true ->
  0 <= k < 8 -> 0 <= v < 256 -> 0 <= p < 32 ->
  let s := src_bit inv half p in
  0 <= s < 64 /\
  Z.testbit (cell t k v) p = (s / 8 =? k) && Z.testbit v (7 - s mod 8).
Proof.
  intros H Hk Hv Hp s. unfold perm_table_ok in H. cbv zeta in H.
  apply andb_prop in H. destruct H as [Hs Hc].
  split.
  - rewrite forallb_forall in Hs.
    assert (Hin : In s (map (fun x => src_bit inv half x) (range 32))).
    { apply in_map_iff. exists p. split; [reflexivity|]. apply (in_range 32). lia. }
    specialize (Hs s Hin). apply andb_prop in Hs. destruct Hs as [H0 H1].
    apply Z.leb_le in H0. apply Z.ltb_lt in H1. lia.
  - rewrite forallb_forall in Hc.
    specialize (Hc k (in_range 8 k ltac:(lia))).
    rewrite forallb_forall in Hc.
    specialize (Hc v (in_range 256 v ltac:(lia))).
    apply Z.eqb_eq in Hc. rewrite Hc.
    rewrite testbit_bits_of_list by lia.
    rewrite !map_map, nth_map_range by lia. reflexivity.
Qed.

Lemma slice_bit_top (w j : Z) :
  0 <= j -> Z.testbit (Z.shiftr w 24) j = Z.testbit w (j + 24).
Proof. intros Hj. apply Z.shiftr_spec. exact Hj. Qed.

Lemma slice_bit (w sh j : Z) :
  0 <= j < 8 -> Z.testbit (Z.land (Z.shiftr w sh) 0xff) j = Z.testbit w (j + sh).
Proof.
  intros Hj. rewrite Z.land_spec, Z.shiftr_spec by lia.
  change 0xff with (Z.ones 8). rewrite Z.ones_spec_low by lia.
  apply andb_true_r.
Qed.

Lemma slice_bit_low (w j : Z) :
  0 <= j < 8 -> Z.testbit (Z.land w 0xff) j = Z.testbit w j.
Proof.
  intros Hj. rewrite Z.land_spec.
  change 0xff with (Z.ones 8). rewrite Z.ones_spec_low by lia.
  apply andb_true_r.
Qed.

(** A lookup through a table that passes [perm_table_ok] moves bits: bit
    [p] of the result is the input bit [src_bit inv half p]. *)
Lemma perm_lookup_bits (t : table) (inv : list Z) (half w0 w1 : Z) :
  perm_table_ok t inv half = true ->
  table_bounded 8 256 (2 ^ 32) t = true ->
  fits 32 w0 -> fits 32 w1 ->
  exists v,
    perm_lookup t w0 w1 = Some v /\ fits 32 v /\
    forall p, 0 <= p < 32 ->
      Z.testbit v p = block_bit w0 w1 (src_bit inv half p).
Proof.
  intros Hp Ht F0 F1. unfold perm_lookup.
  pose proof (idx_hi8 w0 F0) as I0. pose proof (idx_lo8 (Z.shiftr w0 16)) as I1.
  pose proof (idx_lo8 (Z.shiftr w0 8)) as I2. pose proof (idx_lo8 w0) as I3.
  pose proof (idx_hi8 w1 F1) as I4. pose proof (idx_lo8 (Z.shiftr w1 16)) as I5.
  pose proof (idx_lo8 (Z.shiftr w1 8)) as I6. pose proof (idx_lo8 w1) as I7.
  destruct (or8_fits 256 32 t _ _ _ _ _ _ _ _ ltac:(lia) Ht I0 I1 I2 I3 I4 I5 I6 I7)
    as (v & E & Fv & Ev).
  exists v. split; [exact E|]. split; [exact Fv|].
  intros p Hpr. rewrite Ev. rewrite !Z.lor_spec.
  destruct (perm_table_cell t inv half 0 _ p Hp ltac:(lia) I0 Hpr) as [Hs ->].
  destruct (perm_table_cell t inv half 1 _ p Hp ltac:(lia) I1 Hpr) as [_ ->].
  destruct (perm_table_cell t inv half 2 _ p Hp ltac:(lia) I2 Hpr) as [_ ->].
  destruct (perm_table_cell t inv half 3 _ p Hp ltac:(lia) I3 Hpr) as [_ ->].
  destruct (perm_table_cell t inv half 4 _ p Hp ltac:(lia) I4 Hpr) as [_ ->].
  destruct (perm_table_cell t inv half 5 _ p Hp ltac:(lia) I5 Hpr) as [_ ->].
  destruct (perm_table_cell t inv half 6 _ p Hp ltac:(lia) I6 Hpr) as [_ ->].
  destruct (perm_table_cell t inv half 7 _ p Hp ltac:(lia) I7 Hpr) as [_ ->].
  set (s := src_bit inv half p) in *.
  assert (Hm : 0 <= s mod 8 < 8) by (apply Z.mod_pos_bound; lia).
  assert (Hd : s = 8 * (s / 8) + s mod 8) by (apply Z.div_mod; lia).
  unfold block_bit.
  assert (Hk : s / 8 = 0 \/ s / 8 = 1 \/ s / 8 = 2 \/ s / 8 = 3 \/
               s / 8 = 4 \/ s / 8 = 5 \/ s / 8 = 6 \/ s / 8 = 7) by lia.
  destruct Hk as [K|[K|[K|[K|[K|[K|[K|K]]]]]]]; rewrite K in *;
    simpl (_ =? _); cbn [andb orb]; rewrite ?orb_false_r;
    (destruct (Z.ltb_spec s 32); [try lia|try lia]).
  - rewrite slice_bit_top by lia. f_equal. lia.
  - rewrite slice_bit by lia. f_equal. lia.
  - rewrite slice_bit by lia. f_equal. lia.
  - rewrite slice_bit_low by lia. f_equal. lia.
  - rewrite slice_bit_top by lia. f_equal. lia.
  - rewrite slice_bit by lia. f_equal. lia.
  - rewrite slice_bit by lia. f_equal. lia.
  - rewrite slice_bit_low by lia. f_equal. lia.
Qed.

Lemma block_bit_left (l r p : Z) :
  0 <= p < 32 -> block_bit l r (31 - p) = Z.testbit l p.
Proof.
  intros Hp. unfold block_bit. destruct (Z.ltb_spec (31 - p) 32); [|lia].
  f_equal. lia.
Qed.

Lemma block_bit_right (l r p : Z) :
  0 <= p < 32 -> block_bit l r (63 - p) = Z.testbit r p.
Proof.
  intros Hp. unfold block_bit. destruct (Z.ltb_spec (63 - p) 32); [lia|].
  f_equal. lia.
Qed.

(** ** Count chaining *)

Section Chaining.

Variable g : des_globals.
Hypothesis Hwf : tables_wf g = true.
Hypothesis Hperms : perms_wf g = true.

Lemma perms_parts :
  perm_table_ok (ip_maskl g) (final_perm g) 0 = true /\
  perm_table_ok (ip_maskr g) (final_perm g) 1 = true /\
  perm_table_ok (fp_maskl g) (init_perm g) 0 = true /\
  perm_table_ok (fp_maskr g) (init_perm g) 1 = true /\
  ip_undoes_fp g = true.
Proof.
  pose proof Hperms as H. unfold perms_wf in H.
  do 4 (apply andb_prop in H; destruct H as [H ?]).
  repeat split; assumption.
Qed.

(** Bit [p] of either word of the initial permutation of the final
    permutation of [(l, r)] is bit [p] of [l], respectively of [r]. *)
Lemma ip_of_fp_bits (l r lt rt p : Z) :
  (forall q, 0 <= q < 32 ->
     Z.testbit lt q = block_bit l r (src_bit (init_perm g) 0 q)) ->
  (forall q, 0 <= q < 32 ->
     Z.testbit rt q = block_bit l r (src_bit (init_perm g) 1 q)) ->
  0 <= p < 32 ->
  block_bit lt rt (src_bit (final_perm g) 0 p) = Z.testbit l p /\
  block_bit lt rt (src_bit (final_perm g) 1 p) = Z.testbit r p.
Proof.
  intros Blt Brt Hp.
  destruct perms_parts as (Hipl & Hipr & _ & _ & Hinv).
  unfold ip_undoes_fp in Hinv. apply andb_prop in Hinv. destruct Hinv as [Hl Hr].
  rewrite forallb_forall in Hl, Hr.
  specialize (Hl p (in_range 32 p ltac:(lia))).
  specialize (Hr p (in_range 32 p ltac:(lia))).
  cbv zeta in Hl, Hr. apply Z.eqb_eq in Hl. apply Z.eqb_eq in Hr.
  destruct (perm_table_cell _ _ 0 0 0 p Hipl ltac:(lia) ltac:(lia) Hp) as [Rl _].
  destruct (perm_table_cell _ _ 1 0 0 p Hipr ltac:(lia) ltac:(lia) Hp) as [Rr _].
  cbv zeta in Rl, Rr.
  split.
  - set (b := src_bit (final_perm g) 0 p) in *. unfold block_bit at 1.
    destruct (Z.ltb_spec b 32).
    + rewrite Blt by lia. rewrite Hl. apply block_bit_left. exact Hp.
    + rewrite Brt by lia. rewrite Hl. apply block_bit_left. exact Hp.
  - set (b := src_bit (final_perm g) 1 p) in *. unfold block_bit at 1.
    destruct (Z.ltb_spec b 32).
    + rewrite Blt by lia. rewrite Hr. apply block_bit_right. exact Hp.
    + rewrite Brt by lia. rewrite Hr. apply block_bit_right. exact Hp.
Qed.

Lemma bits_eq_32 (a b : Z) :
  fits 32 a -> fits 32 b ->
  (forall p, 0 <= p < 32 -> Z.testbit a p = Z.testbit b p) -> a = b.
Proof.
  intros Fa Fb H. apply Z.bits_inj'. intros p Hp.
  destruct (Z_lt_le_dec p 32) as [Hlt|Hge]; [apply H; lia|].
  rewrite (fits_high 32 a), (fits_high 32 b) by assumption. reflexivity.
Qed.

(** The initial permutation undoes the final permutation. *)
Lemma ip_after_fp (l r : Z) :
  fits 32 l -> fits 32 r ->
  exists lt rt,
    perm_lookup (fp_maskl g) l r = Some lt /\
    perm_lookup (fp_maskr g) l r = Some rt /\
    fits 32 lt /\ fits 32 rt /\
    perm_lookup (ip_maskl g) lt rt = Some l /\
    perm_lookup (ip_maskr g) lt rt = Some r.
Proof.
  intros Fl Fr.
  destruct (wf_parts g Hwf) as (_ & _ & _ & Tipl & Tipr & Tfpl & Tfpr & _).
  destruct perms_parts as (Hipl & Hipr & Hfpl & Hfpr & _).
  destruct (perm_lookup_bits _ _ 0 l r Hfpl Tfpl Fl Fr) as (lt & Elt & Flt & Blt).
  destruct (perm_lookup_bits _ _ 1 l r Hfpr Tfpr Fl Fr) as (rt & Ert & Frt & Brt).
  destruct (perm_lookup_bits _ _ 0 lt rt Hipl Tipl Flt Frt) as (l2 & El2 & Fl2 & Bl2).
  destruct (perm_lookup_bits _ _ 1 lt rt Hipr Tipr Flt Frt) as (r2 & Er2 & Fr2 & Br2).
  exists lt, rt. repeat (split; [assumption|]).
  assert (l2 = l) as <-.
  { apply bits_eq_32; [assumption..|]. intros p Hp. rewrite Bl2 by assumption.
    apply (ip_of_fp_bits l r lt rt p Blt Brt Hp). }
  assert (r2 = r) as <-.
  { apply bits_eq_32; [assumption..|]. intros p Hp. rewrite Br2 by assumption.
    apply (ip_of_fp_bits l2 r lt rt p Blt Brt Hp). }
  split; assumption.
Qed.

Lemma is_block_block_of_words (lt rt : Z) : is_block (block_of_words lt rt).
Proof.
  unfold is_block, block_of_words. cbn [length Nat.eqb forallb andb].
  assert (B : forall x, byteb (wrap8 x) = true).
  { intros x. pose proof (fits_wrap8 x) as [H0 H1]. unfold byteb.
    change (2 ^ 8) with 256 in H1.
    destruct (Z.leb_spec 0 (wrap8 x)), (Z.ltb_spec (wrap8 x) 256);
      try reflexivity; lia. }
  rewrite !B. reflexivity.
Qed.

(** Two runs of [do_des] with count 1, the second on the output of the
    first, give what one run with count 2 gives. *)
Lemma do_des_twice (ctx : des_ctx_t) (input output : list Z) :
  ctx_ready ctx -> is_block input -> length output = 8%nat ->
  exists b1 b2,
    do_des g ctx input output 1 = Some (0, b1) /\ is_block b1 /\
    do_des g ctx b1 b1 1 = Some (0, b2) /\
    do_des g ctx input output 2 = Some (0, b2).
Proof.
  intros Hctx Hin Hout.
  destruct (wf_parts g Hwf) as (_ & _ & _ & Tipl & Tipr & Tfpl & Tfpr & _).
  destruct (unpack_block_ok input Hin) as (w0 & w1 & Ew & F0 & F1).
  destruct (perm_lookup_ok _ w0 w1 Tipl F0 F1) as (l0 & El0 & Fl0).
  destruct (perm_lookup_ok _ w0 w1 Tipr F0 F1) as (r0 & Er0 & Fr0).
  destruct (des_pass_ok g Hwf ctx l0 r0 0 Hctx Fl0 Fr0) as (l1 & r1 & E1 & Fl1 & Fr1).
  destruct (ip_after_fp l1 r1 Fl1 Fr1) as (lt & rt & Elt & Ert & Flt & Frt & Eil & Eir).
  destruct (des_pass_ok g Hwf ctx l1 r1 0 Hctx Fl1 Fr1) as (l2 & r2 & E2 & Fl2 & Fr2).
  destruct (perm_lookup_ok _ l2 r2 Tfpl Fl2 Fr2) as (lt2 & Elt2 & Flt2).
  destruct (perm_lookup_ok _ l2 r2 Tfpr Fl2 Fr2) as (rt2 & Ert2 & Frt2).
  exists (block_of_words lt rt), (block_of_words lt2 rt2).
  pose proof (is_block_block_of_words lt rt) as Hb1.
  split; [|split; [exact Hb1|split]].
  - unfold do_des. change (1 =? 0) with false. change (1 >? 0) with true.
    cbv iota. rewrite Ew. cbn [bind]. rewrite El0, Er0. cbn [bind].
    change (Z.to_nat 1) with 1%nat. cbn [des_passes]. rewrite E1. cbn [bind].
    rewrite Elt, Ert. cbn [bind]. rewrite pack_block_length8 by assumption.
    reflexivity.
  - unfold do_des. change (1 =? 0) with false. change (1 >? 0) with true.
    cbv iota. rewrite (unpack_pack lt rt Flt Frt). cbn [bind].
    rewrite Eil, Eir. cbn [bind].
    change (Z.to_nat 1) with 1%nat. cbn [des_passes]. rewrite E2. cbn [bind].
    rewrite Elt2, Ert2. cbn [bind].
    rewrite pack_block_length8 by (apply is_block_length; exact Hb1).
    reflexivity.
  - unfold do_des. change (2 =? 0) with false. change (2 >? 0) with true.
    cbv iota. rewrite Ew. cbn [bind]. rewrite El0, Er0. cbn [bind].
    change (Z.to_nat 2) with 2%nat. cbn [des_passes]. rewrite E1. cbn [bind].
    rewrite (des_pass_f_dead g ctx l1 r1 l1 0), E2. cbn [bind].
    rewrite Elt2, Ert2. cbn [bind]. rewrite pack_block_length8 by assumption.
    reflexivity.
Qed.

End Chaining.

(** A run with count 2 is the chain of the specification, whatever the
    tables, the context and the buffers. *)
Lemma do_des_count_2_chain (g : des_globals) (ctx : des_ctx_t)
    (input output : list Z) :
  do_des g ctx input output 2
  = b <- spec_count_2 g ctx input output ;; Some (0, b).
Proof.
  unfold do_des, spec_count_2, initial_permutation, feistel_network,
    final_permutation.
  change (2 =? 0) with false. change (2 >? 0) with true. cbv iota.
  destruct (unpack_block input) as [[w0 w1]|]; [|reflexivity].
  cbn [bind fst snd].
  destruct (perm_lookup (ip_maskl g) w0 w1) as [l|]; [|reflexivity].
  cbn [bind].
  destruct (perm_lookup (ip_maskr g) w0 w1) as [r|]; [|reflexivity].
  cbn [bind fst snd].
  change (Z.to_nat 2) with 2%nat. cbn [des_passes].
  destruct (des_pass g ctx (l, r, 0)) as [[[l1 r1] f1]|]; [|reflexivity].
  cbn [bind fst snd].
  rewrite (des_pass_f_dead g ctx l1 r1 f1 0).
  destruct (des_pass g ctx (l1, r1, 0)) as [[[l2 r2] f2]|]; [|reflexivity].
  cbn [bind fst snd].
  destruct (perm_lookup (fp_maskl g) l2 r2) as [lt|]; [|reflexivity].
  cbn [bind].
  destruct (perm_lookup (fp_maskr g) l2 r2) as [rt|]; [|reflexivity].
  cbn [bind fst snd].
  destruct (pack_block output lt rt); reflexivity.
Qed.

Lemma des_tables_perms_wf : perms_wf des_tables = true.
Proof. vm_compute. reflexivity. Qed.

(** Count 2 against two calls with count 1, from the globals a process
    starts with and into a zeroed output buffer. *)
Lemma two_calls_give_count_2 (key input : list Z) (salt : Z) :
  is_block key -> is_block input ->
  exists o,
    des_cipher_block initial_globals key input zero_block salt 2 = Some o /\
    out_of (encrypt_block_twice initial_globals key input zero_block salt)
    = Some (rc o, out o).
Proof.
  intros Hk Hin.
  destruct (des_cipher_block_wf des_tables des_tables_wf key input zero_block salt 2 Hk)
    as (ctx & Ekey & Hctx & E2).
  destruct (do_des_twice des_tables des_tables_wf des_tables_perms_wf
              (des_set_salt ctx (wrap32 salt)) input zero_block Hctx Hin eq_refl)
    as (b1 & b2 & D1 & Hb1 & D1' & D2).
  eexists. split.
  - rewrite (des_cipher_block_reachable initial_globals) by apply reach_start.
    rewrite E2, D2. reflexivity.
  - cbn [rc out]. unfold encrypt_block_twice.
    rewrite (des_cipher_block_reachable initial_globals) by apply reach_start.
    destruct (des_cipher_block_wf des_tables des_tables_wf key input zero_block salt 1 Hk)
      as (ctx1 & Ekey1 & _ & ->).
    assert (ctx1 = ctx) as -> by congruence.
    rewrite D1. cbn [bind globals_end out].
    destruct (des_cipher_block_wf des_tables des_tables_wf key b1 b1 salt 1 Hk)
      as (ctx2 & Ekey2 & _ & ->).
    assert (ctx2 = ctx) as -> by congruence.
    rewrite D1'. reflexivity.
Qed.

(** C3, as the code has it: a call with count 2 is the chain of the
    specification (initial permutation once, the 16-round network twice
    with no permutation in between, final permutation once), and it gives
    the same bytes as two calls in a row with count 1, because the initial
    permutation at the start of the second call undoes the final
    permutation at the end of the first. *)
Theorem count_2_chains_and_equals_two_calls (g : des_globals)
    (key input output : list Z) (salt : Z) :
  reachable g -> is_block key -> is_block input -> length output = 8%nat ->
  exists ctx o,
    des_set_key des_tables ctx_uninit key = Some (des_tables, ctx, 0) /\
    des_cipher_block g key input output salt 2 = Some o /\ rc o = 0 /\
    spec_count_2 des_tables (des_set_salt ctx (wrap32 salt)) input output
    = Some (out o) /\
    out_of (encrypt_block_twice g key input output salt) = Some (0, out o).
Proof.
  intros Hg Hk Hin Hout.
  destruct (des_cipher_block_wf des_tables des_tables_wf key input output salt 2 Hk)
    as (ctx & Ekey & Hctx & E2).
  destruct (do_des_twice des_tables des_tables_wf des_tables_perms_wf
              (des_set_salt ctx (wrap32 salt)) input output Hctx Hin Hout)
    as (b1 & b2 & D1 & Hb1 & D1' & D2).
  exists ctx. eexists. split; [exact Ekey|].
  split; [|split; [|split]].
  - rewrite (des_cipher_block_reachable g) by assumption.
    rewrite E2, D2. reflexivity.
  - reflexivity.
  - cbn [out]. pose proof (do_des_count_2_chain des_tables
      (des_set_salt ctx (wrap32 salt)) input output) as C.
    rewrite D2 in C.
    destruct (spec_count_2 des_tables (des_set_salt ctx (wrap32 salt)) input output)
      as [b|]; [|discriminate C].
    cbn [bind] in C. congruence.
  - cbn [out]. unfold encrypt_block_twice.
    rewrite (des_cipher_block_reachable g) by assumption.
    destruct (des_cipher_block_wf des_tables des_tables_wf key input output salt 1 Hk)
      as (ctx1 & Ekey1 & _ & ->).
    assert (ctx1 = ctx) as -> by congruence.
    rewrite D1. cbn [bind globals_end out].
    destruct (des_cipher_block_wf des_tables des_tables_wf key b1 b1 salt 1 Hk)
      as (ctx2 & Ekey2 & _ & ->).
    assert (ctx2 = ctx) as -> by congruence.
    rewrite D1'. reflexivity.
Qed.

Lemma count_2_chains_and_equals_two_calls_witness :
  exists ctx o,
    des_set_key des_tables ctx_uninit [1; 35; 69; 103; 137; 171; 205; 239]
    = Some (des_tables, ctx, 0) /\
    des_cipher_block initial_globals [1; 35; 69; 103; 137; 171; 205; 239]
      [18; 52; 86; 120; 154; 188; 222; 240] zero_block 4660 2 = Some o /\
    rc o = 0 /\
    spec_count_2 des_tables (des_set_salt ctx (wrap32 4660))
      [18; 52; 86; 120; 154; 188; 222; 240] zero_block = Some (out o) /\
    out_of (encrypt_block_twice initial_globals
              [1; 35; 69; 103; 137; 171; 205; 239]
              [18; 52; 86; 120; 154; 188; 222; 240] zero_block 4660)
    = Some (0, out o).
Proof.
  apply (count_2_chains_and_equals_two_calls initial_globals
           [1; 35; 69; 103; 137; 171; 205; 239]
           [18; 52; 86; 120; 154; 188; 222; 240] zero_block 4660).
  - apply reach_start.
  - reflexivity.
  - reflexivity.
  - reflexivity.
Defined.

(** C3, as the specification words it, asks for a key, an input and a salt
    on which count 2 differs from two calls with count 1. There is none. *)
Lemma count_2_differs_from_two_calls_nowhere :
  ~ exists key input salt,
      is_block key /\ is_block input /\
      out_of (des_cipher_block initial_globals key input zero_block salt 2)
      <> out_of (encrypt_block_twice initial_globals key input zero_block salt).
Proof.
  intros (key & input & salt & Hk & Hin & Hne). apply Hne.
  destruct (two_calls_give_count_2 key input salt Hk Hin)
    as (o & -> & ->).
  reflexivity.
Qed.

(** * Further properties *)

(** ** Salt, buffers and globals at the entry point *)

Lemma salt_mask_low_24 (salt : Z) :
  salt_mask (wrap32 salt) = salt_mask (Z.land salt 0xFFFFFF).
Proof.
  destruct (salt_mask_bits (wrap32 salt)) as [_ Hw].
  destruct (salt_mask_bits (Z.land salt 0xFFFFFF)) as [_ Hl].
  apply Z.bits_inj'. intros j Hj. rewrite Hw, Hl by assumption.
  destruct (Z.leb_spec j 23); [|reflexivity]. cbn [andb].
  rewrite Z.land_spec. change 0xFFFFFF with (Z.ones 24).
  rewrite (Z.ones_spec_low 24 (23 - j)) by lia. rewrite andb_true_r.
  unfold wrap32. apply Z.mod_pow2_bits_low. lia.
Qed.

(** X1: the entry point uses only the low 24 bits of its [long] salt
    argument: two salts that agree on them, negative ones included, give
    the same outcome for every key, input, output buffer, count and state
    of the globals. *)
Theorem des_cipher_block_salt_low_24_bits (g : des_globals)
    (key input output : list Z) (salt salt' count : Z) :
  Z.land salt 0xFFFFFF = Z.land salt' 0xFFFFFF ->
  des_cipher_block g key input output salt count
  = des_cipher_block g key input output salt' count.
Proof.
  intros E. unfold des_cipher_block.
  destruct (if nonzero (des_initialised g) then Some g else des_init_tables g)
    as [g1|]; [|reflexivity]. cbn [bind].
  destruct (des_set_key g1 ctx_uninit key) as [[[g2 ctx] z]|]; [|reflexivity].
  cbn [bind]. unfold des_set_salt.
  rewrite (salt_mask_low_24 salt), (salt_mask_low_24 salt'), E. reflexivity.
Qed.

Lemma des_cipher_block_salt_low_24_bits_witness :
  des_cipher_block initial_globals [1; 35; 69; 103; 137; 171; 205; 239]
    zero_block zero_block (-1) 25
  = des_cipher_block initial_globals [1; 35; 69; 103; 137; 171; 205; 239]
    zero_block zero_block 0xFFFFFF 25.
Proof.
  apply (des_cipher_block_salt_low_24_bits initial_globals
           [1; 35; 69; 103; 137; 171; 205; 239] zero_block zero_block
           (-1) 0xFFFFFF 25).
  reflexivity.
Defined.


(** X3: a call leaves the one-time flag set and the generated tables in
    place, and the same call made again on the globals it leaves returns
    the same status, the same output bytes and the same globals: no state
    carries over from one call to the next. *)
Theorem des_cipher_block_repeatable (g : des_globals)
    (key input output : list Z) (salt count : Z) :
  reachable g -> is_block key -> is_block input -> length output = 8%nat ->
  exists o,
    des_cipher_block g key input output salt count = Some o /\
    des_initialised (globals_end o) <> 0 /\
    reachable (globals_end o) /\
    des_cipher_block (globals_end o) key input output salt count = Some o.
Proof.
  intros Hg Hk Hin Hout.
  assert (Hflag : des_initialised des_tables <> 0).
  { destruct (wf_parts des_tables des_tables_wf) as (Hn & _).
    unfold nonzero in Hn. destruct (Z.eqb_spec (des_initialised des_tables) 0);
      [discriminate Hn|assumption]. }
  destruct (des_cipher_block_cases g key input output salt count Hg Hk Hin Hout)
    as (ctx & _ & _ & [[Hc E] | [Hc (lt & rt & _ & _ & _ & E)]]);
    eexists; (split; [exact E|]); cbn [globals_end];
    (split; [exact Hflag|]); (split; [exact reachable_tables|]);
    rewrite <- E; symmetry; apply des_cipher_block_reachable; exact Hg.
Qed.

Lemma des_cipher_block_repeatable_witness :
  exists o,
    des_cipher_block initial_globals zero_block zero_block zero_block 0 25
    = Some o /\
    des_initialised (globals_end o) <> 0 /\
    reachable (globals_end o) /\
    des_cipher_block (globals_end o) zero_block zero_block zero_block 0 25
    = Some o.
Proof.
  apply (des_cipher_block_repeatable initial_globals zero_block zero_block
           zero_block 0 25).
  - apply reach_start.
  - reflexivity.
  - reflexivity.
  - reflexivity.
Defined.

(** ** The two context setters *)

Lemma for_loop_preserves {St : Type} (P : St -> Prop)
    (body : Z -> St -> option St) :
  (forall j t t', P t -> body j t = Some t' -> P t') ->
  forall (n : nat) (i : Z) (s s' : St),
    P s -> for_loop n i body s = Some s' -> P s'.
Proof.
  intros Hbody. induction n as [|n IH]; intros i s s' Hs E.
  - cbn [for_loop] in E. injection E as <-. exact Hs.
  - cbn [for_loop] in E. apply bind_some in E. destruct E as (t & Et & E).
    apply (IH (i + 1) t s'); [|exact E]. apply (Hbody i s t); assumption.
Qed.

Lemma key_round_saltbits (g : des_globals) (k0 k1 round : Z)
    (s s' : Z * des_ctx_t) :
  key_round g k0 k1 round s = Some s' -> saltbits (snd s') = saltbits (snd s).
Proof.
  destruct s as [shifts ctx]. unfold key_round. intros E.
  apply bind_some in E. destruct E as (ks & _ & E).
  apply bind_some in E. destruct E as (kl & _ & E).
  apply bind_some in E. destruct E as (el & _ & E).
  apply bind_some in E. destruct E as (kr & _ & E).
  apply bind_some in E. destruct E as (er & _ & E).
  injection E as <-. reflexivity.
Qed.

Lemma des_set_key_saltbits (g g' : des_globals) (ctx ctx' : des_ctx_t)
    (key : list Z) (z : Z) :
  des_set_key g ctx key = Some (g', ctx', z) -> saltbits ctx' = saltbits ctx.
Proof.
  unfold des_set_key. intros E.
  apply bind_some in E. destruct E as (g1 & _ & E).
  apply bind_some in E. destruct E as ([r0 r1] & _ & E).
  apply bind_some in E. destruct E as (k0 & _ & E).
  apply bind_some in E. destruct E as (k1 & _ & E).
  apply bind_some in E. destruct E as ([sh c] & El & E).
  injection E as _ <- _.
  apply (for_loop_preserves (fun s => saltbits (snd s) = saltbits ctx)
           (key_round g1 k0 k1)) in El; [exact El| |reflexivity].
  intros j t t' Ht Et. rewrite (key_round_saltbits _ _ _ _ _ _ Et). exact Ht.
Qed.

(** X4: [des_set_key] writes the sixteen subkey pairs and nothing else,
    and reads nothing of the context it is given: from two contexts of
    any content it fails in both or succeeds in both, with the same
    subkeys, and each keeps the salt mask it had. *)
Theorem des_set_key_writes_only_subkeys (g : des_globals) (c1 c2 : des_ctx_t)
    (key : list Z) :
  length (en_keysl c1) = 16%nat -> length (en_keysr c1) = 16%nat ->
  length (en_keysl c2) = 16%nat -> length (en_keysr c2) = 16%nat ->
  match des_set_key g c1 key, des_set_key g c2 key with
  | Some (g1, k1, z1), Some (g2, k2, z2) =>
      g1 = g2 /\ z1 = z2 /\
      en_keysl k1 = en_keysl k2 /\ en_keysr k1 = en_keysr k2 /\
      saltbits k1 = saltbits c1 /\ saltbits k2 = saltbits c2
  | None, None => True
  | _, _ => False
  end.
Proof.
  intros L1l L1r L2l L2r.
  pose proof (des_set_key_ctx_unread g c1 c2 key L1l L1r L2l L2r) as H.
  destruct (des_set_key g c1 key) as [[[g1 k1] z1]|] eqn:E1,
           (des_set_key g c2 key) as [[[g2 k2] z2]|] eqn:E2;
    cbn [both fst snd] in H; try exact H.
  destruct H as (Hg & Hz & Hl & Hr).
  repeat (split; [assumption|]). split.
  - exact (des_set_key_saltbits _ _ _ _ _ _ E1).
  - exact (des_set_key_saltbits _ _ _ _ _ _ E2).
Qed.

Lemma des_set_key_writes_only_subkeys_witness :
  match des_set_key des_tables ctx_uninit [1; 35; 69; 103; 137; 171; 205; 239],
        des_set_key des_tables
          (mk_ctx 77 [1; 2; 3; 4; 5; 6; 7; 8; 9; 10; 11; 12; 13; 14; 15; 16]
                     [16; 15; 14; 13; 12; 11; 10; 9; 8; 7; 6; 5; 4; 3; 2; 1])
          [1; 35; 69; 103; 137; 171; 205; 239] with
  | Some (g1, k1, z1), Some (g2, k2, z2) =>
      g1 = g2 /\ z1 = z2 /\
      en_keysl k1 = en_keysl k2 /\ en_keysr k1 = en_keysr k2 /\
      saltbits k1 = saltbits ctx_uninit /\
      saltbits k2
      = saltbits
          (mk_ctx 77 [1; 2; 3; 4; 5; 6; 7; 8; 9; 10; 11; 12; 13; 14; 15; 16]
                     [16; 15; 14; 13; 12; 11; 10; 9; 8; 7; 6; 5; 4; 3; 2; 1])
  | None, None => True
  | _, _ => False
  end.
Proof.
  apply (des_set_key_writes_only_subkeys des_tables ctx_uninit
           (mk_ctx 77 [1; 2; 3; 4; 5; 6; 7; 8; 9; 10; 11; 12; 13; 14; 15; 16]
                      [16; 15; 14; 13; 12; 11; 10; 9; 8; 7; 6; 5; 4; 3; 2; 1])
           [1; 35; 69; 103; 137; 171; 205; 239]).
  - reflexivity.
  - reflexivity.
  - reflexivity.
  - reflexivity.
Defined.

Lemma ctx_ext (a b : des_ctx_t) :
  saltbits a = saltbits b -> en_keysl a = en_keysl b ->
  en_keysr a = en_keysr b -> a = b.
Proof.
  destruct a as [sa la ra], b as [sb lb rb].
  cbn [saltbits en_keysl en_keysr]. intros -> -> ->. reflexivity.
Qed.

Lemma saltbits_des_set_salt (c1 c2 : des_ctx_t) (salt : Z) :
  saltbits (des_set_salt c1 salt) = saltbits (des_set_salt c2 salt).
Proof. unfold des_set_salt. cbn [saltbits]. reflexivity. Qed.

Lemma en_keysl_des_set_salt (ctx : des_ctx_t) (salt : Z) :
  en_keysl (des_set_salt ctx salt) = en_keysl ctx.
Proof. unfold des_set_salt. cbn [en_keysl]. reflexivity. Qed.

Lemma en_keysr_des_set_salt (ctx : des_ctx_t) (salt : Z) :
  en_keysr (des_set_salt ctx salt) = en_keysr ctx.
Proof. unfold des_set_salt. cbn [en_keysr]. reflexivity. Qed.

(** X5: [des_set_key] and [des_set_salt] commute: setting the salt before
    the key leaves the context that setting it after the key leaves, the
    order of lines 592-593. *)
Theorem des_set_key_des_set_salt_commute (g : des_globals) (ctx : des_ctx_t)
    (key : list Z) (salt : Z) :
  length (en_keysl ctx) = 16%nat -> length (en_keysr ctx) = 16%nat ->
  des_set_key g (des_set_salt ctx salt) key
  = match des_set_key g ctx key with
    | Some (g', ctx', z) => Some (g', des_set_salt ctx' salt, z)
    | None => None
    end.
Proof.
  intros Ll Lr.
  pose proof (des_set_key_ctx_unread g (des_set_salt ctx salt) ctx key
                Ll Lr Ll Lr) as H.
  destruct (des_set_key g (des_set_salt ctx salt) key) as [[[g1 k1] z1]|] eqn:E1,
           (des_set_key g ctx key) as [[[g2 k2] z2]|] eqn:E2;
    cbn [both fst snd] in H; try contradiction; [|reflexivity].
  destruct H as (-> & -> & Hl & Hr).
  pose proof (des_set_key_saltbits _ _ _ _ _ _ E1) as Hs.
  clear E1 E2.
  rewrite (ctx_ext k1 (des_set_salt k2 salt)); [reflexivity| | |].
  - rewrite Hs. apply saltbits_des_set_salt.
  - rewrite Hl. symmetry. apply en_keysl_des_set_salt.
  - rewrite Hr. symmetry. apply en_keysr_des_set_salt.
Qed.

Lemma des_set_key_des_set_salt_commute_witness :
  des_set_key des_tables (des_set_salt ctx_uninit 2534)
    [224; 194; 230; 230; 238; 222; 228; 200]
  = match des_set_key des_tables ctx_uninit
            [224; 194; 230; 230; 238; 222; 228; 200] with
    | Some (g', ctx', z) => Some (g', des_set_salt ctx' 2534, z)
    | None => None
    end.
Proof.
  apply (des_set_key_des_set_salt_commute des_tables ctx_uninit
           [224; 194; 230; 230; 238; 222; 228; 200] 2534).
  - reflexivity.
  - reflexivity.
Defined.

(** ** Initial and final permutation *)

(** Two table-driven permutations, the second undoing the first. *)
Lemma perm_lookup_undo (tl tr ol or : table) (inner outer : list Z) (l r : Z) :
  perm_table_ok tl inner 0 = true -> perm_table_ok tr inner 1 = true ->
  perm_table_ok ol outer 0 = true -> perm_table_ok or outer 1 = true ->
  table_bounded 8 256 (2 ^ 32) tl = true ->
  table_bounded 8 256 (2 ^ 32) tr = true ->
  table_bounded 8 256 (2 ^ 32) ol = true ->
  table_bounded 8 256 (2 ^ 32) or = true ->
  perm_undoes outer inner = true ->
  fits 32 l -> fits 32 r ->
  exists a b,
    perm_lookup tl l r = Some a /\ perm_lookup tr l r = Some b /\
    fits 32 a /\ fits 32 b /\
    perm_lookup ol a b = Some l /\ perm_lookup or a b = Some r.
Proof.
  intros Ptl Ptr Pol Por Btl Btr Bol Bor Hu Fl Fr.
  destruct (perm_lookup_bits _ _ 0 l r Ptl Btl Fl Fr) as (a & Ea & Fa & Ba).
  destruct (perm_lookup_bits _ _ 1 l r Ptr Btr Fl Fr) as (b & Eb & Fb & Bb).
  destruct (perm_lookup_bits _ _ 0 a b Pol Bol Fa Fb) as (l2 & El2 & Fl2 & Bl2).
  destruct (perm_lookup_bits _ _ 1 a b Por Bor Fa Fb) as (r2 & Er2 & Fr2 & Br2).
  unfold perm_undoes in Hu. apply andb_prop in Hu. destruct Hu as [Hul Hur].
  rewrite forallb_forall in Hul, Hur.
  exists a, b. repeat (split; [assumption|]).
  assert (l2 = l) as <-.
  { apply bits_eq_32; [assumption..|]. intros p Hp. rewrite Bl2 by assumption.
    specialize (Hul p (in_range 32 p ltac:(lia))). cbv zeta in Hul.
    apply Z.eqb_eq in Hul.
    destruct (perm_table_cell _ _ 0 0 0 p Pol ltac:(lia) ltac:(lia) Hp) as [Rl _].
    cbv zeta in Rl.
    set (s := src_bit outer 0 p) in *. unfold block_bit at 1.
    destruct (Z.ltb_spec s 32).
    - rewrite Ba by lia. rewrite Hul. apply block_bit_left. exact Hp.
    - rewrite Bb by lia. rewrite Hul. apply block_bit_left. exact Hp. }
  assert (r2 = r) as <-.
  { apply bits_eq_32; [assumption..|]. intros p Hp. rewrite Br2 by assumption.
    specialize (Hur p (in_range 32 p ltac:(lia))). cbv zeta in Hur.
    apply Z.eqb_eq in Hur.
    destruct (perm_table_cell _ _ 1 0 0 p Por ltac:(lia) ltac:(lia) Hp) as [Rr _].
    cbv zeta in Rr.
    set (s := src_bit outer 1 p) in *. unfold block_bit at 1.
    destruct (Z.ltb_spec s 32).
    - rewrite Ba by lia. rewrite Hur. apply block_bit_right. exact Hp.
    - rewrite Bb by lia. rewrite Hur. apply block_bit_right. exact Hp. }
  split; assumption.
Qed.

Lemma des_tables_fp_undoes_ip :
  perm_undoes (init_perm des_tables) (final_perm des_tables) = true.
Proof. vm_compute. reflexivity. Qed.

Lemma des_tables_ip_undoes_fp :
  perm_undoes (final_perm des_tables) (init_perm des_tables) = true.
Proof. vm_compute. reflexivity. Qed.

Lemma fp_after_ip (w0 w1 : Z) :
  fits 32 w0 -> fits 32 w1 ->
  exists l r,
    perm_lookup (ip_maskl des_tables) w0 w1 = Some l /\
    perm_lookup (ip_maskr des_tables) w0 w1 = Some r /\
    fits 32 l /\ fits 32 r /\
    perm_lookup (fp_maskl des_tables) l r = Some w0 /\
    perm_lookup (fp_maskr des_tables) l r = Some w1.
Proof.
  destruct (wf_parts des_tables des_tables_wf)
    as (_ & _ & _ & Tipl & Tipr & Tfpl & Tfpr & _).
  destruct (perms_parts des_tables des_tables_perms_wf)
    as (Hipl & Hipr & Hfpl & Hfpr & _).
  exact (perm_lookup_undo _ _ _ _ _ _ w0 w1 Hipl Hipr Hfpl Hfpr
           Tipl Tipr Tfpl Tfpr des_tables_fp_undoes_ip).
Qed.

Lemma ip_after_fp_tables (l r : Z) :
  fits 32 l -> fits 32 r ->
  exists lt rt,
    perm_lookup (fp_maskl des_tables) l r = Some lt /\
    perm_lookup (fp_maskr des_tables) l r = Some rt /\
    fits 32 lt /\ fits 32 rt /\
    perm_lookup (ip_maskl des_tables) lt rt = Some l /\
    perm_lookup (ip_maskr des_tables) lt rt = Some r.
Proof.
  destruct (wf_parts des_tables des_tables_wf)
    as (_ & _ & _ & Tipl & Tipr & Tfpl & Tfpr & _).
  destruct (perms_parts des_tables des_tables_perms_wf)
    as (Hipl & Hipr & Hfpl & Hfpr & _).
  exact (perm_lookup_undo _ _ _ _ _ _ l r Hfpl Hfpr Hipl Hipr
           Tfpl Tfpr Tipl Tipr des_tables_ip_undoes_fp).
Qed.

(** X6: on the generated tables the initial and the final permutation, as
    [do_des] computes them by eight byte-indexed lookups per word, are
    inverse to each other on all 64-bit blocks, in both orders. *)
Theorem initial_final_permutation_inverse (w0 w1 : Z) :
  fits 32 w0 -> fits 32 w1 ->
  (h <- initial_permutation des_tables (w0, w1) ;;
   final_permutation des_tables h) = Some (w0, w1) /\
  (h <- final_permutation des_tables (w0, w1) ;;
   initial_permutation des_tables h) = Some (w0, w1).
Proof.
  intros F0 F1. split.
  - destruct (fp_after_ip w0 w1 F0 F1) as (l & r & El & Er & _ & _ & E0 & E1).
    unfold initial_permutation, final_permutation. cbn [fst snd].
    rewrite El, Er. cbn [bind fst snd]. rewrite E0, E1. reflexivity.
  - destruct (ip_after_fp_tables w0 w1 F0 F1)
      as (l & r & El & Er & _ & _ & E0 & E1).
    unfold initial_permutation, final_permutation. cbn [fst snd].
    rewrite El, Er. cbn [bind fst snd]. rewrite E0, E1. reflexivity.
Qed.

Lemma initial_final_permutation_inverse_witness :
  (h <- initial_permutation des_tables (0x01234567, 0x89abcdef) ;;
   final_permutation des_tables h) = Some (0x01234567, 0x89abcdef) /\
  (h <- final_permutation des_tables (0x01234567, 0x89abcdef) ;;
   initial_permutation des_tables h) = Some (0x01234567, 0x89abcdef).
Proof.
  apply (initial_final_permutation_inverse 0x01234567 0x89abcdef).
  - unfold fits. lia.
  - unfold fits. lia.
Defined.

Lemma final_perm_is_IP : final_perm des_tables = map (fun e => e - 1) IP.
Proof. vm_compute. reflexivity. Qed.

Lemma src_bit_final_perm (half p : Z) :
  0 <= half <= 1 -> 0 <= p < 32 ->
  src_bit (final_perm des_tables) half p = nth (Z.to_nat (32 * half + 31 - p)) IP 0 - 1.
Proof.
  intros Hh Hp. unfold src_bit. rewrite final_perm_is_IP.
  rewrite (nth_indep _ 0 (0 - 1))
    by (rewrite length_map; change (length IP) with 64%nat; lia).
  apply (map_nth (fun e => e - 1)).
Qed.

(** The initial permutation moves bit [IP[o] - 1] of its input to bit [o]
    of its output. *)
Lemma initial_permutation_bits (w0 w1 o : Z) :
  fits 32 w0 -> fits 32 w1 -> 0 <= o < 64 ->
  exists l r,
    initial_permutation des_tables (w0, w1) = Some (l, r) /\
    fits 32 l /\ fits 32 r /\
    block_bit l r o = block_bit w0 w1 (nth (Z.to_nat o) IP 0 - 1).
Proof.
  intros F0 F1 Ho.
  destruct (wf_parts des_tables des_tables_wf) as (_ & _ & _ & Tipl & Tipr & _).
  destruct (perms_parts des_tables des_tables_perms_wf) as (Hipl & Hipr & _).
  destruct (perm_lookup_bits _ _ 0 w0 w1 Hipl Tipl F0 F1) as (l & El & Fl & Bl).
  destruct (perm_lookup_bits _ _ 1 w0 w1 Hipr Tipr F0 F1) as (r & Er & Fr & Br).
  exists l, r. unfold initial_permutation. cbn [fst snd]. rewrite El, Er.
  cbn [bind]. split; [reflexivity|]. split; [assumption|]. split; [assumption|].
  unfold block_bit at 1. destruct (Z.ltb_spec o 32).
  - rewrite Bl by lia. rewrite src_bit_final_perm by lia.
    do 3 f_equal. lia.
  - rewrite Br by lia. rewrite src_bit_final_perm by lia.
    do 3 f_equal. lia.
Qed.

(** X7: the OR-mask lookups of [do_des] realise the permutation of the
    static table [IP]: bit [o] of the initially permuted block, counting
    from the most significant bit of the left word, is bit [IP[o] - 1] of
    the input block, and the final permutation sends bit [o] of its input
    to bit [IP[o] - 1] of its output. *)
Theorem permutations_follow_IP_table (w0 w1 o : Z) :
  fits 32 w0 -> fits 32 w1 -> 0 <= o < 64 ->
  exists l r lt rt,
    initial_permutation des_tables (w0, w1) = Some (l, r) /\
    block_bit l r o = block_bit w0 w1 (nth (Z.to_nat o) IP 0 - 1) /\
    final_permutation des_tables (w0, w1) = Some (lt, rt) /\
    block_bit lt rt (nth (Z.to_nat o) IP 0 - 1) = block_bit w0 w1 o.
Proof.
  intros F0 F1 Ho.
  destruct (initial_permutation_bits w0 w1 o F0 F1 Ho) as (l & r & E & _ & _ & B).
  destruct (ip_after_fp_tables w0 w1 F0 F1)
    as (lt & rt & Elt & Ert & Flt & Frt & E0 & E1).
  destruct (initial_permutation_bits lt rt o Flt Frt Ho)
    as (l' & r' & E' & _ & _ & B').
  unfold initial_permutation in E'. cbn [fst snd] in E'.
  rewrite E0, E1 in E'. cbn [bind] in E'. injection E' as <- <-.
  exists l, r, lt, rt. split; [exact E|]. split; [exact B|].
  split; [|symmetry; exact B'].
  unfold final_permutation. cbn [fst snd]. rewrite Elt, Ert. reflexivity.
Qed.

Lemma permutations_follow_IP_table_witness :
  exists l r lt rt,
    initial_permutation des_tables (0x01234567, 0x89abcdef) = Some (l, r) /\
    block_bit l r 5
    = block_bit 0x01234567 0x89abcdef (nth (Z.to_nat 5) IP 0 - 1) /\
    final_permutation des_tables (0x01234567, 0x89abcdef) = Some (lt, rt) /\
    block_bit lt rt (nth (Z.to_nat 5) IP 0 - 1)
    = block_bit 0x01234567 0x89abcdef 5.
Proof.
  apply (permutations_follow_IP_table 0x01234567 0x89abcdef 5).
  - unfold fits. lia.
  - unfold fits. lia.
  - lia.
Defined.

(** ** The engine is one-to-one *)

Lemma lxor_cancel_l (a b c : Z) : Z.lxor a b = Z.lxor a c -> b = c.
Proof.
  intros H. apply (f_equal (Z.lxor a)) in H.
  rewrite <- !Z.lxor_assoc, Z.lxor_nilpotent, !Z.lxor_0_l in H. exact H.
Qed.

(** A round is a Feistel step: the new left word is the old right word,
    and the new right word is the old left word XORed with a value that
    depends on the old right word only. *)
Lemma des_round_shape (g : des_globals) (ctx : des_ctx_t) (k l r a : Z)
    (s : Z * Z * Z) :
  des_round g ctx k (l, r, a) = Some s ->
  exists F,
    s = (r, Z.lxor F l, Z.lxor F l) /\
    forall l' a',
      des_round g ctx k (l', r, a') = Some (r, Z.lxor F l', Z.lxor F l').
Proof.
  unfold des_round. intros E.
  destruct (rd (en_keysl ctx) k) as [kl|]; [|discriminate E].
  destruct (rd (en_keysr ctx) k) as [kr|]; [|discriminate E].
  cbn [bind] in E |- *.
  destruct (tab_rd (m_sbox g) 0 _) as [m0|]; [|discriminate E]. cbn [bind] in E |- *.
  destruct (tab_rd (psbox g) 0 m0) as [p0|]; [|discriminate E]. cbn [bind] in E |- *.
  destruct (tab_rd (m_sbox g) 1 _) as [m1|]; [|discriminate E]. cbn [bind] in E |- *.
  destruct (tab_rd (psbox g) 1 m1) as [p1|]; [|discriminate E]. cbn [bind] in E |- *.
  destruct (tab_rd (m_sbox g) 2 _) as [m2|]; [|discriminate E]. cbn [bind] in E |- *.
  destruct (tab_rd (psbox g) 2 m2) as [p2|]; [|discriminate E]. cbn [bind] in E |- *.
  destruct (tab_rd (m_sbox g) 3 _) as [m3|]; [|discriminate E]. cbn [bind] in E |- *.
  destruct (tab_rd (psbox g) 3 m3) as [p3|]; [|discriminate E]. cbn [bind] in E |- *.
  injection E as <-.
  exists (Z.lor (Z.lor (Z.lor p0 p1) p2) p3). split; [reflexivity|].
  intros l' a'. reflexivity.
Qed.

Lemma des_round_inj (g : des_globals) (ctx : des_ctx_t) (k : Z)
    (l1 r1 a1 l2 r2 a2 : Z) (s : Z * Z * Z) :
  des_round g ctx k (l1, r1, a1) = Some s ->
  des_round g ctx k (l2, r2, a2) = Some s ->
  l1 = l2 /\ r1 = r2.
Proof.
  intros E1 E2.
  destruct (des_round_shape _ _ _ _ _ _ _ E1) as (F1 & -> & H1).
  destruct (des_round_shape _ _ _ _ _ _ _ E2) as (F2 & S2 & _).
  assert (r1 = r2) as <- by congruence.
  rewrite (H1 l2 a2) in E2. injection E2 as E2 _.
  split; [|reflexivity]. symmetry. exact (lxor_cancel_l _ _ _ E2).
Qed.

Lemma for_loop_succ {St : Type} (body : Z -> St -> option St) (n : nat)
    (i : Z) (s : St) :
  for_loop (S n) i body s = s' <- body i s ;; for_loop n (i + 1) body s'.
Proof. reflexivity. Qed.

(** After at least one round the third component repeats the second. *)
Lemma rounds_tail (g : des_globals) (ctx : des_ctx_t) :
  forall (n : nat) (k : Z) (s : Z * Z * Z) (l' r' f' : Z),
    for_loop (S n) k (des_round g ctx) s = Some (l', r', f') -> r' = f'.
Proof.
  induction n as [|n IH]; intros k [[l r] a] l' r' f' E;
    rewrite for_loop_succ in E; apply bind_some in E; destruct E as (t & Et & E).
  - cbn [for_loop] in E. injection E as ->.
    destruct (des_round_shape _ _ _ _ _ _ _ Et) as (F & S & _). congruence.
  - exact (IH _ _ _ _ _ E).
Qed.

Lemma rounds_inj (g : des_globals) (ctx : des_ctx_t) :
  forall (n : nat) (k l1 r1 a1 l2 r2 a2 : Z) (s : Z * Z * Z),
    for_loop (S n) k (des_round g ctx) (l1, r1, a1) = Some s ->
    for_loop (S n) k (des_round g ctx) (l2, r2, a2) = Some s ->
    l1 = l2 /\ r1 = r2.
Proof.
  induction n as [|n IH]; intros k l1 r1 a1 l2 r2 a2 s E1 E2;
    rewrite for_loop_succ in E1, E2;
    apply bind_some in E1; destruct E1 as (t1 & Et1 & E1);
    apply bind_some in E2; destruct E2 as (t2 & Et2 & E2).
  - cbn [for_loop] in E1, E2. assert (t1 = t2) as <- by congruence.
    exact (des_round_inj _ _ _ _ _ _ _ _ _ _ Et1 Et2).
  - destruct (des_round_shape _ _ _ _ _ _ _ Et1) as (F1 & S1 & _).
    destruct (des_round_shape _ _ _ _ _ _ _ Et2) as (F2 & S2 & _).
    subst t1 t2.
    destruct (IH _ _ _ _ _ _ _ _ E1 E2) as [Hr Hf]. subst r2.
    rewrite <- Hf in Et2.
    destruct (des_round_inj _ _ _ _ _ _ _ _ _ _ Et1 Et2) as [-> _].
    split; reflexivity.
Qed.

Lemma des_pass_shape (g : des_globals) (ctx : des_ctx_t) (s t : Z * Z * Z) :
  des_pass g ctx s = Some t ->
  exists l r,
    for_loop 16 0 (des_round g ctx) s = Some (l, r, r) /\ t = (r, l, r).
Proof.
  unfold des_pass. intros E. apply bind_some in E.
  destruct E as ([[l r] f] & El & E). injection E as <-.
  pose proof (rounds_tail _ _ _ _ _ _ _ _ El) as ->.
  exists l, f. split; [exact El|reflexivity].
Qed.

Lemma des_pass_inj (g : des_globals) (ctx : des_ctx_t)
    (l1 r1 a1 l2 r2 a2 : Z) (t : Z * Z * Z) :
  des_pass g ctx (l1, r1, a1) = Some t ->
  des_pass g ctx (l2, r2, a2) = Some t ->
  l1 = l2 /\ r1 = r2.
Proof.
  intros E1 E2.
  destruct (des_pass_shape _ _ _ _ E1) as (x1 & y1 & L1 & ->).
  destruct (des_pass_shape _ _ _ _ E2) as (x2 & y2 & L2 & T2).
  injection T2 as <- <-.
  exact (rounds_inj _ _ _ _ _ _ _ _ _ _ _ L1 L2).
Qed.

Lemma des_passes_inj (g : des_globals) (ctx : des_ctx_t) :
  forall (n : nat) (l1 r1 a1 l2 r2 a2 : Z) (l' r' f1 f2 : Z),
    des_passes g ctx (S n) (l1, r1, a1) = Some (l', r', f1) ->
    des_passes g ctx (S n) (l2, r2, a2) = Some (l', r', f2) ->
    l1 = l2 /\ r1 = r2.
Proof.
  induction n as [|n IH]; intros l1 r1 a1 l2 r2 a2 l' r' f1 f2 E1 E2;
    cbn [des_passes] in E1, E2;
    apply bind_some in E1; destruct E1 as (t1 & Et1 & E1);
    apply bind_some in E2; destruct E2 as (t2 & Et2 & E2);
    destruct (des_pass_shape _ _ _ _ Et1) as (x1 & y1 & _ & T1);
    destruct (des_pass_shape _ _ _ _ Et2) as (x2 & y2 & _ & T2).
  - injection E1 as E1. injection E2 as E2.
    assert (t1 = t2) as <- by congruence.
    exact (des_pass_inj _ _ _ _ _ _ _ _ _ Et1 Et2).
  - subst t1 t2. change (des_passes g ctx (S n) (y1, x1, y1) = Some (l', r', f1)) in E1.
    change (des_passes g ctx (S n) (y2, x2, y2) = Some (l', r', f2)) in E2.
    destruct (IH _ _ _ _ _ _ _ _ _ _ E1 E2) as [Hy Hx]. subst y2 x2.
    exact (des_pass_inj _ _ _ _ _ _ _ _ _ Et1 Et2).
Qed.

Lemma block_of_words_inj (a0 a1 b0 b1 : Z) :
  fits 32 a0 -> fits 32 a1 -> fits 32 b0 -> fits 32 b1 ->
  block_of_words a0 a1 = block_of_words b0 b1 -> a0 = b0 /\ a1 = b1.
Proof.
  intros Fa0 Fa1 Fb0 Fb1 E.
  pose proof (unpack_pack a0 a1 Fa0 Fa1) as Ua.
  pose proof (unpack_pack b0 b1 Fb0 Fb1) as Ub.
  rewrite E in Ua. rewrite Ua in Ub. injection Ub as -> ->. split; reflexivity.
Qed.

Lemma unpack_block_inj (b c : list Z) (w : Z * Z) :
  is_block b -> is_block c ->
  unpack_block b = Some w -> unpack_block c = Some w -> b = c.
Proof.
  intros Hb Hc Eb Ec.
  destruct (is_block_inv b Hb)
    as (b0 & b1 & b2 & b3 & b4 & b5 & b6 & b7 & -> & B0 & B1 & B2 & B3 & B4 & B5 & B6 & B7).
  destruct (is_block_inv c Hc)
    as (c0 & c1 & c2 & c3 & c4 & c5 & c6 & c7 & -> & C0 & C1 & C2 & C3 & C4 & C5 & C6 & C7).
  rewrite unpack_block_bytes in Eb, Ec. rewrite <- Eb in Ec.
  injection Ec as E0 E1.
  destruct (bytes_of_be32 b0 b1 b2 b3 B0 B1 B2 B3) as (X0 & X1 & X2 & X3).
  destruct (bytes_of_be32 b4 b5 b6 b7 B4 B5 B6 B7) as (X4 & X5 & X6 & X7).
  destruct (bytes_of_be32 c0 c1 c2 c3 C0 C1 C2 C3) as (Y0 & Y1 & Y2 & Y3).
  destruct (bytes_of_be32 c4 c5 c6 c7 C4 C5 C6 C7) as (Y4 & Y5 & Y6 & Y7).
  rewrite E0 in Y0, Y1, Y2, Y3. rewrite E1 in Y4, Y5, Y6, Y7.
  congruence.
Qed.

Lemma do_des_inj (ctx : des_ctx_t) (in1 in2 o1 o2 : list Z) (count : Z)
    (res : Z * list Z) :
  ctx_ready ctx -> is_block in1 -> is_block in2 ->
  length o1 = 8%nat -> length o2 = 8%nat -> 1 <= count ->
  do_des des_tables ctx in1 o1 count = Some res ->
  do_des des_tables ctx in2 o2 count = Some res ->
  in1 = in2.
Proof.
  intros Hctx H1 H2 L1 L2 Hc E1 E2.
  unfold do_des in E1, E2.
  destruct (Z.eqb_spec count 0); [lia|].
  destruct (Z.gtb_spec count 0); [|lia].
  destruct (wf_parts des_tables des_tables_wf)
    as (_ & _ & _ & Tipl & Tipr & Tfpl & Tfpr & _).
  destruct (unpack_block_ok in1 H1) as (a0 & a1 & Ua & Fa0 & Fa1).
  destruct (unpack_block_ok in2 H2) as (b0 & b1 & Ub & Fb0 & Fb1).
  rewrite Ua in E1. rewrite Ub in E2. cbn [bind] in E1, E2.
  destruct (fp_after_ip a0 a1 Fa0 Fa1) as (la & ra & Ela & Era & Fla & Fra & Ba0 & Ba1).
  destruct (fp_after_ip b0 b1 Fb0 Fb1) as (lb & rb & Elb & Erb & Flb & Frb & Bb0 & Bb1).
  rewrite Ela, Era in E1. rewrite Elb, Erb in E2. cbn [bind] in E1, E2.
  destruct (des_passes_ok des_tables des_tables_wf ctx (Z.to_nat count) Hctx
              la ra 0 Fla Fra) as (la' & ra' & fa & Pa & Fla' & Fra').
  destruct (des_passes_ok des_tables des_tables_wf ctx (Z.to_nat count) Hctx
              lb rb 0 Flb Frb) as (lb' & rb' & fb & Pb & Flb' & Frb').
  rewrite Pa in E1. rewrite Pb in E2. cbn [bind] in E1, E2.
  destruct (ip_after_fp_tables la' ra' Fla' Fra')
    as (ta & ua & Eta & Eua & Fta & Fua & Ia0 & Ia1).
  destruct (ip_after_fp_tables lb' rb' Flb' Frb')
    as (tb & ub & Etb & Eub & Ftb & Fub & Ib0 & Ib1).
  rewrite Eta, Eua in E1. rewrite Etb, Eub in E2. cbn [bind] in E1, E2.
  rewrite pack_block_length8 in E1, E2 by assumption. cbn [bind] in E1, E2.
  assert (E3 : block_of_words tb ub = block_of_words ta ua) by congruence.
  destruct (block_of_words_inj _ _ _ _ Ftb Fub Fta Fua E3) as [-> ->].
  assert (la' = lb') as <- by congruence.
  assert (ra' = rb') as <- by congruence.
  replace (Z.to_nat count) with (S (Z.to_nat (count - 1))) in Pa, Pb by lia.
  destruct (des_passes_inj _ _ _ _ _ _ _ _ _ _ _ _ _ Pa Pb) as [<- <-].
  assert (a0 = b0) as <- by congruence.
  assert (a1 = b1) as <- by congruence.
  exact (unpack_block_inj _ _ _ H1 H2 Ua Ub).
Qed.

(** X8: for a fixed key, salt and count of 1 or more the engine is
    one-to-one on blocks: two different input blocks never give the same
    output bytes. Each round is a Feistel step, which can be undone, and
    the two permutations and the codec are bijections. *)
Theorem des_cipher_block_injective (g : des_globals)
    (key in1 in2 o1 o2 : list Z) (salt count : Z) :
  reachable g -> is_block key -> is_block in1 -> is_block in2 ->
  length o1 = 8%nat -> length o2 = 8%nat -> 1 <= count ->
  in1 <> in2 ->
  out_of (des_cipher_block g key in1 o1 salt count)
  <> out_of (des_cipher_block g key in2 o2 salt count).
Proof.
  intros Hg Hk H1 H2 L1 L2 Hc Hne E. apply Hne.
  destruct (des_cipher_block_cases g key in1 o1 salt count Hg Hk H1 L1)
    as (c1 & K1 & R1 & [[Hc1 _] | [_ (lt1 & rt1 & _ & _ & D1 & E1)]]); [lia|].
  destruct (des_cipher_block_cases g key in2 o2 salt count Hg Hk H2 L2)
    as (c2 & K2 & R2 & [[Hc2 _] | [_ (lt2 & rt2 & _ & _ & D2 & E2)]]); [lia|].
  assert (c2 = c1) as -> by congruence.
  rewrite E1, E2 in E. cbn [out_of rc out] in E.
  assert (Eb : block_of_words lt1 rt1 = block_of_words lt2 rt2) by congruence.
  rewrite <- Eb in D2.
  exact (do_des_inj _ _ _ _ _ _ _ R1 H1 H2 L1 L2 Hc D1 D2).
Qed.

Lemma des_cipher_block_injective_witness :
  out_of (des_cipher_block initial_globals
            [1; 35; 69; 103; 137; 171; 205; 239]
            [18; 52; 86; 120; 154; 188; 222; 240] zero_block 4660 3)
  <> out_of (des_cipher_block initial_globals
               [1; 35; 69; 103; 137; 171; 205; 239]
               [18; 52; 86; 120; 154; 188; 222; 241] zero_block 4660 3).
Proof.
  apply (des_cipher_block_injective initial_globals
           [1; 35; 69; 103; 137; 171; 205; 239]
           [18; 52; 86; 120; 154; 188; 222; 240]
           [18; 52; 86; 120; 154; 188; 222; 241] zero_block zero_block 4660 3).
  - apply reach_start.
  - reflexivity.
  - reflexivity.
  - reflexivity.
  - reflexivity.
  - reflexivity.
  - lia.
  - intros H. discriminate H.
Defined.

(** ** The expansion without an E-box *)

Lemma testbit_mask (lo k q : Z) :
  0 <= lo -> 0 <= k -> 0 <= q ->
  Z.testbit (Z.shiftl (Z.ones k) lo) q = (lo <=? q) && (q <? lo + k).
Proof.
  intros Hlo Hk Hq. rewrite Z.shiftl_spec by assumption.
  destruct (Z.leb_spec lo q).
  - rewrite Z.testbit_ones_nonneg by lia. cbn [andb].
    destruct (Z.ltb_spec (q - lo) k), (Z.ltb_spec q (lo + k)); try reflexivity; lia.
  - rewrite Z.testbit_neg_r by lia. reflexivity.
Qed.

Lemma testbit_shl32 (a k p : Z) :
  0 <= k -> 0 <= p ->
  Z.testbit (shl32 a k) p = (p <? 32) && (k <=? p) && Z.testbit a (p - k).
Proof.
  intros Hk Hp. unfold shl32, wrap32.
  rewrite Z.testbit_mod_pow2 by lia. rewrite Z.shiftl_spec by assumption.
  destruct (Z.ltb_spec p 32); [|reflexivity]. cbn [andb].
  destruct (Z.leb_spec k p); [reflexivity|].
  rewrite Z.testbit_neg_r by lia. reflexivity.
Qed.

(** Settle every comparison in the goal that the hypotheses decide. *)
Ltac decide_cmp :=
  repeat match goal with
         | |- context [?a <=? ?b] =>
             first [ rewrite (proj2 (Z.leb_le a b)) by lia
                   | rewrite (proj2 (Z.leb_gt a b)) by lia ]
         | |- context [?a <? ?b] =>
             first [ rewrite (proj2 (Z.ltb_lt a b)) by lia
                   | rewrite (proj2 (Z.ltb_ge a b)) by lia ]
         | |- context [?a =? ?b] =>
             first [ rewrite (proj2 (Z.eqb_eq a b)) by lia
                   | rewrite (proj2 (Z.eqb_neq a b)) by lia ]
         end.

Ltac bool_tidy :=
  cbn [andb orb];
  rewrite ?andb_false_r, ?andb_true_r, ?orb_false_r, ?orb_false_l;
  cbn [andb orb].

Ltac split_one :=
  match goal with
  | |- context [?a <=? ?b] => destruct (Z.leb_spec a b)
  | |- context [?a <? ?b] => destruct (Z.ltb_spec a b)
  | |- context [?a =? ?b] => destruct (Z.eqb_spec a b)
  end.

(** Reduce a goal about bits of masked and shifted words to its one live
    term. *)
Ltac chew :=
  repeat (decide_cmp; bool_tidy; rewrite ?testbit_mask by lia);
  try reflexivity; try (split_one; chew).

(** Bit [p] of the left half of the expansion is a bit of [r]. *)
Lemma expand_l_bit (r p : Z) :
  0 <= p < 24 ->
  Z.testbit (expand_l r) p
  = Z.testbit r (if p =? 23 then 0
                 else if 18 <=? p then p + 9
                 else if 12 <=? p then p + 11
                 else if 6 <=? p then p + 13
                 else p + 15).
Proof.
  intros Hp. unfold expand_l.
  change 0x00000001 with (Z.shiftl (Z.ones 1) 0).
  change 0xf8000000 with (Z.shiftl (Z.ones 5) 27).
  change 0x1f800000 with (Z.shiftl (Z.ones 6) 23).
  change 0x01f80000 with (Z.shiftl (Z.ones 6) 19).
  change 0x001f8000 with (Z.shiftl (Z.ones 6) 15).
  rewrite !Z.lor_spec, testbit_shl32, !Z.shiftr_spec, !Z.land_spec by lia.
  rewrite (testbit_mask 27 5), (testbit_mask 23 6), (testbit_mask 19 6),
    (testbit_mask 15 6) by lia.
  assert (C : p = 23 \/ 18 <= p <= 22 \/ 12 <= p <= 17 \/ 6 <= p <= 11 \/ p <= 5)
    by lia.
  destruct C as [->|[C|[C|[C|C]]]].
  - change (23 - 23) with 0. rewrite (testbit_mask 0 1) by lia. chew.
  - chew.
  - chew.
  - chew.
  - chew.
Qed.

(** Bit [p] of the right half of the expansion is a bit of [r]. *)
Lemma expand_r_bit (r p : Z) :
  0 <= p < 24 ->
  Z.testbit (expand_r r) p
  = Z.testbit r (if p =? 0 then 31
                 else if p <=? 5 then p - 1
                 else if p <=? 11 then p - 3
                 else if p <=? 17 then p - 5
                 else p - 7).
Proof.
  intros Hp. unfold expand_r.
  change 0x0001f800 with (Z.shiftl (Z.ones 6) 11).
  change 0x00001f80 with (Z.shiftl (Z.ones 6) 7).
  change 0x000001f8 with (Z.shiftl (Z.ones 6) 3).
  change 0x0000001f with (Z.shiftl (Z.ones 5) 0) at 1.
  change 0x80000000 with (Z.shiftl (Z.ones 1) 31).
  rewrite !Z.lor_spec, !testbit_shl32, !Z.shiftr_spec, !Z.land_spec by lia.
  rewrite (testbit_mask 31 1) by lia.
  assert (C : p = 0 \/ 1 <= p <= 5 \/ 6 <= p <= 11 \/ 12 <= p <= 17 \/ 18 <= p)
    by lia.
  destruct C as [->|[C|[C|[C|C]]]].
  - chew.
  - chew.
  - chew.
  - chew.
  - chew.
Qed.

(** Bit [j] of group [i] of the expansion, in the numbering of the DES
    tables. *)
Lemma expansion_group_bit (r i j : Z) :
  0 <= i < 8 -> 0 <= j < 6 ->
  group_bit (expand_l r) (expand_r r) i j = word_bit r ((4 * i + j - 1) mod 32).
Proof.
  intros Hi Hj. unfold group_bit, word_bit.
  assert (Ci : i = 0 \/ i = 1 \/ i = 2 \/ i = 3 \/ i = 4 \/ i = 5 \/ i = 6 \/ i = 7)
    by lia.
  assert (Cj : j = 0 \/ j = 1 \/ j = 2 \/ j = 3 \/ j = 4 \/ j = 5) by lia.
  destruct Ci as [->|[->|[->|[->|[->|[->|[->| ->]]]]]]];
    destruct Cj as [->|[->|[->|[->|[->| ->]]]]];
    cbn [Z.ltb Z.compare Pos.compare Pos.compare_cont];
    first [ rewrite expand_l_bit by (cbn; lia) | rewrite expand_r_bit by (cbn; lia) ];
    reflexivity.
Qed.

(** X9: the two shift-and-mask expressions of the round compute the DES
    expansion E. The 48 bits come out as eight groups of six, four groups
    in each 24-bit half; bit [j] of group [i] is bit [4 i + j - 1] of [r],
    counted from the most significant bit and taken modulo 32, so that
    each group repeats the last bit of the group before it and the first
    bit of the group after it, wrapping around at both ends. Nothing
    above bit 23 is set in either half. *)
Theorem expansion_selects_E_bits (r i j : Z) :
  0 <= i < 8 -> 0 <= j < 6 ->
  group_bit (expand_l r) (expand_r r) i j = word_bit r ((4 * i + j - 1) mod 32)
  /\ fits 24 (expand_l r) /\ fits 24 (expand_r r).
Proof.
  intros Hi Hj. split; [|split; [apply fits_expand_l|apply fits_expand_r]].
  apply expansion_group_bit; assumption.
Qed.

Lemma expansion_selects_E_bits_witness :
  group_bit (expand_l 1) (expand_r 1) 0 0 = word_bit 1 ((4 * 0 + 0 - 1) mod 32)
  /\ fits 24 (expand_l 1) /\ fits 24 (expand_r 1).
Proof. apply (expansion_selects_E_bits 1 0 0); lia. Defined.

(** ** Salting inside a round *)

(** Where the salt mask has a 1 the left half takes the bit of the right
    half and the right half the bit of the left half; the subkey is
    XORed in after that. *)
Lemma salt_swap_bits (sb kl kr r p : Z) :
  Z.testbit (fst (sbox_input sb kl kr r)) p
  = xorb (if Z.testbit sb p then Z.testbit (expand_r r) p
          else Z.testbit (expand_l r) p) (Z.testbit kl p) /\
  Z.testbit (snd (sbox_input sb kl kr r)) p
  = xorb (if Z.testbit sb p then Z.testbit (expand_l r) p
          else Z.testbit (expand_r r) p) (Z.testbit kr p).
Proof.
  unfold sbox_input. cbn [fst snd].
  rewrite !Z.lxor_spec, !Z.land_spec, !Z.lxor_spec.
  destruct (Z.testbit sb p), (Z.testbit (expand_l r) p),
           (Z.testbit (expand_r r) p), (Z.testbit kl p), (Z.testbit kr p);
    split; reflexivity.
Qed.

(** X10: the salt swaps S-box inputs four boxes apart. After lines
    540-542, bit [j] of group [i] of the 48 bits that go to the S-boxes
    is a bit of the expansion of [r] XORed with the bit of the subkey at
    that place; the bit of the expansion is the one of group [i] itself
    where the salt mask has a 0 at the place of the bit within its
    24-bit half, and the one of the group four further on (counting
    around the eight) where it has a 1. *)
Theorem salt_swaps_expansion_groups (sb kl kr r i j : Z) :
  0 <= i < 8 -> 0 <= j < 6 ->
  group_bit (fst (sbox_input sb kl kr r)) (snd (sbox_input sb kl kr r)) i j
  = xorb (word_bit r ((4 * (if Z.testbit sb (23 - (6 * (i mod 4) + j))
                            then (i + 4) mod 8 else i) + j - 1) mod 32))
         (group_bit kl kr i j).
Proof.
  intros Hi Hj.
  destruct (Z.ltb_spec i 4) as [Hlt|Hge].
  - rewrite (Z.mod_small i 4), (Z.mod_small (i + 4) 8) by lia.
    destruct (salt_swap_bits sb kl kr r (23 - (6 * i + j))) as [Hl _].
    unfold group_bit. destruct (Z.ltb_spec i 4); [|lia].
    rewrite Hl. f_equal. destruct (Z.testbit sb (23 - (6 * i + j))).
    + rewrite <- (expansion_group_bit r (i + 4) j) by lia. unfold group_bit.
      destruct (Z.ltb_spec (i + 4) 4); [lia|]. f_equal. lia.
    + rewrite <- (expansion_group_bit r i j) by lia. unfold group_bit.
      destruct (Z.ltb_spec i 4); [|lia]. reflexivity.
  - assert (M4 : i mod 4 = i - 4).
    { replace i with (i - 4 + 1 * 4) at 1 by lia.
      rewrite Z.mod_add by lia. apply Z.mod_small. lia. }
    assert (M8 : (i + 4) mod 8 = i - 4).
    { replace (i + 4) with (i - 4 + 1 * 8) by lia.
      rewrite Z.mod_add by lia. apply Z.mod_small. lia. }
    rewrite M4, M8.
    destruct (salt_swap_bits sb kl kr r (23 - (6 * (i - 4) + j))) as [_ Hr].
    unfold group_bit. destruct (Z.ltb_spec i 4); [lia|].
    rewrite Hr. f_equal. destruct (Z.testbit sb (23 - (6 * (i - 4) + j))).
    + rewrite <- (expansion_group_bit r (i - 4) j) by lia. unfold group_bit.
      destruct (Z.ltb_spec (i - 4) 4); [|lia]. reflexivity.
    + rewrite <- (expansion_group_bit r i j) by lia. unfold group_bit.
      destruct (Z.ltb_spec i 4); [lia|]. reflexivity.
Qed.

Lemma salt_swaps_expansion_groups_witness :
  group_bit (fst (sbox_input 0x800000 0xabcdef 0x123456 0x12345678))
            (snd (sbox_input 0x800000 0xabcdef 0x123456 0x12345678)) 0 0
  = xorb (word_bit 0x12345678
            ((4 * (if Z.testbit 0x800000 (23 - (6 * (0 mod 4) + 0))
                   then (0 + 4) mod 8 else 0) + 0 - 1) mod 32))
         (group_bit 0xabcdef 0x123456 0 0).
Proof.
  apply (salt_swaps_expansion_groups 0x800000 0xabcdef 0x123456 0x12345678 0 0);
    lia.
Defined.
(** ** OR-mask tables as bit selections *)

Lemma mask_table_cell (t : table) (nr nc n : nat) (h : Z -> Z * Z) (k v p : Z) :
  mask_table_ok t nr nc (map h (range n)) = true ->
  0 <= k < Z.of_nat nr -> 0 <= v < Z.of_nat nc -> 0 <= p < Z.of_nat n ->
  Z.testbit (cell t k v) p = (fst (h p) =? k) && Z.testbit v (snd (h p)).
Proof.
  intros H Hk Hv Hp. unfold mask_table_ok in H.
  rewrite forallb_forall in H. specialize (H k (in_range nr k Hk)).
  rewrite forallb_forall in H. specialize (H v (in_range nc v Hv)).
  apply Z.eqb_eq in H. rewrite H, testbit_bits_of_list by lia.
  rewrite map_map, nth_map_range by lia. destruct (h p); reflexivity.
Qed.

Lemma entry_in (tbl : list Z) (P : Z -> bool) (i : Z) :
  forallb P tbl = true -> 0 <= i < Z.of_nat (length tbl) ->
  P (entry tbl i + 1) = true.
Proof.
  intros H Hi. rewrite forallb_forall in H. apply H. unfold entry.
  replace (nth (Z.to_nat i) tbl 0 - 1 + 1) with (nth (Z.to_nat i) tbl 0) by lia.
  apply nth_In. lia.
Qed.

Lemma key_perm_entry (i : Z) :
  0 <= i < 56 -> 0 <= entry key_perm i < 64 /\ entry key_perm i mod 8 <> 7.
Proof.
  intros Hi.
  assert (W : key_perm_wf = true) by reflexivity.
  unfold key_perm_wf in W. apply andb_prop in W. destruct W as [L W].
  apply Nat.eqb_eq in L.
  pose proof (entry_in key_perm _ i W ltac:(lia)) as H. cbv beta in H.
  apply andb_prop in H. destruct H as [H H2].
  apply andb_prop in H. destruct H as [H0 H1].
  apply Z.leb_le in H0. apply Z.leb_le in H1.
  apply negb_true_iff in H2. apply Z.eqb_neq in H2.
  split; [lia|]. intros E. apply H2.
  rewrite Z.add_mod, E by lia. reflexivity.
Qed.

Lemma comp_perm_entry (i : Z) : 0 <= i < 48 -> 0 <= entry comp_perm i < 56.
Proof.
  intros Hi.
  assert (W : comp_perm_wf = true) by reflexivity.
  unfold comp_perm_wf in W. apply andb_prop in W. destruct W as [L W].
  apply Nat.eqb_eq in L.
  pose proof (entry_in comp_perm _ i W ltac:(lia)) as H. cbv beta in H.
  apply andb_prop in H. destruct H as [H0 H1].
  apply Z.leb_le in H0. apply Z.leb_le in H1. lia.
Qed.

Lemma pbox_entry (i : Z) : 0 <= i < 32 -> 0 <= entry pbox i < 32.
Proof.
  intros Hi.
  assert (W : pbox_wf = true) by reflexivity.
  unfold pbox_wf in W. apply andb_prop in W. destruct W as [L W].
  apply Nat.eqb_eq in L.
  pose proof (entry_in pbox _ i W ltac:(lia)) as H. cbv beta in H.
  apply andb_prop in H. destruct H as [H0 H1].
  apply Z.leb_le in H0. apply Z.leb_le in H1. lia.
Qed.

Lemma slice7_bit (w sh j : Z) :
  0 <= j < 7 -> Z.testbit (Z.land (Z.shiftr w sh) 0x7f) j = Z.testbit w (j + sh).
Proof.
  intros Hj. rewrite Z.land_spec, Z.shiftr_spec by lia.
  change 0x7f with (Z.ones 7). rewrite Z.ones_spec_low by lia.
  apply andb_true_r.
Qed.

Lemma slice7_bit_low (w j : Z) :
  0 <= j < 7 -> Z.testbit (Z.land w 0x7f) j = Z.testbit w j.
Proof.
  intros Hj. rewrite Z.land_spec.
  change 0x7f with (Z.ones 7). rewrite Z.ones_spec_low by lia.
  apply andb_true_r.
Qed.

(** ** The key permutation *)

(** A lookup through a table that passes the check of [key_perm_slots]
    selects key bits: bit [o] of the result, counted from the most
    significant of 28, is the key bit that [key_perm] names. *)
Lemma key_perm_lookup_bits (t : table) (half w0 w1 : Z) :
  mask_table_ok t 8 128 (key_perm_slots half) = true ->
  table_bounded 8 128 (2 ^ 28) t = true ->
  0 <= half <= 1 -> fits 32 w0 -> fits 32 w1 ->
  exists v,
    key_perm_lookup t w0 w1 = Some v /\ fits 28 v /\
    forall o, 0 <= o < 28 ->
      Z.testbit v (27 - o) = block_bit w0 w1 (entry key_perm (28 * half + o)).
Proof.
  intros Hm Ht Hh F0 F1. unfold key_perm_lookup.
  pose proof (idx_hi7 w0 F0) as I0. pose proof (idx_lo7 (Z.shiftr w0 17)) as I1.
  pose proof (idx_lo7 (Z.shiftr w0 9)) as I2. pose proof (idx_lo7 (Z.shiftr w0 1)) as I3.
  pose proof (idx_hi7 w1 F1) as I4. pose proof (idx_lo7 (Z.shiftr w1 17)) as I5.
  pose proof (idx_lo7 (Z.shiftr w1 9)) as I6. pose proof (idx_lo7 (Z.shiftr w1 1)) as I7.
  destruct (or8_fits 128 28 t _ _ _ _ _ _ _ _ ltac:(lia) Ht I0 I1 I2 I3 I4 I5 I6 I7)
    as (v & E & Fv & Ev).
  exists v. split; [exact E|]. split; [exact Fv|].
  intros o Ho. rewrite Ev, !Z.lor_spec. unfold key_perm_slots in Hm.
  rewrite (mask_table_cell _ _ _ _ _ 0 _ (27 - o) Hm) by lia.
  rewrite (mask_table_cell _ _ _ _ _ 1 _ (27 - o) Hm) by lia.
  rewrite (mask_table_cell _ _ _ _ _ 2 _ (27 - o) Hm) by lia.
  rewrite (mask_table_cell _ _ _ _ _ 3 _ (27 - o) Hm) by lia.
  rewrite (mask_table_cell _ _ _ _ _ 4 _ (27 - o) Hm) by lia.
  rewrite (mask_table_cell _ _ _ _ _ 5 _ (27 - o) Hm) by lia.
  rewrite (mask_table_cell _ _ _ _ _ 6 _ (27 - o) Hm) by lia.
  rewrite (mask_table_cell _ _ _ _ _ 7 _ (27 - o) Hm) by lia.
  cbn [fst snd].
  replace (28 * half + 27 - (27 - o)) with (28 * half + o) by lia.
  destruct (key_perm_entry (28 * half + o) ltac:(lia)) as [Hs Hs7].
  set (s := entry key_perm (28 * half + o)) in *.
  assert (Hmod : 0 <= s mod 8 < 8) by (apply Z.mod_pos_bound; lia).
  assert (Hd : s = 8 * (s / 8) + s mod 8) by (apply Z.div_mod; lia).
  unfold block_bit.
  assert (Hk : s / 8 = 0 \/ s / 8 = 1 \/ s / 8 = 2 \/ s / 8 = 3 \/
               s / 8 = 4 \/ s / 8 = 5 \/ s / 8 = 6 \/ s / 8 = 7) by lia.
  destruct Hk as [K|[K|[K|[K|[K|[K|[K|K]]]]]]]; rewrite K in *;
    simpl (_ =? _); cbn [andb orb]; rewrite ?orb_false_r;
    (destruct (Z.ltb_spec s 32); [try lia|try lia]).
  - rewrite Z.shiftr_spec by lia. f_equal. lia.
  - rewrite slice7_bit by lia. f_equal. lia.
  - rewrite slice7_bit by lia. f_equal. lia.
  - rewrite slice7_bit by lia. f_equal. lia.
  - rewrite Z.shiftr_spec by lia. f_equal. lia.
  - rewrite slice7_bit by lia. f_equal. lia.
  - rewrite slice7_bit by lia. f_equal. lia.
  - rewrite slice7_bit by lia. f_equal. lia.
Qed.

(** ** The compression permutation *)

Lemma comp_lookup_bits (t : table) (half t0 t1 : Z) :
  mask_table_ok t 8 128 (comp_perm_slots half) = true ->
  table_bounded 8 128 (2 ^ 24) t = true ->
  0 <= half <= 1 ->
  exists v,
    comp_lookup t t0 t1 = Some v /\ fits 24 v /\
    forall o, 0 <= o < 24 ->
      Z.testbit v (23 - o)
      = let c := entry comp_perm (24 * half + o) in
        if c <? 28 then Z.testbit t0 (27 - c) else Z.testbit t1 (55 - c).
Proof.
  intros Hm Ht Hh. unfold comp_lookup.
  pose proof (idx_lo7 (Z.shiftr t0 21)) as I0. pose proof (idx_lo7 (Z.shiftr t0 14)) as I1.
  pose proof (idx_lo7 (Z.shiftr t0 7)) as I2. pose proof (idx_lo7 t0) as I3.
  pose proof (idx_lo7 (Z.shiftr t1 21)) as I4. pose proof (idx_lo7 (Z.shiftr t1 14)) as I5.
  pose proof (idx_lo7 (Z.shiftr t1 7)) as I6. pose proof (idx_lo7 t1) as I7.
  destruct (or8_fits 128 24 t _ _ _ _ _ _ _ _ ltac:(lia) Ht I0 I1 I2 I3 I4 I5 I6 I7)
    as (v & E & Fv & Ev).
  exists v. split; [exact E|]. split; [exact Fv|].
  intros o Ho. cbv zeta. rewrite Ev, !Z.lor_spec. unfold comp_perm_slots in Hm.
  rewrite (mask_table_cell _ _ _ _ _ 0 _ (23 - o) Hm) by lia.
  rewrite (mask_table_cell _ _ _ _ _ 1 _ (23 - o) Hm) by lia.
  rewrite (mask_table_cell _ _ _ _ _ 2 _ (23 - o) Hm) by lia.
  rewrite (mask_table_cell _ _ _ _ _ 3 _ (23 - o) Hm) by lia.
  rewrite (mask_table_cell _ _ _ _ _ 4 _ (23 - o) Hm) by lia.
  rewrite (mask_table_cell _ _ _ _ _ 5 _ (23 - o) Hm) by lia.
  rewrite (mask_table_cell _ _ _ _ _ 6 _ (23 - o) Hm) by lia.
  rewrite (mask_table_cell _ _ _ _ _ 7 _ (23 - o) Hm) by lia.
  cbn [fst snd].
  replace (24 * half + 23 - (23 - o)) with (24 * half + o) by lia.
  pose proof (comp_perm_entry (24 * half + o) ltac:(lia)) as Hc.
  set (c := entry comp_perm (24 * half + o)) in *.
  assert (Hmod : 0 <= c mod 7 < 7) by (apply Z.mod_pos_bound; lia).
  assert (Hd : c = 7 * (c / 7) + c mod 7) by (apply Z.div_mod; lia).
  assert (Hk : c / 7 = 0 \/ c / 7 = 1 \/ c / 7 = 2 \/ c / 7 = 3 \/
               c / 7 = 4 \/ c / 7 = 5 \/ c / 7 = 6 \/ c / 7 = 7) by lia.
  destruct Hk as [K|[K|[K|[K|[K|[K|[K|K]]]]]]]; rewrite K in *;
    simpl (_ =? _); cbn [andb orb]; rewrite ?orb_false_r;
    (destruct (Z.ltb_spec c 28); [try lia|try lia]).
  - rewrite slice7_bit by lia. f_equal. lia.
  - rewrite slice7_bit by lia. f_equal. lia.
  - rewrite slice7_bit by lia. f_equal. lia.
  - rewrite slice7_bit_low by lia. f_equal. lia.
  - rewrite slice7_bit by lia. f_equal. lia.
  - rewrite slice7_bit by lia. f_equal. lia.
  - rewrite slice7_bit by lia. f_equal. lia.
  - rewrite slice7_bit_low by lia. f_equal. lia.
Qed.

(** ** The rotation *)

(** Within its low 28 bits, [rotated k sh] is [k] rotated left by [sh]
    places; what the shift leaves above bit 27 is never looked at. *)
Lemma rotated_bit (k sh p : Z) :
  fits 28 k -> 1 <= sh <= 28 -> 0 <= p < 28 ->
  Z.testbit (rotated k sh) p = Z.testbit k ((p - sh) mod 28).
Proof.
  intros Fk Hsh Hp. unfold rotated.
  rewrite Z.lor_spec, testbit_shl32, Z.shiftr_spec by lia.
  destruct (Z.leb_spec sh p).
  - rewrite (fits_high 28 k (p + (28 - sh))) by (assumption || lia).
    rewrite orb_false_r. rewrite Z.mod_small by lia.
    destruct (Z.ltb_spec p 32); [reflexivity|lia].
  - rewrite andb_false_r. cbn [andb orb]. f_equal.
    replace (p - sh) with (p + (28 - sh) + (-1) * 28) by lia.
    rewrite Z.mod_add by lia. rewrite Z.mod_small by lia. reflexivity.
Qed.

Lemma shifts_before_succ (round ks : Z) :
  0 <= round < 16 -> rd key_shifts round = Some ks ->
  shifts_before (round + 1) = shifts_before round + ks
  /\ 1 <= shifts_before (round + 1) <= 28.
Proof.
  intros Hr E.
  assert (C : round = 0 \/ round = 1 \/ round = 2 \/ round = 3 \/ round = 4 \/
              round = 5 \/ round = 6 \/ round = 7 \/ round = 8 \/ round = 9 \/
              round = 10 \/ round = 11 \/ round = 12 \/ round = 13 \/
              round = 14 \/ round = 15) by lia.
  repeat (destruct C as [->|C]; [vm_compute in E; injection E as <-; vm_compute;
                                 intuition discriminate|]).
  subst round. vm_compute in E. injection E as <-. vm_compute. intuition discriminate.
Qed.
(** ** The key schedule, bit by bit *)

Lemma mod_28_mirror (x : Z) : (27 - x) mod 28 = 27 - x mod 28.
Proof.
  pose proof (Z.mod_pos_bound x 28 ltac:(lia)) as B.
  pose proof (Z.div_mod x 28 ltac:(lia)) as D.
  replace (27 - x) with (27 - x mod 28 + (- (x / 28)) * 28) by lia.
  rewrite Z.mod_add by lia. apply Z.mod_small. lia.
Qed.

Lemma wrap8_bit (x j : Z) :
  0 <= j < 8 -> Z.testbit (wrap8 x) j = Z.testbit x j.
Proof.
  intros Hj. unfold wrap8. rewrite Z.testbit_mod_pow2 by lia.
  destruct (Z.ltb_spec j 8); [reflexivity|lia].
Qed.

(** The bits of the two words that [unpack_block] loads are the bits of
    the buffer, in order. *)
Lemma block_bit_buffer (b0 b1 b2 b3 b4 b5 b6 b7 s : Z) :
  fits 8 b0 -> fits 8 b1 -> fits 8 b2 -> fits 8 b3 ->
  fits 8 b4 -> fits 8 b5 -> fits 8 b6 -> fits 8 b7 ->
  0 <= s < 64 ->
  block_bit (be32 b0 b1 b2 b3) (be32 b4 b5 b6 b7) s
  = buffer_bit [b0; b1; b2; b3; b4; b5; b6; b7] s.
Proof.
  intros F0 F1 F2 F3 F4 F5 F6 F7 Hs.
  destruct (bytes_of_be32 b0 b1 b2 b3 F0 F1 F2 F3) as (E0 & E1 & E2 & E3).
  destruct (bytes_of_be32 b4 b5 b6 b7 F4 F5 F6 F7) as (E4 & E5 & E6 & E7).
  assert (Hmod : 0 <= s mod 8 < 8) by (apply Z.mod_pos_bound; lia).
  assert (Hd : s = 8 * (s / 8) + s mod 8) by (apply Z.div_mod; lia).
  unfold block_bit, buffer_bit.
  assert (Hk : s / 8 = 0 \/ s / 8 = 1 \/ s / 8 = 2 \/ s / 8 = 3 \/
               s / 8 = 4 \/ s / 8 = 5 \/ s / 8 = 6 \/ s / 8 = 7) by lia.
  destruct Hk as [K|[K|[K|[K|[K|[K|[K|K]]]]]]]; rewrite K in *;
    (destruct (Z.ltb_spec s 32); [try lia|try lia]);
    simpl (Z.to_nat _); cbn [nth].
  - etransitivity; [|apply (f_equal (fun x => Z.testbit x _) E0)].
    rewrite wrap8_bit, Z.shiftr_spec by lia. f_equal. lia.
  - etransitivity; [|apply (f_equal (fun x => Z.testbit x _) E1)].
    rewrite wrap8_bit, slice_bit by lia. f_equal. lia.
  - etransitivity; [|apply (f_equal (fun x => Z.testbit x _) E2)].
    rewrite wrap8_bit, slice_bit by lia. f_equal. lia.
  - etransitivity; [|apply (f_equal (fun x => Z.testbit x _) E3)].
    rewrite wrap8_bit, slice_bit_low by lia. f_equal. lia.
  - etransitivity; [|apply (f_equal (fun x => Z.testbit x _) E4)].
    rewrite wrap8_bit, Z.shiftr_spec by lia. f_equal. lia.
  - etransitivity; [|apply (f_equal (fun x => Z.testbit x _) E5)].
    rewrite wrap8_bit, slice_bit by lia. f_equal. lia.
  - etransitivity; [|apply (f_equal (fun x => Z.testbit x _) E6)].
    rewrite wrap8_bit, slice_bit by lia. f_equal. lia.
  - etransitivity; [|apply (f_equal (fun x => Z.testbit x _) E7)].
    rewrite wrap8_bit, slice_bit_low by lia. f_equal. lia.
Qed.

Lemma rd_nth (a : list Z) (i v : Z) :
  rd a i = Some v -> nth (Z.to_nat i) a 0 = v.
Proof.
  unfold rd. destruct (Z.ltb_spec i 0); [discriminate|].
  intros E. apply nth_error_nth. exact E.
Qed.

Section KeySchedule.

Variable g : des_globals.
Hypothesis Hwf : tables_wf g = true.
Hypothesis Hkeys : key_tables_ok g = true.

Lemma key_parts :
  mask_table_ok (key_perm_maskl g) 8 128 (key_perm_slots 0) = true /\
  mask_table_ok (key_perm_maskr g) 8 128 (key_perm_slots 1) = true /\
  mask_table_ok (comp_maskl g) 8 128 (comp_perm_slots 0) = true /\
  mask_table_ok (comp_maskr g) 8 128 (comp_perm_slots 1) = true.
Proof.
  pose proof Hkeys as H. unfold key_tables_ok in H.
  apply andb_prop in H. destruct H as [H H4].
  apply andb_prop in H. destruct H as [H H3].
  apply andb_prop in H. destruct H as [H1 H2].
  repeat split; assumption.
Qed.

Lemma key_round_sched (k0 k1 round : Z) (s : Z * des_ctx_t) :
  0 <= round < 16 -> key_sched_inv g k0 k1 round s ->
  exists s', key_round g k0 k1 round s = Some s' /\
             key_sched_inv g k0 k1 (round + 1) s'.
Proof.
  intros Hr Hs. destruct s as [shifts ctx].
  destruct Hs as (Hsh & Ll & Lr & Hj). cbn [fst snd] in *.
  destruct (wf_parts g Hwf) as (_ & _ & _ & _ & _ & _ & _ & _ & _ & Hcl & Hcr).
  unfold key_round.
  destruct (rd_some key_shifts round) as (ks & Eks & _); [simpl; lia|].
  rewrite Eks. cbn [bind].
  destruct (shifts_before_succ round ks Hr Eks) as [Esh _].
  fold (rotated k0 (shifts + ks)). fold (rotated k1 (shifts + ks)).
  rewrite Hsh, <- Esh.
  set (sh := shifts_before (round + 1)).
  destruct (comp_lookup_ok _ (rotated k0 sh) (rotated k1 sh) Hcl) as (kl & El & _).
  destruct (comp_lookup_ok _ (rotated k0 sh) (rotated k1 sh) Hcr) as (kr & Er & _).
  rewrite El. cbn [bind].
  destruct (wr_spec (en_keysl ctx) round kl) as (el & -> & Lel & Rel & Oel); [lia|].
  cbn [bind en_keysr saltbits en_keysl]. rewrite Er. cbn [bind].
  destruct (wr_spec (en_keysr ctx) round kr) as (er & -> & Ler & Rer & Oer); [lia|].
  cbn [bind]. eexists. split; [reflexivity|].
  unfold key_sched_inv. cbn [fst snd saltbits en_keysl en_keysr].
  split; [reflexivity|]. split; [congruence|]. split; [congruence|].
  intros j Hjr. cbv zeta. destruct (Z.eq_dec j round) as [->|Hne].
  - fold sh. rewrite Rel, Rer, El, Er. split; reflexivity.
  - rewrite Oel, Oer by lia. apply Hj. lia.
Qed.

Lemma des_set_key_bits (ctx : des_ctx_t) (key : list Z) :
  is_block key ->
  length (en_keysl ctx) = 16%nat -> length (en_keysr ctx) = 16%nat ->
  exists ctx',
    des_set_key g ctx key = Some (g, ctx', 0) /\
    forall round o, 0 <= round < 16 -> 0 <= o < 48 ->
      subkey_bit ctx' round o = buffer_bit key (subkey_src round o).
Proof.
  intros Hk Ll Lr. unfold des_set_key.
  rewrite (des_init_tables_again g Hwf). cbn [bind].
  destruct (is_block_inv key Hk)
    as (b0 & b1 & b2 & b3 & b4 & b5 & b6 & b7 & -> & B0 & B1 & B2 & B3 & B4 & B5 & B6 & B7).
  rewrite unpack_block_bytes. cbn [bind].
  set (w0 := be32 b0 b1 b2 b3). set (w1 := be32 b4 b5 b6 b7).
  assert (F0 : fits 32 w0) by apply fits_wrap32.
  assert (F1 : fits 32 w1) by apply fits_wrap32.
  destruct (wf_parts g Hwf) as (_ & _ & _ & _ & _ & _ & _ & Hkl & Hkr & Hcl & Hcr).
  destruct key_parts as (Mkl & Mkr & Mcl & Mcr).
  destruct (key_perm_lookup_bits _ 0 w0 w1 Mkl Hkl ltac:(lia) F0 F1)
    as (k0 & -> & Fk0 & Bk0).
  destruct (key_perm_lookup_bits _ 1 w0 w1 Mkr Hkr ltac:(lia) F0 F1)
    as (k1 & -> & Fk1 & Bk1).
  cbn [bind].
  destruct (for_loop_inv (key_sched_inv g k0 k1) (key_round g k0 k1) 16 0 (0, ctx))
    as ([sh ctx'] & -> & (_ & Ll' & Lr' & Hj)).
  - unfold key_sched_inv. cbn [fst snd].
    split; [reflexivity|]. split; [assumption|]. split; [assumption|].
    intros j Hj. lia.
  - intros j t Hj Ht. apply key_round_sched; [lia|assumption].
  - cbn [bind snd] in *. exists ctx'. split; [reflexivity|].
    intros round o Hr Ho.
    destruct (Hj round ltac:(lia)) as [Hl Hrr]. cbv zeta in Hl, Hrr.
    destruct (rd_some key_shifts round) as (ks & Eks & _); [simpl; lia|].
    destruct (shifts_before_succ round ks Hr Eks) as [_ Hsh].
    set (sh' := shifts_before (round + 1)) in *.
    unfold subkey_bit, subkey_src. fold sh'.
    assert (Hfin : forall c,
      0 <= c < 56 ->
      (if c <? 28 then Z.testbit (rotated k0 sh') (27 - c)
       else Z.testbit (rotated k1 sh') (55 - c))
      = buffer_bit [b0; b1; b2; b3; b4; b5; b6; b7]
          (if c <? 28 then entry key_perm ((c + sh') mod 28)
           else entry key_perm (28 + (c - 28 + sh') mod 28))).
    { intros c Hc. destruct (Z.ltb_spec c 28).
      - pose proof (Z.mod_pos_bound (c + sh') 28 ltac:(lia)) as Hq.
        rewrite rotated_bit by (assumption || lia).
        replace (27 - c - sh') with (27 - (c + sh')) by lia.
        rewrite mod_28_mirror, Bk0 by lia.
        replace (28 * 0 + (c + sh') mod 28) with ((c + sh') mod 28) by lia.
        apply block_bit_buffer; try assumption.
        apply key_perm_entry. lia.
      - pose proof (Z.mod_pos_bound (c - 28 + sh') 28 ltac:(lia)) as Hq.
        rewrite rotated_bit by (assumption || lia).
        replace (55 - c - sh') with (27 - (c - 28 + sh')) by lia.
        rewrite mod_28_mirror, Bk1 by lia.
        replace (28 * 1 + (c - 28 + sh') mod 28)
          with (28 + (c - 28 + sh') mod 28) by lia.
        apply block_bit_buffer; try assumption.
        apply key_perm_entry. lia. }
    destruct (Z.ltb_spec o 24).
    + destruct (comp_lookup_bits _ 0 (rotated k0 sh') (rotated k1 sh') Mcl Hcl ltac:(lia))
        as (kl & Ekl & _ & Bkl).
      rewrite Ekl in Hl. rewrite (rd_nth _ _ _ Hl).
      rewrite Bkl by lia. cbv zeta.
      replace (24 * 0 + o) with o by lia.
      apply Hfin. apply comp_perm_entry. lia.
    + destruct (comp_lookup_bits _ 1 (rotated k0 sh') (rotated k1 sh') Mcr Hcr ltac:(lia))
        as (kr & Ekr & _ & Bkr).
      rewrite Ekr in Hrr. rewrite (rd_nth _ _ _ Hrr).
      replace (47 - o) with (23 - (o - 24)) by lia.
      rewrite Bkr by lia. cbv zeta.
      replace (24 * 1 + (o - 24)) with o by lia.
      apply Hfin. apply comp_perm_entry. lia.
Qed.

End KeySchedule.

Lemma des_tables_key_tables_ok : key_tables_ok des_tables = true.
Proof. vm_compute. reflexivity. Qed.

Lemma des_init_tables_reachable (g : des_globals) :
  reachable g -> des_init_tables g = Some des_tables.
Proof.
  intros H. destruct (reachable_inv g H) as [-> | ->].
  - exact des_init_tables_initial.
  - exact (des_init_tables_again des_tables des_tables_wf).
Qed.

Lemma des_set_key_reachable (g : des_globals) (ctx : des_ctx_t) (key : list Z) :
  reachable g -> des_set_key g ctx key = des_set_key des_tables ctx key.
Proof.
  intros H. unfold des_set_key.
  rewrite (des_init_tables_reachable g H).
  rewrite (des_init_tables_again des_tables des_tables_wf). reflexivity.
Qed.

(** X11: the key schedule is the DES key schedule read off the static
    tables. Whatever tables state the process is in, [des_set_key] on an
    8-byte key succeeds, and bit [o] (of 48, from the most significant)
    of the subkey it stores for round [round] is one bit of the key:
    [comp_perm] picks one of the 56 permuted key bits, the rotation by
    the shifts of [key_shifts] up to that round moves it within its
    28-bit half, and [key_perm] names the key bit. *)
Theorem key_schedule_selects_key_bits (g : des_globals) (ctx : des_ctx_t)
    (key : list Z) :
  reachable g -> is_block key ->
  length (en_keysl ctx) = 16%nat -> length (en_keysr ctx) = 16%nat ->
  exists ctx',
    des_set_key g ctx key = Some (des_tables, ctx', 0) /\
    forall round o, 0 <= round < 16 -> 0 <= o < 48 ->
      subkey_bit ctx' round o = buffer_bit key (subkey_src round o).
Proof.
  intros Hg Hk Ll Lr. rewrite (des_set_key_reachable g ctx key Hg).
  exact (des_set_key_bits des_tables des_tables_wf des_tables_key_tables_ok
           ctx key Hk Ll Lr).
Qed.

Lemma key_schedule_selects_key_bits_witness :
  exists ctx',
    des_set_key initial_globals ctx_uninit [1; 35; 69; 103; 137; 171; 205; 239]
    = Some (des_tables, ctx', 0) /\
    forall round o, 0 <= round < 16 -> 0 <= o < 48 ->
      subkey_bit ctx' round o
      = buffer_bit [1; 35; 69; 103; 137; 171; 205; 239] (subkey_src round o).
Proof.
  apply (key_schedule_selects_key_bits initial_globals ctx_uninit
           [1; 35; 69; 103; 137; 171; 205; 239]).
  - apply reach_start.
  - reflexivity.
  - reflexivity.
  - reflexivity.
Defined.
(** ** The round function, stage by stage *)

Lemma m_sbox_cell (g : des_globals) (b i j : Z) :
  m_sbox_ok g = true -> 0 <= b < 4 -> 0 <= i < 64 -> 0 <= j < 64 ->
  cell (m_sbox g) b (64 * i + j)
  = 16 * sbox_out (2 * b) i + sbox_out (2 * b + 1) j.
Proof.
  intros H Hb Hi Hj. unfold m_sbox_ok in H.
  rewrite forallb_forall in H. specialize (H b (in_range 4 b Hb)).
  cbv zeta in H. rewrite forallb_forall in H.
  assert (Ii : In (i, sbox_out (2 * b) i) (sbox_outs (2 * b))).
  { unfold sbox_outs. apply in_map_iff. exists i. split; [reflexivity|].
    apply (in_range 64). exact Hi. }
  specialize (H _ Ii). cbv beta iota in H. rewrite forallb_forall in H.
  assert (Ij : In (j, sbox_out (2 * b + 1) j) (sbox_outs (2 * b + 1))).
  { unfold sbox_outs. apply in_map_iff. exists j. split; [reflexivity|].
    apply (in_range 64). exact Hj. }
  specialize (H _ Ij). cbv beta iota in H. apply Z.eqb_eq in H. exact H.
Qed.

(** The four indices into [m_sbox] are the eight six-bit groups, two by
    two. *)
Lemma group6_indices (a b : Z) :
  fits 24 a -> fits 24 b ->
  Z.shiftr a 12 = 64 * group6 a b 0 + group6 a b 1 /\
  Z.land a 0xfff = 64 * group6 a b 2 + group6 a b 3 /\
  Z.shiftr b 12 = 64 * group6 a b 4 + group6 a b 5 /\
  Z.land b 0xfff = 64 * group6 a b 6 + group6 a b 7 /\
  forall i, 0 <= group6 a b i < 64.
Proof.
  intros Fa Fb. unfold fits in Fa, Fb. change (2 ^ 24) with 16777216 in *.
  assert (B : forall i, 0 <= group6 a b i < 64).
  { intros i. unfold group6. change 63 with (Z.ones 6).
    destruct (i <? 4); rewrite Z.land_ones by lia; apply Z.mod_pos_bound; lia. }
  repeat (split; [|try exact B]).
  - change (group6 a b 0) with (Z.land (Z.shiftr a 18) (Z.ones 6)).
    change (group6 a b 1) with (Z.land (Z.shiftr a 12) (Z.ones 6)).
    rewrite !Z.land_ones, !Z.shiftr_div_pow2 by lia.
    change (2 ^ 18) with 262144. change (2 ^ 12) with 4096. change (2 ^ 6) with 64.
    Z.div_mod_to_equations; lia.
  - change (group6 a b 2) with (Z.land (Z.shiftr a 6) (Z.ones 6)).
    change (group6 a b 3) with (Z.land (Z.shiftr a 0) (Z.ones 6)).
    change 0xfff with (Z.ones 12).
    rewrite Z.shiftr_0_r, !Z.land_ones, !Z.shiftr_div_pow2 by lia.
    change (2 ^ 12) with 4096. change (2 ^ 6) with 64.
    Z.div_mod_to_equations; lia.
  - change (group6 a b 4) with (Z.land (Z.shiftr b 18) (Z.ones 6)).
    change (group6 a b 5) with (Z.land (Z.shiftr b 12) (Z.ones 6)).
    rewrite !Z.land_ones, !Z.shiftr_div_pow2 by lia.
    change (2 ^ 18) with 262144. change (2 ^ 12) with 4096. change (2 ^ 6) with 64.
    Z.div_mod_to_equations; lia.
  - change (group6 a b 6) with (Z.land (Z.shiftr b 6) (Z.ones 6)).
    change (group6 a b 7) with (Z.land (Z.shiftr b 0) (Z.ones 6)).
    change 0xfff with (Z.ones 12).
    rewrite Z.shiftr_0_r, !Z.land_ones, !Z.shiftr_div_pow2 by lia.
    change (2 ^ 12) with 4096. change (2 ^ 6) with 64.
    Z.div_mod_to_equations; lia.
Qed.

Section Round.

Variable g : des_globals.
Hypothesis Hwf : tables_wf g = true.
Hypothesis Hsb : m_sbox_ok g = true.
Hypothesis Hps : psbox_ok g = true.

(** The four lookups in [m_sbox] give the outputs of the eight S-boxes
    for the eight groups. *)
Lemma m_sbox_lookups (a b : Z) :
  fits 24 a -> fits 24 b ->
  let s i := sbox_out i (group6 a b i) in
  tab_rd (m_sbox g) 0 (Z.shiftr a 12) = Some (16 * s 0 + s 1) /\
  tab_rd (m_sbox g) 1 (Z.land a 0xfff) = Some (16 * s 2 + s 3) /\
  tab_rd (m_sbox g) 2 (Z.shiftr b 12) = Some (16 * s 4 + s 5) /\
  tab_rd (m_sbox g) 3 (Z.land b 0xfff) = Some (16 * s 6 + s 7) /\
  fits 8 (16 * s 0 + s 1) /\ fits 8 (16 * s 2 + s 3) /\
  fits 8 (16 * s 4 + s 5) /\ fits 8 (16 * s 6 + s 7).
Proof.
  intros Fa Fb s. subst s. cbv beta.
  destruct (wf_parts g Hwf) as (_ & Hm & _).
  destruct (group6_indices a b Fa Fb) as (E0 & E1 & E2 & E3 & B).
  pose proof (B 0) as B0. pose proof (B 1) as B1. pose proof (B 2) as B2.
  pose proof (B 3) as B3. pose proof (B 4) as B4. pose proof (B 5) as B5.
  pose proof (B 6) as B6. pose proof (B 7) as B7.
  rewrite E0, E1, E2, E3.
  destruct (table_bounded_spec _ _ _ _ 0 (64 * group6 a b 0 + group6 a b 1) Hm
              ltac:(lia) ltac:(lia)) as [T0 C0].
  destruct (table_bounded_spec _ _ _ _ 1 (64 * group6 a b 2 + group6 a b 3) Hm
              ltac:(lia) ltac:(lia)) as [T1 C1].
  destruct (table_bounded_spec _ _ _ _ 2 (64 * group6 a b 4 + group6 a b 5) Hm
              ltac:(lia) ltac:(lia)) as [T2 C2].
  destruct (table_bounded_spec _ _ _ _ 3 (64 * group6 a b 6 + group6 a b 7) Hm
              ltac:(lia) ltac:(lia)) as [T3 C3].
  rewrite (m_sbox_cell g 0 _ _ Hsb ltac:(lia) B0 B1) in T0, C0.
  rewrite (m_sbox_cell g 1 _ _ Hsb ltac:(lia) B2 B3) in T1, C1.
  rewrite (m_sbox_cell g 2 _ _ Hsb ltac:(lia) B4 B5) in T2, C2.
  rewrite (m_sbox_cell g 3 _ _ Hsb ltac:(lia) B6 B7) in T3, C3.
  change (2 * 0 + 1) with 1 in *. change (2 * 0) with 0 in *.
  change (2 * 1 + 1) with 3 in *. change (2 * 1) with 2 in *.
  change (2 * 2 + 1) with 5 in *. change (2 * 2) with 4 in *.
  change (2 * 3 + 1) with 7 in *. change (2 * 3) with 6 in *.
  unfold fits. repeat split; try assumption; lia.
Qed.

(** The four lookups in [psbox], ORed, are the P-box permutation of the
    four bytes: bit [o] of the result is bit [pbox[o] - 1] of the word
    they form, bits counted from the most significant. *)
Lemma psbox_lookups (m0 m1 m2 m3 : Z) :
  fits 8 m0 -> fits 8 m1 -> fits 8 m2 -> fits 8 m3 ->
  exists p0 p1 p2 p3,
    tab_rd (psbox g) 0 m0 = Some p0 /\ tab_rd (psbox g) 1 m1 = Some p1 /\
    tab_rd (psbox g) 2 m2 = Some p2 /\ tab_rd (psbox g) 3 m3 = Some p3 /\
    fits 32 (Z.lor (Z.lor (Z.lor p0 p1) p2) p3) /\
    forall o, 0 <= o < 32 ->
      word_bit (Z.lor (Z.lor (Z.lor p0 p1) p2) p3) o
      = word_bit (be32 m0 m1 m2 m3) (entry pbox o).
Proof.
  intros F0 F1 F2 F3.
  destruct (wf_parts g Hwf) as (_ & _ & Hp & _).
  assert (I0 : 0 <= m0 < 256) by exact F0. assert (I1 : 0 <= m1 < 256) by exact F1.
  assert (I2 : 0 <= m2 < 256) by exact F2. assert (I3 : 0 <= m3 < 256) by exact F3.
  destruct (table_bounded_spec _ _ _ _ 0 m0 Hp ltac:(lia) I0) as [T0 C0].
  destruct (table_bounded_spec _ _ _ _ 1 m1 Hp ltac:(lia) I1) as [T1 C1].
  destruct (table_bounded_spec _ _ _ _ 2 m2 Hp ltac:(lia) I2) as [T2 C2].
  destruct (table_bounded_spec _ _ _ _ 3 m3 Hp ltac:(lia) I3) as [T3 C3].
  do 4 eexists. repeat (split; [eassumption|]). split.
  - repeat apply fits_lor; try lia; assumption.
  - intros o Ho. unfold word_bit. rewrite !Z.lor_spec.
    pose proof Hps as Hm. unfold psbox_ok, pbox_slots in Hm.
    rewrite (mask_table_cell _ _ _ _ _ 0 _ (31 - o) Hm) by lia.
    rewrite (mask_table_cell _ _ _ _ _ 1 _ (31 - o) Hm) by lia.
    rewrite (mask_table_cell _ _ _ _ _ 2 _ (31 - o) Hm) by lia.
    rewrite (mask_table_cell _ _ _ _ _ 3 _ (31 - o) Hm) by lia.
    cbn [fst snd]. replace (31 - (31 - o)) with o by lia.
    pose proof (pbox_entry o Ho) as Hs.
    set (s := entry pbox o) in *.
    assert (F00 : fits 8 0) by (unfold fits; lia).
    pose proof (block_bit_buffer m0 m1 m2 m3 0 0 0 0 s F0 F1 F2 F3 F00 F00 F00 F00
                  ltac:(lia)) as Hb.
    unfold block_bit, buffer_bit in Hb.
    destruct (Z.ltb_spec s 32); [|lia]. rewrite Hb.
    assert (Hmod : 0 <= s mod 8 < 8) by (apply Z.mod_pos_bound; lia).
    assert (Hd : s = 8 * (s / 8) + s mod 8) by (apply Z.div_mod; lia).
    assert (Hk : s / 8 = 0 \/ s / 8 = 1 \/ s / 8 = 2 \/ s / 8 = 3) by lia.
    destruct Hk as [K|[K|[K|K]]]; rewrite K;
      simpl (_ =? _); cbn [andb orb]; rewrite ?orb_false_r;
      simpl (Z.to_nat _); cbn [nth]; reflexivity.
Qed.

Lemma des_round_stages (ctx : des_ctx_t) (k l r f0 : Z) :
  ctx_ready ctx -> 0 <= k < 16 -> fits 32 l -> fits 32 r ->
  exists kl kr f',
    rd (en_keysl ctx) k = Some kl /\ rd (en_keysr ctx) k = Some kr /\
    fits 24 kl /\ fits 24 kr /\
    des_round g ctx k (l, r, f0) = Some (r, f', f') /\ fits 32 f' /\
    forall o, 0 <= o < 32 ->
      word_bit f' o
      = xorb (word_bit l o)
             (word_bit (sbox_word (fst (sbox_input (saltbits ctx) kl kr r))
                                  (snd (sbox_input (saltbits ctx) kl kr r)))
                       (entry pbox o)).
Proof.
  intros (Hsalt & Ll & Lr & Kl & Kr) Hk Fl Fr.
  destruct (rd_forall _ _ k Kl) as (kl & Ekl & Fkl); [lia|].
  destruct (rd_forall _ _ k Kr) as (kr & Ekr & Fkr); [lia|].
  exists kl, kr.
  destruct (fits_salted_half (expand_l r) (expand_r r) (saltbits ctx) kl
              (fits_expand_l r) (fits_expand_r r) Fkl) as (Fa & _).
  destruct (fits_salted_half (expand_r r) (expand_l r) (saltbits ctx) kr
              (fits_expand_r r) (fits_expand_l r) Fkr) as (Fb & _).
  rewrite (Z.lxor_comm (expand_r r) (expand_l r)) in Fb.
  unfold sbox_input. cbn [fst snd].
  set (a := Z.lxor (expand_l r) _) in *. set (b := Z.lxor (expand_r r) _) in *.
  destruct (m_sbox_lookups a b Fa Fb) as (M0 & M1 & M2 & M3 & G0 & G1 & G2 & G3).
  cbv beta zeta in M0, M1, M2, M3, G0, G1, G2, G3.
  destruct (psbox_lookups _ _ _ _ G0 G1 G2 G3)
    as (p0 & p1 & p2 & p3 & P0 & P1 & P2 & P3 & Fp & Bp).
  exists (Z.lxor (Z.lor (Z.lor (Z.lor p0 p1) p2) p3) l).
  split; [exact Ekl|]. split; [exact Ekr|].
  split; [exact Fkl|]. split; [exact Fkr|]. split; [|split].
  - unfold des_round. rewrite Ekl, Ekr. cbn [bind].
    fold a. fold b. rewrite M0. cbn [bind]. rewrite P0. cbn [bind].
    rewrite M1. cbn [bind]. rewrite P1. cbn [bind].
    rewrite M2. cbn [bind]. rewrite P2. cbn [bind].
    rewrite M3. cbn [bind]. rewrite P3. cbn [bind]. reflexivity.
  - apply fits_lxor; [lia|assumption..].
  - intros o Ho. unfold sbox_word. cbv zeta beta. rewrite <- Bp by assumption.
    unfold word_bit. rewrite Z.lxor_spec. apply xorb_comm.
Qed.

End Round.

Lemma des_tables_m_sbox_ok : m_sbox_ok des_tables = true.
Proof. vm_compute. reflexivity. Qed.

Lemma des_tables_psbox_ok : psbox_ok des_tables = true.
Proof. vm_compute. reflexivity. Qed.

Lemma reachable_initialised (g : des_globals) :
  reachable g -> des_initialised g <> 0 -> g = des_tables.
Proof.
  intros H Hi. destruct (reachable_inv g H) as [-> | ->]; [|reflexivity].
  exfalso. apply Hi. reflexivity.
Qed.

(** X12: a round is the DES round. Once the tables are built, a round on
    [(l, r)] with the subkey of position [k] succeeds and gives
    [(r, f')], where bit [o] of [f'] is bit [o] of [l] XORed with bit
    [pbox[o] - 1] of the 32 bits that the eight S-boxes of the static
    array [sbox] give for the eight six-bit groups of the salted,
    keyed expansion of [r] (row from the first and last bit of a group,
    column from the four between); bits and groups are counted from
    the most significant end. *)
Theorem des_round_is_sbox_pbox_step (g : des_globals) (ctx : des_ctx_t)
    (k l r f0 : Z) :
  reachable g -> des_initialised g <> 0 ->
  ctx_ready ctx -> 0 <= k < 16 -> fits 32 l -> fits 32 r ->
  exists kl kr f',
    rd (en_keysl ctx) k = Some kl /\ rd (en_keysr ctx) k = Some kr /\
    fits 24 kl /\ fits 24 kr /\
    des_round g ctx k (l, r, f0) = Some (r, f', f') /\ fits 32 f' /\
    forall o, 0 <= o < 32 ->
      word_bit f' o
      = xorb (word_bit l o)
             (word_bit (sbox_word (fst (sbox_input (saltbits ctx) kl kr r))
                                  (snd (sbox_input (saltbits ctx) kl kr r)))
                       (entry pbox o)).
Proof.
  intros Hg Hi Hctx Hk Fl Fr.
  rewrite (reachable_initialised g Hg Hi).
  exact (des_round_stages des_tables des_tables_wf des_tables_m_sbox_ok
           des_tables_psbox_ok ctx k l r f0 Hctx Hk Fl Fr).
Qed.

Lemma des_round_is_sbox_pbox_step_witness :
  exists kl kr f',
    rd (en_keysl ctx_uninit) 0 = Some kl /\ rd (en_keysr ctx_uninit) 0 = Some kr /\
    fits 24 kl /\ fits 24 kr /\
    des_round des_tables ctx_uninit 0 (1, 2, 0) = Some (2, f', f') /\ fits 32 f' /\
    forall o, 0 <= o < 32 ->
      word_bit f' o
      = xorb (word_bit 1 o)
             (word_bit (sbox_word (fst (sbox_input (saltbits ctx_uninit) kl kr 2))
                                  (snd (sbox_input (saltbits ctx_uninit) kl kr 2)))
                       (entry pbox o)).
Proof.
  apply (des_round_is_sbox_pbox_step des_tables ctx_uninit 0 1 2 0).
  - exact reachable_tables.
  - intros H. discriminate H.
  - exact ctx_uninit_ready.
  - lia.
  - unfold fits. lia.
  - unfold fits. lia.
Defined.
(** ** The complement property *)

Lemma cpl_bit (n x p : Z) :
  0 <= n -> 0 <= p -> Z.testbit (cpl n x) p = xorb (Z.testbit x p) (p <? n).
Proof.
  intros Hn Hp. unfold cpl.
  rewrite Z.lxor_spec, Z.testbit_ones_nonneg by assumption. reflexivity.
Qed.

Lemma cpl_bit_low (n x p : Z) :
  0 <= p < n -> Z.testbit (cpl n x) p = negb (Z.testbit x p).
Proof.
  intros Hp. rewrite cpl_bit by lia.
  destruct (Z.ltb_spec p n); [|lia]. apply xorb_true_r.
Qed.

Lemma fits_ones (n : Z) : 0 <= n -> fits n (Z.ones n).
Proof.
  intros Hn. unfold fits. rewrite Z.ones_equiv.
  pose proof (Z.pow_pos_nonneg 2 n ltac:(lia) Hn). lia.
Qed.

Lemma fits_cpl (n x : Z) : 0 <= n -> fits n x -> fits n (cpl n x).
Proof.
  intros Hn Hx. unfold cpl. apply fits_lxor; [assumption..|].
  apply fits_ones. assumption.
Qed.

Lemma cpl_from_bits (n a b : Z) :
  0 <= n -> fits n a -> fits n b ->
  (forall p, 0 <= p < n -> Z.testbit b p = negb (Z.testbit a p)) ->
  b = cpl n a.
Proof.
  intros Hn Fa Fb H. apply Z.bits_inj'. intros p Hp.
  destruct (Z_lt_le_dec p n) as [Hlt|Hge].
  - rewrite cpl_bit_low by lia. apply H. lia.
  - rewrite (fits_high n b), (fits_high n (cpl n a)); auto using fits_cpl.
Qed.

Lemma lxor_cpl_cpl (n a b : Z) : Z.lxor (cpl n a) (cpl n b) = Z.lxor a b.
Proof.
  apply Z.bits_inj'. intros p Hp. unfold cpl. rewrite !Z.lxor_spec.
  destruct (Z.testbit a p), (Z.testbit b p), (Z.testbit (Z.ones n) p); reflexivity.
Qed.

Lemma lxor_cpl_key (n a f k : Z) :
  Z.lxor (cpl n a) (Z.lxor f (cpl n k)) = Z.lxor a (Z.lxor f k).
Proof.
  apply Z.bits_inj'. intros p Hp. unfold cpl. rewrite !Z.lxor_spec.
  destruct (Z.testbit a p), (Z.testbit f p), (Z.testbit k p),
           (Z.testbit (Z.ones n) p); reflexivity.
Qed.

Lemma lxor_cpl_r (n a b : Z) : Z.lxor a (cpl n b) = cpl n (Z.lxor a b).
Proof.
  apply Z.bits_inj'. intros p Hp. unfold cpl. rewrite !Z.lxor_spec.
  destruct (Z.testbit a p), (Z.testbit b p), (Z.testbit (Z.ones n) p); reflexivity.
Qed.

(** The expansion of a complement is the complement of the expansion. *)
Lemma expand_l_cpl (r : Z) : expand_l (cpl 32 r) = cpl 24 (expand_l r).
Proof.
  apply cpl_from_bits; [lia|apply fits_expand_l..|].
  intros p Hp. rewrite !expand_l_bit by assumption.
  apply cpl_bit_low.
  destruct (Z.eqb_spec p 23); [lia|].
  destruct (Z.leb_spec 18 p); [lia|].
  destruct (Z.leb_spec 12 p); [lia|].
  destruct (Z.leb_spec 6 p); lia.
Qed.

Lemma expand_r_cpl (r : Z) : expand_r (cpl 32 r) = cpl 24 (expand_r r).
Proof.
  apply cpl_from_bits; [lia|apply fits_expand_r..|].
  intros p Hp. rewrite !expand_r_bit by assumption.
  apply cpl_bit_low.
  destruct (Z.eqb_spec p 0); [lia|].
  destruct (Z.leb_spec p 5); [lia|].
  destruct (Z.leb_spec p 11); [lia|].
  destruct (Z.leb_spec p 17); lia.
Qed.

Lemma block_bit_cpl (w0 w1 s : Z) :
  0 <= s < 64 ->
  block_bit (cpl 32 w0) (cpl 32 w1) s = negb (block_bit w0 w1 s).
Proof.
  intros Hs. unfold block_bit.
  destruct (Z.ltb_spec s 32); apply cpl_bit_low; lia.
Qed.

(** A permutation by OR-mask tables commutes with complementing. *)
Lemma perm_lookup_cpl (t : table) (inv : list Z) (half w0 w1 v : Z) :
  perm_table_ok t inv half = true ->
  table_bounded 8 256 (2 ^ 32) t = true ->
  fits 32 w0 -> fits 32 w1 ->
  perm_lookup t w0 w1 = Some v ->
  perm_lookup t (cpl 32 w0) (cpl 32 w1) = Some (cpl 32 v).
Proof.
  intros Hp Ht F0 F1 E.
  destruct (perm_lookup_bits t inv half w0 w1 Hp Ht F0 F1) as (v' & E' & Fv & Bv).
  assert (v' = v) as -> by congruence.
  destruct (perm_lookup_bits t inv half (cpl 32 w0) (cpl 32 w1) Hp Ht
              (fits_cpl 32 w0 ltac:(lia) F0) (fits_cpl 32 w1 ltac:(lia) F1))
    as (vc & Ec & Fvc & Bvc).
  rewrite Ec. f_equal. apply cpl_from_bits; [lia|assumption..|].
  intros p Hpr. rewrite Bvc, Bv by assumption.
  apply block_bit_cpl.
  destruct (perm_table_cell t inv half 0 0 p Hp ltac:(lia) ltac:(lia) Hpr) as [Hs _].
  exact Hs.
Qed.

Lemma buffer_bit_complement (b0 b1 b2 b3 b4 b5 b6 b7 s : Z) :
  0 <= s < 64 ->
  buffer_bit (complement [b0; b1; b2; b3; b4; b5; b6; b7]) s
  = negb (buffer_bit [b0; b1; b2; b3; b4; b5; b6; b7] s).
Proof.
  intros Hs. unfold buffer_bit, complement. cbn [map].
  assert (Hmod : 0 <= s mod 8 < 8) by (apply Z.mod_pos_bound; lia).
  assert (Hd : s = 8 * (s / 8) + s mod 8) by (apply Z.div_mod; lia).
  assert (Hk : s / 8 = 0 \/ s / 8 = 1 \/ s / 8 = 2 \/ s / 8 = 3 \/
               s / 8 = 4 \/ s / 8 = 5 \/ s / 8 = 6 \/ s / 8 = 7) by lia.
  destruct Hk as [K|[K|[K|[K|[K|[K|[K|K]]]]]]]; rewrite K;
    simpl (Z.to_nat _); cbn [nth]; apply cpl_bit_low; lia.
Qed.

Lemma is_block_bytes (b0 b1 b2 b3 b4 b5 b6 b7 : Z) :
  fits 8 b0 -> fits 8 b1 -> fits 8 b2 -> fits 8 b3 ->
  fits 8 b4 -> fits 8 b5 -> fits 8 b6 -> fits 8 b7 ->
  is_block [b0; b1; b2; b3; b4; b5; b6; b7].
Proof.
  unfold fits, is_block, byteb. change (2 ^ 8) with 256. intros.
  cbn [length forallb Nat.eqb andb].
  repeat match goal with
         | |- context [0 <=? ?b] => rewrite (proj2 (Z.leb_le 0 b)) by lia
         | |- context [?b <? 256] => rewrite (proj2 (Z.ltb_lt b 256)) by lia
         end.
  reflexivity.
Qed.

Lemma is_block_complement (buf : list Z) : is_block buf -> is_block (complement buf).
Proof.
  intros H.
  destruct (is_block_inv buf H)
    as (b0 & b1 & b2 & b3 & b4 & b5 & b6 & b7 & -> & B0 & B1 & B2 & B3 & B4 & B5 & B6 & B7).
  unfold complement. cbn [map].
  apply is_block_bytes; apply fits_cpl; (lia || assumption).
Qed.

(** [unpack_block] loads the complement of a buffer as the complements
    of the two words. *)
Lemma unpack_block_complement (buf : list Z) (w0 w1 : Z) :
  is_block buf -> unpack_block buf = Some (w0, w1) ->
  unpack_block (complement buf) = Some (cpl 32 w0, cpl 32 w1).
Proof.
  intros H E.
  destruct (is_block_inv buf H)
    as (b0 & b1 & b2 & b3 & b4 & b5 & b6 & b7 & -> & B0 & B1 & B2 & B3 & B4 & B5 & B6 & B7).
  rewrite unpack_block_bytes in E. injection E as <- <-.
  unfold complement. cbn [map]. rewrite unpack_block_bytes.
  assert (C0 : fits 8 (cpl 8 b0)) by (apply fits_cpl; (lia || assumption)).
  assert (C1 : fits 8 (cpl 8 b1)) by (apply fits_cpl; (lia || assumption)).
  assert (C2 : fits 8 (cpl 8 b2)) by (apply fits_cpl; (lia || assumption)).
  assert (C3 : fits 8 (cpl 8 b3)) by (apply fits_cpl; (lia || assumption)).
  assert (C4 : fits 8 (cpl 8 b4)) by (apply fits_cpl; (lia || assumption)).
  assert (C5 : fits 8 (cpl 8 b5)) by (apply fits_cpl; (lia || assumption)).
  assert (C6 : fits 8 (cpl 8 b6)) by (apply fits_cpl; (lia || assumption)).
  assert (C7 : fits 8 (cpl 8 b7)) by (apply fits_cpl; (lia || assumption)).
  assert (Hb : forall s, 0 <= s < 64 ->
    block_bit (be32 (cpl 8 b0) (cpl 8 b1) (cpl 8 b2) (cpl 8 b3))
              (be32 (cpl 8 b4) (cpl 8 b5) (cpl 8 b6) (cpl 8 b7)) s
    = negb (block_bit (be32 b0 b1 b2 b3) (be32 b4 b5 b6 b7) s)).
  { intros s Hs. rewrite !block_bit_buffer by assumption.
    exact (buffer_bit_complement b0 b1 b2 b3 b4 b5 b6 b7 s Hs). }
  f_equal. f_equal.
  - apply cpl_from_bits; [lia|apply fits_wrap32..|]. intros p Hp.
    pose proof (Hb (31 - p) ltac:(lia)) as Hq. unfold block_bit in Hq.
    destruct (Z.ltb_spec (31 - p) 32); [|lia].
    replace (31 - (31 - p)) with p in Hq by lia. exact Hq.
  - apply cpl_from_bits; [lia|apply fits_wrap32..|]. intros p Hp.
    pose proof (Hb (63 - p) ltac:(lia)) as Hq. unfold block_bit in Hq.
    destruct (Z.ltb_spec (63 - p) 32); [lia|].
    replace (63 - (63 - p)) with p in Hq by lia. exact Hq.
Qed.

Lemma byte_top_cpl (w : Z) :
  fits 32 w -> wrap8 (Z.shiftr (cpl 32 w) 24) = cpl 8 (wrap8 (Z.shiftr w 24)).
Proof.
  intros F. apply cpl_from_bits; [lia|apply fits_wrap8..|]. intros p Hp.
  rewrite !wrap8_bit, !Z.shiftr_spec by lia. apply cpl_bit_low. lia.
Qed.

Lemma byte_mid_cpl (w sh : Z) :
  0 <= sh <= 16 ->
  wrap8 (Z.land (Z.shiftr (cpl 32 w) sh) 0xff)
  = cpl 8 (wrap8 (Z.land (Z.shiftr w sh) 0xff)).
Proof.
  intros Hsh. apply cpl_from_bits; [lia|apply fits_wrap8..|]. intros p Hp.
  rewrite !wrap8_bit, !slice_bit by lia. apply cpl_bit_low. lia.
Qed.

Lemma byte_low_cpl (w : Z) :
  wrap8 (Z.land (cpl 32 w) 0xff) = cpl 8 (wrap8 (Z.land w 0xff)).
Proof.
  apply cpl_from_bits; [lia|apply fits_wrap8..|]. intros p Hp.
  rewrite !wrap8_bit, !slice_bit_low by lia. apply cpl_bit_low. lia.
Qed.

(** [pack_block] stores the complements of two words as the complement
    of the buffer. *)
Lemma block_of_words_cpl (lt rt : Z) :
  fits 32 lt -> fits 32 rt ->
  block_of_words (cpl 32 lt) (cpl 32 rt) = complement (block_of_words lt rt).
Proof.
  intros Fl Fr. unfold block_of_words, complement. cbn [map].
  rewrite !byte_top_cpl, !byte_mid_cpl, !byte_low_cpl by (assumption || lia).
  reflexivity.
Qed.

Lemma for_loop_sim {St : Type} (R : Z -> St -> St -> Prop)
    (body1 body2 : Z -> St -> option St) :
  forall (n : nat) (i : Z) (s1 s2 : St),
    R i s1 s2 ->
    (forall j t1 t2, i <= j < i + Z.of_nat n -> R j t1 t2 ->
       exists t1' t2', body1 j t1 = Some t1' /\ body2 j t2 = Some t2' /\
                       R (j + 1) t1' t2') ->
    exists s1' s2',
      for_loop n i body1 s1 = Some s1' /\ for_loop n i body2 s2 = Some s2' /\
      R (i + Z.of_nat n) s1' s2'.
Proof.
  induction n as [|n IH]; intros i s1 s2 H0 Hstep.
  - exists s1, s2. cbn [for_loop]. rewrite Z.add_0_r. auto.
  - destruct (Hstep i s1 s2 ltac:(lia) H0) as (t1 & t2 & E1 & E2 & HR).
    destruct (IH (i + 1) t1 t2 HR) as (u1 & u2 & F1 & F2 & HU).
    + intros j a b Hj. apply Hstep. lia.
    + exists u1, u2. cbn [for_loop]. rewrite E1, E2. cbn [bind].
      split; [exact F1|]. split; [exact F2|].
      replace (i + Z.of_nat (S n)) with (i + 1 + Z.of_nat n) by lia. exact HU.
Qed.

Section Complement.

Variable g : des_globals.
Hypothesis Hwf : tables_wf g = true.
Hypothesis Hperms : perms_wf g = true.

Variables ctx ctxc : des_ctx_t.
Hypothesis Hctx : ctx_ready ctx.
Hypothesis Hcc : cpl_ctx ctx ctxc.

(** A round on complemented words with complemented subkeys looks up the
    same S-box entries, and gives the complement. *)
Lemma des_round_cpl (k l r f fc : Z) :
  0 <= k < 16 -> fits 32 l -> fits 32 r ->
  exists f',
    des_round g ctx k (l, r, f) = Some (r, f', f') /\ fits 32 f' /\
    des_round g ctxc k (cpl 32 l, cpl 32 r, fc)
    = Some (cpl 32 r, cpl 32 f', cpl 32 f').
Proof.
  intros Hk Fl Fr.
  destruct (des_round_ok g Hwf ctx k l r f Hctx Hk Fl Fr) as (f' & E & Ff).
  exists f'. split; [exact E|]. split; [exact Ff|].
  destruct Hcc as (Hsalt & Hkeys).
  destruct (Hkeys k Hk) as (kl & kr & Ekl & Ekr & _ & _ & Eklc & Ekrc).
  unfold des_round in E |- *.
  rewrite Ekl, Ekr in E. rewrite Eklc, Ekrc. cbn [bind] in E |- *.
  rewrite Hsalt, expand_l_cpl, expand_r_cpl, lxor_cpl_cpl, !lxor_cpl_key.
  destruct (tab_rd (m_sbox g) 0 _) as [m0|]; [|discriminate E]. cbn [bind] in E |- *.
  destruct (tab_rd (psbox g) 0 m0) as [p0|]; [|discriminate E]. cbn [bind] in E |- *.
  destruct (tab_rd (m_sbox g) 1 _) as [m1|]; [|discriminate E]. cbn [bind] in E |- *.
  destruct (tab_rd (psbox g) 1 m1) as [p1|]; [|discriminate E]. cbn [bind] in E |- *.
  destruct (tab_rd (m_sbox g) 2 _) as [m2|]; [|discriminate E]. cbn [bind] in E |- *.
  destruct (tab_rd (psbox g) 2 m2) as [p2|]; [|discriminate E]. cbn [bind] in E |- *.
  destruct (tab_rd (m_sbox g) 3 _) as [m3|]; [|discriminate E]. cbn [bind] in E |- *.
  destruct (tab_rd (psbox g) 3 m3) as [p3|]; [|discriminate E]. cbn [bind] in E |- *.
  injection E as <-. rewrite lxor_cpl_r. reflexivity.
Qed.

Lemma des_pass_cpl (l r f fc : Z) :
  fits 32 l -> fits 32 r ->
  exists l' r',
    des_pass g ctx (l, r, f) = Some (l', r', l') /\ fits 32 l' /\ fits 32 r' /\
    des_pass g ctxc (cpl 32 l, cpl 32 r, fc)
    = Some (cpl 32 l', cpl 32 r', cpl 32 l').
Proof.
  intros Fl Fr. unfold des_pass.
  destruct (for_loop_sim cpl_rel (des_round g ctx) (des_round g ctxc) 16 0
              (l, r, f) (cpl 32 l, cpl 32 r, fc))
    as ([[l1 r1] f1] & [[l2 r2] f2] & -> & -> & (F1 & F2 & -> & -> & Hf)).
  - unfold cpl_rel. split; [exact Fl|]. split; [exact Fr|].
    split; [reflexivity|]. split; [reflexivity|]. intros H. exfalso. lia.
  - intros j [[a b] c] [[a' b'] c'] Hj (Fa & Fb & -> & -> & _).
    destruct (des_round_cpl j a b c c' ltac:(lia) Fa Fb) as (f' & E1 & Ff & E2).
    do 2 eexists. split; [exact E1|]. split; [exact E2|].
    unfold cpl_rel. split; [exact Fb|]. split; [exact Ff|].
    split; [reflexivity|]. split; [reflexivity|]. intros _. split; reflexivity.
  - destruct (Hf ltac:(lia)) as [-> ->]. cbn [bind].
    exists r1, l1. split; [reflexivity|]. split; [exact F2|]. split; [exact F1|].
    reflexivity.
Qed.

Lemma des_passes_cpl (n : nat) :
  forall l r f fc, fits 32 l -> fits 32 r ->
  exists l' r' f' fc',
    des_passes g ctx n (l, r, f) = Some (l', r', f') /\ fits 32 l' /\ fits 32 r' /\
    des_passes g ctxc n (cpl 32 l, cpl 32 r, fc)
    = Some (cpl 32 l', cpl 32 r', fc').
Proof.
  induction n as [|n IH]; intros l r f fc Fl Fr.
  - exists l, r, f, fc. split; [reflexivity|]. split; [exact Fl|].
    split; [exact Fr|reflexivity].
  - destruct (des_pass_cpl l r f fc Fl Fr) as (l1 & r1 & E1 & F1 & F2 & E2).
    cbn [des_passes]. rewrite E1, E2. cbn [bind]. apply IH; assumption.
Qed.

Lemma do_des_cpl (input output output' : list Z) (count : Z) :
  is_block input -> length output = 8%nat -> length output' = 8%nat ->
  1 <= count ->
  exists lt rt,
    do_des g ctx input output count = Some (0, block_of_words lt rt) /\
    do_des g ctxc (complement input) output' count
    = Some (0, complement (block_of_words lt rt)).
Proof.
  intros Hin Lo Lo' Hc. unfold do_des.
  destruct (Z.eqb_spec count 0); [lia|].
  destruct (Z.gtb_spec count 0); [|lia].
  destruct (wf_parts g Hwf) as (_ & _ & _ & Hipl & Hipr & Hfpl & Hfpr & _).
  destruct (perms_parts g Hperms) as (Pipl & Pipr & Pfpl & Pfpr & _).
  destruct (unpack_block_ok input Hin) as (w0 & w1 & Eu & F0 & F1).
  rewrite Eu, (unpack_block_complement input w0 w1 Hin Eu). cbn [bind].
  destruct (perm_lookup_ok _ w0 w1 Hipl F0 F1) as (l & El & Fl).
  destruct (perm_lookup_ok _ w0 w1 Hipr F0 F1) as (r & Er & Fr).
  rewrite El, (perm_lookup_cpl _ _ _ _ _ _ Pipl Hipl F0 F1 El). cbn [bind].
  rewrite Er, (perm_lookup_cpl _ _ _ _ _ _ Pipr Hipr F0 F1 Er). cbn [bind].
  destruct (des_passes_cpl (Z.to_nat count) l r 0 0 Fl Fr)
    as (l' & r' & f' & fc' & -> & Fl' & Fr' & ->).
  cbn [bind].
  destruct (perm_lookup_ok _ l' r' Hfpl Fl' Fr') as (lt & Elt & Flt).
  destruct (perm_lookup_ok _ l' r' Hfpr Fl' Fr') as (rt & Ert & Frt).
  rewrite Elt, (perm_lookup_cpl _ _ _ _ _ _ Pfpl Hfpl Fl' Fr' Elt). cbn [bind].
  rewrite Ert, (perm_lookup_cpl _ _ _ _ _ _ Pfpr Hfpr Fl' Fr' Ert). cbn [bind].
  rewrite !pack_block_length8 by assumption. cbn [bind].
  exists lt, rt. split; [reflexivity|].
  rewrite block_of_words_cpl by assumption. reflexivity.
Qed.

End Complement.

Lemma subkey_src_range (round o : Z) :
  0 <= o < 48 -> 0 <= subkey_src round o < 64.
Proof.
  intros Ho. unfold subkey_src.
  pose proof (comp_perm_entry o Ho) as Hc.
  set (c := entry comp_perm o) in *. set (sh := shifts_before (round + 1)).
  destruct (Z.ltb_spec c 28).
  - pose proof (Z.mod_pos_bound (c + sh) 28 ltac:(lia)).
    apply key_perm_entry. lia.
  - pose proof (Z.mod_pos_bound (c - 28 + sh) 28 ltac:(lia)).
    apply key_perm_entry. lia.
Qed.

(** The key schedule of a complemented key is the complemented key
    schedule. *)
Lemma des_set_key_cpl (key : list Z) (salt : Z) :
  is_block key ->
  exists ctx ctxc,
    des_set_key des_tables ctx_uninit key = Some (des_tables, ctx, 0) /\
    des_set_key des_tables ctx_uninit (complement key)
    = Some (des_tables, ctxc, 0) /\
    ctx_ready (des_set_salt ctx salt) /\
    cpl_ctx (des_set_salt ctx salt) (des_set_salt ctxc salt).
Proof.
  intros Hk. pose proof (is_block_complement key Hk) as Hkc.
  destruct (des_set_key_ok des_tables des_tables_wf ctx_uninit key Hk eq_refl eq_refl)
    as (ctx & E & _ & Ll & Lr & Kl & Kr).
  destruct (des_set_key_ok des_tables des_tables_wf ctx_uninit (complement key) Hkc
              eq_refl eq_refl)
    as (ctxc & Ec & _ & Llc & Lrc & Klc & Krc).
  destruct (des_set_key_bits des_tables des_tables_wf des_tables_key_tables_ok
              ctx_uninit key Hk eq_refl eq_refl) as (ctx' & E' & B).
  assert (ctx' = ctx) as -> by congruence.
  destruct (des_set_key_bits des_tables des_tables_wf des_tables_key_tables_ok
              ctx_uninit (complement key) Hkc eq_refl eq_refl) as (ctxc' & Ec' & Bc).
  assert (ctxc' = ctxc) as -> by congruence.
  exists ctx, ctxc. split; [exact E|]. split; [exact Ec|]. split.
  - unfold ctx_ready, des_set_salt. cbn [saltbits en_keysl en_keysr].
    split; [apply fits_salt_mask|]. repeat (split; [assumption|]). assumption.
  - unfold cpl_ctx, des_set_salt. cbn [saltbits en_keysl en_keysr].
    split; [reflexivity|]. intros k Hkr.
    destruct (rd_forall _ _ k Kl) as (kl & Ekl & Fkl); [lia|].
    destruct (rd_forall _ _ k Kr) as (kr & Ekr & Fkr); [lia|].
    destruct (rd_forall _ _ k Klc) as (klc & Eklc & Fklc); [lia|].
    destruct (rd_forall _ _ k Krc) as (krc & Ekrc & Fkrc); [lia|].
    exists kl, kr. repeat (split; [assumption|]).
    assert (Hbits : forall o, 0 <= o < 48 ->
              subkey_bit ctxc k o = negb (subkey_bit ctx k o)).
    { intros o Ho. rewrite Bc, B by assumption.
      destruct (is_block_inv key Hk)
        as (b0 & b1 & b2 & b3 & b4 & b5 & b6 & b7 & -> & _).
      apply buffer_bit_complement. apply subkey_src_range. exact Ho. }
    split.
    + rewrite Eklc. f_equal. apply cpl_from_bits; [lia|assumption..|].
      intros p Hp. pose proof (Hbits (23 - p) ltac:(lia)) as H.
      unfold subkey_bit in H. destruct (Z.ltb_spec (23 - p) 24); [|lia].
      rewrite (rd_nth _ _ _ Ekl), (rd_nth _ _ _ Eklc) in H.
      replace (23 - (23 - p)) with p in H by lia. exact H.
    + rewrite Ekrc. f_equal. apply cpl_from_bits; [lia|assumption..|].
      intros p Hp. pose proof (Hbits (47 - p) ltac:(lia)) as H.
      unfold subkey_bit in H. destruct (Z.ltb_spec (47 - p) 24); [lia|].
      rewrite (rd_nth _ _ _ Ekr), (rd_nth _ _ _ Ekrc) in H.
      replace (47 - (47 - p)) with p in H by lia. exact H.
Qed.

(** X13: the complement property of DES, which the salt leaves intact.
    Inverting every bit of the key and of the input inverts every bit of
    the output: for every salt and every count of at least 1, a call on
    the complemented key and input succeeds when the call on the key and
    input does, and its output buffer is the complement of that one's. *)
Theorem des_cipher_block_complement (g : des_globals)
    (key input output output' : list Z) (salt count : Z) :
  reachable g -> is_block key -> is_block input ->
  length output = 8%nat -> length output' = 8%nat -> 1 <= count ->
  exists o,
    out_of (des_cipher_block g key input output salt count) = Some (0, o) /\
    out_of (des_cipher_block g (complement key) (complement input) output'
              salt count)
    = Some (0, complement o).
Proof.
  intros Hg Hk Hin Lo Lo' Hc.
  pose proof (is_block_complement key Hk) as Hkc.
  pose proof (is_block_complement input Hin) as Hinc.
  destruct (des_set_key_cpl key (wrap32 salt) Hk) as (ctx & ctxc & E & Ec & Hr & Hcc).
  destruct (do_des_cpl des_tables des_tables_wf des_tables_perms_wf
              (des_set_salt ctx (wrap32 salt)) (des_set_salt ctxc (wrap32 salt))
              Hr Hcc input output output' count Hin Lo Lo' Hc)
    as (lt & rt & D & Dc).
  destruct (des_cipher_block_cases g key input output salt count Hg Hk Hin Lo)
    as (c1 & K1 & _ & [[Hc1 _] | [_ (lt1 & rt1 & _ & _ & D1 & E1)]]); [lia|].
  destruct (des_cipher_block_cases g (complement key) (complement input) output'
              salt count Hg Hkc Hinc Lo')
    as (c2 & K2 & _ & [[Hc2 _] | [_ (lt2 & rt2 & _ & _ & D2 & E2)]]); [lia|].
  assert (c1 = ctx) as -> by congruence.
  assert (c2 = ctxc) as -> by congruence.
  assert (B1 : block_of_words lt1 rt1 = block_of_words lt rt) by congruence.
  assert (B2 : block_of_words lt2 rt2 = complement (block_of_words lt rt))
    by congruence.
  exists (block_of_words lt rt).
  rewrite E1, E2. cbn [out_of rc out]. rewrite B1, B2. split; reflexivity.
Qed.

Lemma des_cipher_block_complement_witness :
  exists o,
    out_of (des_cipher_block initial_globals
              [1; 35; 69; 103; 137; 171; 205; 239]
              [18; 52; 86; 120; 154; 188; 222; 240] zero_block 4660 3)
    = Some (0, o) /\
    out_of (des_cipher_block initial_globals
              (complement [1; 35; 69; 103; 137; 171; 205; 239])
              (complement [18; 52; 86; 120; 154; 188; 222; 240]) zero_block
              4660 3)
    = Some (0, complement o).
Proof.
  apply (des_cipher_block_complement initial_globals
           [1; 35; 69; 103; 137; 171; 205; 239]
           [18; 52; 86; 120; 154; 188; 222; 240] zero_block zero_block 4660 3).
  - apply reach_start.
  - reflexivity.
  - reflexivity.
  - reflexivity.
  - reflexivity.
  - lia.
Defined.
(** ** Counts add up *)

Lemma des_passes_app (g : des_globals) (ctx : des_ctx_t) (n m : nat) :
  forall s,
    des_passes g ctx (n + m) s
    = s' <- des_passes g ctx n s ;; des_passes g ctx m s'.
Proof.
  induction n as [|n IH]; intros s.
  - reflexivity.
  - cbn [Nat.add des_passes].
    destruct (des_pass g ctx s) as [s1|]; [|reflexivity].
    cbn [bind]. apply IH.
Qed.

(** Passes that follow do not see the [f] they are entered with. *)
Lemma des_passes_f_dead (g : des_globals) (ctx : des_ctx_t) (m : nat)
    (l r f f' : Z) :
  (0 < m)%nat ->
  des_passes g ctx m (l, r, f) = des_passes g ctx m (l, r, f').
Proof.
  intros Hm. destruct m as [|m]; [lia|].
  cbn [des_passes]. rewrite (des_pass_f_dead g ctx l r f f'). reflexivity.
Qed.

Section Counts.

Variable g : des_globals.
Hypothesis Hwf : tables_wf g = true.
Hypothesis Hperms : perms_wf g = true.

(** A run with count [n], then a run with count [m] on its output, give
    what one run with count [n + m] gives: the initial permutation that
    opens the second run undoes the final permutation that closed the
    first. *)
Lemma do_des_chain (ctx : des_ctx_t) (input output : list Z) (n m : Z) :
  ctx_ready ctx -> is_block input -> length output = 8%nat ->
  1 <= n -> 1 <= m ->
  exists b1 b2,
    do_des g ctx input output n = Some (0, b1) /\ is_block b1 /\
    do_des g ctx b1 b1 m = Some (0, b2) /\
    do_des g ctx input output (n + m) = Some (0, b2).
Proof.
  intros Hctx Hin Hout Hn Hm.
  destruct (wf_parts g Hwf) as (_ & _ & _ & Tipl & Tipr & Tfpl & Tfpr & _).
  destruct (unpack_block_ok input Hin) as (w0 & w1 & Ew & F0 & F1).
  destruct (perm_lookup_ok _ w0 w1 Tipl F0 F1) as (l0 & El0 & Fl0).
  destruct (perm_lookup_ok _ w0 w1 Tipr F0 F1) as (r0 & Er0 & Fr0).
  destruct (des_passes_ok g Hwf ctx (Z.to_nat n) Hctx l0 r0 0 Fl0 Fr0)
    as (l1 & r1 & f1 & E1 & Fl1 & Fr1).
  destruct (ip_after_fp g Hwf Hperms l1 r1 Fl1 Fr1)
    as (lt & rt & Elt & Ert & Flt & Frt & Eil & Eir).
  destruct (des_passes_ok g Hwf ctx (Z.to_nat m) Hctx l1 r1 0 Fl1 Fr1)
    as (l2 & r2 & f2 & E2 & Fl2 & Fr2).
  destruct (perm_lookup_ok _ l2 r2 Tfpl Fl2 Fr2) as (lt2 & Elt2 & Flt2).
  destruct (perm_lookup_ok _ l2 r2 Tfpr Fl2 Fr2) as (rt2 & Ert2 & Frt2).
  exists (block_of_words lt rt), (block_of_words lt2 rt2).
  pose proof (is_block_block_of_words lt rt) as Hb1.
  split; [|split; [exact Hb1|split]].
  - unfold do_des.
    destruct (Z.eqb_spec n 0); [lia|]. destruct (Z.gtb_spec n 0); [|lia].
    rewrite Ew. cbn [bind]. rewrite El0, Er0. cbn [bind].
    rewrite E1. cbn [bind]. rewrite Elt, Ert. cbn [bind].
    rewrite pack_block_length8 by assumption. reflexivity.
  - unfold do_des.
    destruct (Z.eqb_spec m 0); [lia|]. destruct (Z.gtb_spec m 0); [|lia].
    rewrite (unpack_pack lt rt Flt Frt). cbn [bind].
    rewrite Eil, Eir. cbn [bind]. rewrite E2. cbn [bind].
    rewrite Elt2, Ert2. cbn [bind].
    rewrite pack_block_length8 by (apply is_block_length; exact Hb1).
    reflexivity.
  - unfold do_des.
    destruct (Z.eqb_spec (n + m) 0); [lia|].
    destruct (Z.gtb_spec (n + m) 0); [|lia].
    rewrite Ew. cbn [bind]. rewrite El0, Er0. cbn [bind].
    rewrite Z2Nat.inj_add by lia. rewrite des_passes_app, E1. cbn [bind].
    rewrite (des_passes_f_dead g ctx (Z.to_nat m) l1 r1 f1 0) by lia.
    rewrite E2. cbn [bind]. rewrite Elt2, Ert2. cbn [bind].
    rewrite pack_block_length8 by assumption. reflexivity.
Qed.

End Counts.

(** X14: counts add up over calls. A call with count [n], followed by a
    call with count [m] and the same key and salt on the block that the
    first one produced, gives the block that one call with count
    [n + m] gives. *)
Theorem des_cipher_block_counts_add (g g2 : des_globals)
    (key input output output2 : list Z) (salt n m : Z) :
  reachable g -> reachable g2 -> is_block key -> is_block input ->
  length output = 8%nat -> length output2 = 8%nat -> 1 <= n -> 1 <= m ->
  exists o1 o2,
    out_of (des_cipher_block g key input output salt n) = Some (0, o1) /\
    out_of (des_cipher_block g2 key o1 output2 salt m) = Some (0, o2) /\
    out_of (des_cipher_block g key input output salt (n + m)) = Some (0, o2).
Proof.
  intros Hg Hg2 Hk Hin Lo Lo2 Hn Hm.
  destruct (des_cipher_block_wf des_tables des_tables_wf key input output salt n Hk)
    as (ctx & Ekey & Hctx & En).
  destruct (do_des_chain des_tables des_tables_wf des_tables_perms_wf
              (des_set_salt ctx (wrap32 salt)) input output n m Hctx Hin Lo Hn Hm)
    as (b1 & b2 & D1 & Hb1 & D2 & D12).
  exists b1, b2. split; [|split].
  - rewrite (des_cipher_block_reachable g) by assumption.
    rewrite En, D1. reflexivity.
  - rewrite (des_cipher_block_reachable g2) by assumption.
    destruct (des_cipher_block_wf des_tables des_tables_wf key b1 output2 salt m Hk)
      as (ctx2 & Ekey2 & _ & ->).
    assert (ctx2 = ctx) as -> by congruence.
    rewrite (do_des_output_indep des_tables _ b1 output2 b1 m Lo2
               (is_block_length b1 Hb1) Hm).
    rewrite D2. reflexivity.
  - rewrite (des_cipher_block_reachable g) by assumption.
    destruct (des_cipher_block_wf des_tables des_tables_wf key input output salt
                (n + m) Hk) as (ctx3 & Ekey3 & _ & ->).
    assert (ctx3 = ctx) as -> by congruence.
    rewrite D12. reflexivity.
Qed.

Lemma des_cipher_block_counts_add_witness :
  exists o1 o2,
    out_of (des_cipher_block initial_globals
              [1; 35; 69; 103; 137; 171; 205; 239]
              [18; 52; 86; 120; 154; 188; 222; 240] zero_block 4660 2)
    = Some (0, o1) /\
    out_of (des_cipher_block des_tables
              [1; 35; 69; 103; 137; 171; 205; 239] o1 zero_block 4660 3)
    = Some (0, o2) /\
    out_of (des_cipher_block initial_globals
              [1; 35; 69; 103; 137; 171; 205; 239]
              [18; 52; 86; 120; 154; 188; 222; 240] zero_block 4660 (2 + 3))
    = Some (0, o2).
Proof.
  apply (des_cipher_block_counts_add initial_globals des_tables
           [1; 35; 69; 103; 137; 171; 205; 239]
           [18; 52; 86; 120; 154; 188; 222; 240] zero_block zero_block 4660 2 3).
  - apply reach_start.
  - exact reachable_tables.
  - reflexivity.
  - reflexivity.
  - reflexivity.
  - reflexivity.
  - lia.
  - lia.
Defined.
(** ** Only eight bytes of each buffer *)

Lemma unpack_block_app (b x : list Z) :
  length b = 8%nat -> unpack_block (b ++ x) = unpack_block b.
Proof.
  intros H.
  destruct (length8_inv b H) as (a0 & a1 & a2 & a3 & a4 & a5 & a6 & a7 & ->).
  reflexivity.
Qed.

Lemma pack_block_app (b x : list Z) (left right : Z) :
  length b = 8%nat ->
  pack_block (b ++ x) left right = Some (block_of_words left right ++ x).
Proof.
  intros H.
  destruct (length8_inv b H) as (a0 & a1 & a2 & a3 & a4 & a5 & a6 & a7 & ->).
  reflexivity.
Qed.

Lemma do_des_app (g : des_globals) (ctx : des_ctx_t)
    (input output ix ox : list Z) (count : Z) :
  length input = 8%nat -> length output = 8%nat ->
  do_des g ctx (input ++ ix) (output ++ ox) count
  = match do_des g ctx input output count with
    | Some (r, o) => Some (r, o ++ ox)
    | None => None
    end.
Proof.
  intros Li Lo. unfold do_des.
  destruct (count =? 0); [reflexivity|].
  destruct (count >? 0); [|reflexivity].
  rewrite unpack_block_app by assumption.
  destruct (unpack_block input) as [[lt rt]|]; [|reflexivity]. cbn [bind].
  destruct (perm_lookup (ip_maskl g) lt rt); [|reflexivity]. cbn [bind].
  destruct (perm_lookup (ip_maskr g) lt rt); [|reflexivity]. cbn [bind].
  destruct (des_passes g ctx (Z.to_nat count) _) as [[[l r] f]|]; [|reflexivity].
  cbn [bind].
  destruct (perm_lookup (fp_maskl g) l r); [|reflexivity]. cbn [bind].
  destruct (perm_lookup (fp_maskr g) l r); [|reflexivity]. cbn [bind].
  rewrite pack_block_app, pack_block_length8 by assumption. reflexivity.
Qed.

(** X15: a call touches eight bytes of each buffer and no more. Whatever
    follows the first eight bytes of the key and of the input is not
    read, and whatever follows the first eight bytes of the output
    buffer is still there after the call, on the error path as on the
    other: the call on longer buffers does what the call on their first
    eight bytes does. *)
Theorem des_cipher_block_first_eight_bytes (g : des_globals)
    (key input output kx ix ox : list Z) (salt count : Z) :
  length key = 8%nat -> length input = 8%nat -> length output = 8%nat ->
  des_cipher_block g (key ++ kx) (input ++ ix) (output ++ ox) salt count
  = option_map (followed_by ox)
      (des_cipher_block g key input output salt count).
Proof.
  intros Lk Li Lo. unfold des_cipher_block.
  destruct (if nonzero (des_initialised g) then Some g else des_init_tables g)
    as [g1|]; [|reflexivity]. cbn [bind].
  unfold des_set_key.
  destruct (des_init_tables g1) as [g2|]; [|reflexivity]. cbn [bind].
  rewrite unpack_block_app by assumption.
  destruct (unpack_block key) as [[k0 k1]|]; [|reflexivity]. cbn [bind].
  destruct (key_perm_lookup (key_perm_maskl g2) k0 k1); [|reflexivity]. cbn [bind].
  destruct (key_perm_lookup (key_perm_maskr g2) k0 k1); [|reflexivity]. cbn [bind].
  destruct (for_loop 16 0 _ _) as [[sh ctx]|]; [|reflexivity]. cbn [bind].
  rewrite do_des_app by assumption.
  destruct (do_des g2 _ input output count) as [[r o]|]; reflexivity.
Qed.

Lemma des_cipher_block_first_eight_bytes_witness :
  des_cipher_block initial_globals
    ([1; 35; 69; 103; 137; 171; 205; 239] ++ [7; 7])
    ([18; 52; 86; 120; 154; 188; 222; 240] ++ [9])
    (zero_block ++ [5; 6]) 4660 1
  = option_map (followed_by [5; 6])
      (des_cipher_block initial_globals
         [1; 35; 69; 103; 137; 171; 205; 239]
         [18; 52; 86; 120; 154; 188; 222; 240] zero_block 4660 1).
Proof.
  apply (des_cipher_block_first_eight_bytes initial_globals
           [1; 35; 69; 103; 137; 171; 205; 239]
           [18; 52; 86; 120; 154; 188; 222; 240] zero_block [7; 7] [9] [5; 6]
           4660 1); reflexivity.
Defined.
(** ** The inverse arrays of the generator *)

Lemma in_count_up_inv (n : nat) :
  forall i k, In k (count_up n i) -> i <= k < i + Z.of_nat n.
Proof.
  induction n as [|n IH]; intros i k H; [destruct H|].
  cbn [count_up] in H. destruct H as [<-|H]; [lia|].
  apply IH in H. lia.
Qed.

Lemma inverse_ok_spec (tbl inv : list Z) (i : Z) :
  inverse_ok tbl inv = true -> 0 <= i < Z.of_nat (length tbl) ->
  rd inv (entry tbl i) = Some i.
Proof.
  intros H Hi. unfold inverse_ok in H. rewrite forallb_forall in H.
  specialize (H i (in_range _ i Hi)).
  destruct (rd inv (entry tbl i)) as [v|]; [|discriminate H].
  apply Z.eqb_eq in H. congruence.
Qed.

Lemma unset_ok_spec (tbl inv : list Z) (n : nat) (b : Z) :
  unset_ok tbl inv n = true -> 0 <= b < Z.of_nat n ->
  (forall i, 0 <= i < Z.of_nat (length tbl) -> entry tbl i <> b) ->
  rd inv b = Some 255.
Proof.
  intros H Hb Hno. unfold unset_ok in H. rewrite forallb_forall in H.
  specialize (H b (in_range _ b Hb)). apply orb_prop in H.
  destruct H as [H|H].
  - exfalso. apply existsb_exists in H. destruct H as (i & Hin & E).
    apply Z.eqb_eq in E. apply (Hno i); [|exact E].
    apply in_count_up_inv in Hin. lia.
  - destruct (rd inv b) as [v|]; [|discriminate H].
    apply Z.eqb_eq in H. congruence.
Qed.

Lemma des_tables_inverses_ok : inverses_ok des_tables = true.
Proof. vm_compute. reflexivity. Qed.

(** X16: what the generator leaves in its inverse arrays. From any state
    of the tables that a process can be in, [des_init_tables] succeeds,
    and afterwards [final_perm] is [IP] counted from 0 and [init_perm]
    its inverse; [inv_key_perm], [inv_comp_perm] and [un_pbox] hold, at
    each bit number that [key_perm], [comp_perm] and [pbox] list, the
    position at which they list it; [inv_key_perm] keeps 255 at the last
    bit of each key byte, which [key_perm] never names, and
    [inv_comp_perm] keeps 255 at the places that [comp_perm] leaves
    out. *)
Theorem des_init_tables_inverts_permutations (g : des_globals) :
  reachable g ->
  exists g',
    des_init_tables g = Some g' /\
    (forall i, 0 <= i < 64 ->
       rd (final_perm g') i = Some (entry IP i) /\
       rd (init_perm g') (entry IP i) = Some i) /\
    (forall i, 0 <= i < 56 -> rd (inv_key_perm g') (entry key_perm i) = Some i) /\
    (forall b, 0 <= b < 64 -> b mod 8 = 7 -> rd (inv_key_perm g') b = Some 255) /\
    (forall i, 0 <= i < 48 -> rd (inv_comp_perm g') (entry comp_perm i) = Some i) /\
    (forall b, 0 <= b < 56 ->
       (forall i, 0 <= i < 48 -> entry comp_perm i <> b) ->
       rd (inv_comp_perm g') b = Some 255) /\
    (forall i, 0 <= i < 32 -> rd (un_pbox g') (entry pbox i) = Some i).
Proof.
  intros Hg. exists des_tables. split; [exact (des_init_tables_reachable g Hg)|].
  pose proof des_tables_inverses_ok as H. unfold inverses_ok in H.
  apply andb_prop in H. destruct H as [H H7].
  apply andb_prop in H. destruct H as [H H6].
  apply andb_prop in H. destruct H as [H H5].
  apply andb_prop in H. destruct H as [H H4].
  apply andb_prop in H. destruct H as [H H3].
  apply andb_prop in H. destruct H as [H1 H2].
  split; [|split; [|split; [|split; [|split]]]].
  - intros i Hi. split.
    + unfold final_perm_ok in H1. rewrite forallb_forall in H1.
      specialize (H1 i (in_range 64 i Hi)).
      destruct (rd (final_perm des_tables) i) as [v|]; [|discriminate H1].
      apply Z.eqb_eq in H1. congruence.
    + apply (inverse_ok_spec IP _ i H2). exact Hi.
  - intros i Hi. apply (inverse_ok_spec key_perm _ i H3). exact Hi.
  - intros b Hb Hm. apply (unset_ok_spec key_perm _ 64 b H4 Hb).
    intros i Hi E. destruct (key_perm_entry i Hi) as [_ Hne].
    rewrite E in Hne. contradiction.
  - intros i Hi. apply (inverse_ok_spec comp_perm _ i H5). exact Hi.
  - intros b Hb Hno. apply (unset_ok_spec comp_perm _ 56 b H6 Hb). exact Hno.
  - intros i Hi. apply (inverse_ok_spec pbox _ i H7). exact Hi.
Qed.

Lemma des_init_tables_inverts_permutations_witness :
  exists g',
    des_init_tables initial_globals = Some g' /\
    (forall i, 0 <= i < 64 ->
       rd (final_perm g') i = Some (entry IP i) /\
       rd (init_perm g') (entry IP i) = Some i) /\
    (forall i, 0 <= i < 56 -> rd (inv_key_perm g') (entry key_perm i) = Some i) /\
    (forall b, 0 <= b < 64 -> b mod 8 = 7 -> rd (inv_key_perm g') b = Some 255) /\
    (forall i, 0 <= i < 48 -> rd (inv_comp_perm g') (entry comp_perm i) = Some i) /\
    (forall b, 0 <= b < 56 ->
       (forall i, 0 <= i < 48 -> entry comp_perm i <> b) ->
       rd (inv_comp_perm g') b = Some 255) /\
    (forall i, 0 <= i < 32 -> rd (un_pbox g') (entry pbox i) = Some i).
Proof.
  apply (des_init_tables_inverts_permutations initial_globals).
  apply reach_start.
Defined.
(** ** Buffers that overlap *)

Lemma rd_bytes_at (mem : list Z) (p i : Z) :
  0 <= p -> 0 <= i < 8 -> rd mem (p + i) = rd (bytes_at mem p) i.
Proof.
  intros Hp Hi. unfold rd, bytes_at.
  destruct (Z.ltb_spec (p + i) 0); [lia|]. destruct (Z.ltb_spec i 0); [lia|].
  rewrite nth_error_firstn, nth_error_skipn.
  destruct (Nat.ltb_spec (Z.to_nat i) 8); [|lia].
  f_equal. lia.
Qed.

Lemma unpack_block_mem (mem : list Z) (p : Z) :
  0 <= p -> Mem.unpack_block mem p = unpack_block (bytes_at mem p).
Proof.
  intros Hp. unfold Mem.unpack_block, unpack_block.
  rewrite !(rd_bytes_at mem p) by lia. reflexivity.
Qed.

(** A memory around one of its eight-byte buffers. *)
Lemma mem_around (mem : list Z) (p : Z) :
  in_mem mem p ->
  exists pre b post,
    mem = pre ++ b ++ post /\ Z.of_nat (length pre) = p /\ length b = 8%nat /\
    bytes_at mem p = b /\
    forall b', length b' = 8%nat -> stored mem p b' = pre ++ b' ++ post.
Proof.
  intros [H0 H1].
  exists (firstn (Z.to_nat p) mem), (bytes_at mem p), (skipn (Z.to_nat p + 8) mem).
  assert (Lp : length (firstn (Z.to_nat p) mem) = Z.to_nat p)
    by (rewrite length_firstn; lia).
  assert (Lb : length (bytes_at mem p) = 8%nat).
  { unfold bytes_at. rewrite length_firstn, length_skipn. lia. }
  split; [|split; [lia|split; [exact Lb|split; [reflexivity|]]]].
  - unfold bytes_at.
    rewrite <- (firstn_skipn (Z.to_nat p) mem) at 1. f_equal.
    rewrite <- (firstn_skipn 8 (skipn (Z.to_nat p) mem)) at 1. f_equal.
    rewrite skipn_skipn. f_equal. lia.
  - intros b' Lb'. unfold stored. rewrite Lb'. reflexivity.
Qed.

Lemma upd_shift {A : Type} (pre m : list A) (n : nat) (v : A) :
  upd (pre ++ m) (length pre + n) v = option_map (app pre) (upd m n v).
Proof.
  induction pre as [|a pre IH].
  - cbn [app length Nat.add]. destruct (upd m n v); reflexivity.
  - cbn [app length Nat.add upd]. rewrite IH.
    destruct (upd m n v); reflexivity.
Qed.

Lemma wr_shift (pre m : list Z) (i v : Z) :
  0 <= i ->
  wr (pre ++ m) (Z.of_nat (length pre) + i) v = option_map (app pre) (wr m i v).
Proof.
  intros Hi. unfold wr.
  destruct (Z.ltb_spec (Z.of_nat (length pre) + i) 0); [lia|].
  destruct (Z.ltb_spec i 0); [lia|].
  replace (Z.to_nat (Z.of_nat (length pre) + i))
    with (length pre + Z.to_nat i)%nat by lia.
  apply upd_shift.
Qed.

Lemma pack_block_shift (pre m : list Z) (left right : Z) :
  Mem.pack_block (pre ++ m) (Z.of_nat (length pre)) left right
  = option_map (app pre) (pack_block m left right).
Proof.
  unfold Mem.pack_block, pack_block.
  rewrite wr_shift by lia.
  destruct (wr m 0 _) as [m1|]; [|reflexivity]. cbn [option_map bind].
  rewrite wr_shift by lia.
  destruct (wr m1 1 _) as [m2|]; [|reflexivity]. cbn [option_map bind].
  rewrite wr_shift by lia.
  destruct (wr m2 2 _) as [m3|]; [|reflexivity]. cbn [option_map bind].
  rewrite wr_shift by lia.
  destruct (wr m3 3 _) as [m4|]; [|reflexivity]. cbn [option_map bind].
  rewrite wr_shift by lia.
  destruct (wr m4 4 _) as [m5|]; [|reflexivity]. cbn [option_map bind].
  rewrite wr_shift by lia.
  destruct (wr m5 5 _) as [m6|]; [|reflexivity]. cbn [option_map bind].
  rewrite wr_shift by lia.
  destruct (wr m6 6 _) as [m7|]; [|reflexivity]. cbn [option_map bind].
  rewrite wr_shift by lia. reflexivity.
Qed.

Lemma pack_block_mem (mem : list Z) (p left right : Z) :
  in_mem mem p ->
  Mem.pack_block mem p left right
  = Some (stored mem p (block_of_words left right)).
Proof.
  intros H.
  destruct (mem_around mem p H) as (pre & b & post & -> & <- & Lb & _ & St).
  rewrite (St (block_of_words left right) eq_refl).
  rewrite pack_block_shift, pack_block_app by assumption. reflexivity.
Qed.

Lemma stored_same (mem : list Z) (p : Z) :
  in_mem mem p -> stored mem p (bytes_at mem p) = mem.
Proof.
  intros H.
  destruct (mem_around mem p H) as (pre & b & post & E & _ & Lb & Eb & St).
  rewrite Eb, (St b Lb). symmetry. exact E.
Qed.

Lemma length_bytes_at (mem : list Z) (p : Z) :
  in_mem mem p -> length (bytes_at mem p) = 8%nat.
Proof.
  intros H. destruct (mem_around mem p H) as (_ & b & _ & _ & _ & Lb & -> & _).
  exact Lb.
Qed.

Lemma des_set_key_mem (g : des_globals) (ctx : des_ctx_t) (mem : list Z)
    (key : Z) :
  0 <= key ->
  Mem.des_set_key g ctx mem key = des_set_key g ctx (bytes_at mem key).
Proof.
  intros Hk. unfold Mem.des_set_key, des_set_key.
  rewrite unpack_block_mem by assumption. reflexivity.
Qed.

Lemma do_des_mem (g : des_globals) (ctx : des_ctx_t) (mem : list Z)
    (input output count : Z) :
  in_mem mem input -> in_mem mem output ->
  Mem.do_des g ctx mem input output count
  = match do_des g ctx (bytes_at mem input) (bytes_at mem output) count with
    | Some (r, o) => Some (r, stored mem output o)
    | None => None
    end.
Proof.
  intros Hi Ho. unfold Mem.do_des, do_des.
  destruct (count =? 0); [rewrite (stored_same mem output Ho); reflexivity|].
  destruct (count >? 0); [|rewrite (stored_same mem output Ho); reflexivity].
  rewrite unpack_block_mem by apply Hi.
  destruct (unpack_block (bytes_at mem input)) as [[lt rt]|]; [|reflexivity].
  cbn [bind].
  destruct (perm_lookup (ip_maskl g) lt rt); [|reflexivity]. cbn [bind].
  destruct (perm_lookup (ip_maskr g) lt rt); [|reflexivity]. cbn [bind].
  destruct (des_passes g ctx (Z.to_nat count) _) as [[[l r] f]|]; [|reflexivity].
  cbn [bind].
  destruct (perm_lookup (fp_maskl g) l r); [|reflexivity]. cbn [bind].
  destruct (perm_lookup (fp_maskr g) l r); [|reflexivity]. cbn [bind].
  rewrite pack_block_mem by assumption.
  rewrite pack_block_length8 by (apply length_bytes_at; assumption).
  reflexivity.
Qed.

(** X2: encrypting in place is safe, and so is any other overlap of the
    buffers. In a byte memory where the key, the input and the output
    buffer are addresses that may coincide or overlap in any way, a call
    does what it does on separate copies of the three buffers, and the
    memory it leaves is the memory it found with the eight output bytes
    stored at the output address, unchanged on the error path: the key
    is read at line 405 and the input at line 492, before the only
    stores to the output at line 580. *)
Theorem des_cipher_block_in_place (g : des_globals) (mem : list Z)
    (key input output salt count : Z) :
  in_mem mem key -> in_mem mem input -> in_mem mem output ->
  Mem.des_cipher_block g mem key input output salt count
  = option_map (in_memory mem output)
      (des_cipher_block g (bytes_at mem key) (bytes_at mem input)
         (bytes_at mem output) salt count).
Proof.
  intros Hk Hi Ho. unfold Mem.des_cipher_block, des_cipher_block.
  destruct (if nonzero (des_initialised g) then Some g else des_init_tables g)
    as [g1|]; [|reflexivity]. cbn [bind].
  rewrite des_set_key_mem by apply Hk.
  destruct (des_set_key g1 ctx_uninit (bytes_at mem key)) as [[[g2 ctx] z]|];
    [|reflexivity].
  cbn [bind]. rewrite do_des_mem by assumption.
  destruct (do_des g2 _ (bytes_at mem input) (bytes_at mem output) count)
    as [[r o]|]; reflexivity.
Qed.

Lemma des_cipher_block_in_place_witness :
  Mem.des_cipher_block initial_globals
    [1; 35; 69; 103; 137; 171; 205; 239; 18; 52; 86; 120; 154; 188; 222; 240]
    0 8 8 4660 3
  = option_map
      (in_memory
         [1; 35; 69; 103; 137; 171; 205; 239; 18; 52; 86; 120; 154; 188; 222; 240]
         8)
      (des_cipher_block initial_globals
         (bytes_at
            [1; 35; 69; 103; 137; 171; 205; 239; 18; 52; 86; 120; 154; 188; 222; 240]
            0)
         (bytes_at
            [1; 35; 69; 103; 137; 171; 205; 239; 18; 52; 86; 120; 154; 188; 222; 240]
            8)
         (bytes_at
            [1; 35; 69; 103; 137; 171; 205; 239; 18; 52; 86; 120; 154; 188; 222; 240]
            8)
         4660 3).
Proof.
  apply (des_cipher_block_in_place initial_globals
           [1; 35; 69; 103; 137; 171; 205; 239; 18; 52; 86; 120; 154; 188; 222; 240]
           0 8 8 4660 3); unfold in_mem; simpl; lia.
Defined.
